(** * rb.clients: the pipelining engine of the rb Redis router

    A shallow embedding of [rb/clients.py] (Python 2) and the properties of
    its command buffer, coalescer, mapping / fanout / routing clients and map
    manager.

    Python objects that are shared and mutated (promises, the lists held by
    a pending batch, command buffers, poll registries) live in explicit
    stores and are named by references; methods are state transformers in a
    small state-and-exception monad. *)

From Stdlib Require Import ZArith QArith Lia DecimalString DecimalZ.
From stdpp Require Import gmap strings list fin_maps sorting.

Set Default Goal Selector "!".
Open Scope string_scope.
Open Scope list_scope.

(** ** Values and exceptions *)

(** Parsed Redis replies, as redis-py hands them to [Promise.resolve]. *)
#[warnings="-register-all"]
Inductive value : Type :=
| VNone
| VBulk (s : string)
| VInt (z : Z)
| VBool (b : bool)
| VList (vs : list value).

(** The exceptions the module raises or lets through. *)
Inductive exn : Type :=
| ValueError (msg : string)
| RuntimeError (msg : string)
| TypeError (msg : string)
| KeyError (key : string)
| AttributeError (attr : string)
| ConnectionError (msg : string)
| TimeoutError (msg : string)
| ResponseError (msg : string)
| IndexError (msg : string)
| AlreadySettled.                 (* a promise resolved twice; see [Promise] *)

(** ** The state-and-exception monad

    [Ret a s]: the call returned [a] in state [s].  [Raise e s]: it raised
    [e], leaving state [s].  [Undef]: no result (a loop that did not finish
    within its fuel, a read that blocks for ever, or a reference that names
    no object). *)
Inductive outcome (S A : Type) : Type :=
| Ret (a : A) (s : S)
| Raise (e : exn) (s : S)
| Undef.
Arguments Ret {S A} a s.
Arguments Raise {S A} e s.
Arguments Undef {S A}.

Definition M (S A : Type) : Type := S -> outcome S A.

Definition ret {S A} (a : A) : M S A := fun s => Ret a s.

Definition bind {S A B} (m : M S A) (k : A -> M S B) : M S B :=
  fun s => match m s with
           | Ret a s' => k a s'
           | Raise e s' => Raise e s'
           | Undef => Undef
           end.

Definition raise {S A} (e : exn) : M S A := fun s => Raise e s.
Definition undef {S A} : M S A := fun _ => Undef.
Definition gets {S A} (f : S -> A) : M S A := fun s => Ret (f s) s.
Definition modify {S} (f : S -> S) : M S unit := fun s => Ret tt (f s).

(** Reading through a reference: no object, no behaviour. *)
Definition deref {S A} (f : S -> option A) : M S A :=
  fun s => match f s with Some a => Ret a s | None => Undef end.

(** Run a computation on a component [T] of the state [S]. *)
Definition zoom {S T A} (proj : S -> T) (upd : T -> S -> S) (m : M T A) : M S A :=
  fun s => match m (proj s) with
           | Ret a t => Ret a (upd t s)
           | Raise e t => Raise e (upd t s)
           | Undef => Undef
           end.

(** [try: body finally: fin]. *)
Definition try_finally {S A} (body : M S A) (fin : M S unit) : M S A :=
  fun s => match body s with
           | Ret a s' => bind fin (fun _ => ret a) s'
           | Raise e s' => bind fin (fun _ => raise e) s'
           | Undef => Undef
           end.

(** [try: body except <handled> as e: handler e]. *)
Definition try_except {S A} (body : M S A) (handled : exn -> bool)
    (handler : exn -> M S A) : M S A :=
  fun s => match body s with
           | Ret a s' => Ret a s'
           | Raise e s' => if handled e then handler e s' else Raise e s'
           | Undef => Undef
           end.

Declare Scope py_scope.
Delimit Scope py_scope with py.
Notation "'let!' x ':=' m 'in' k" := (bind m (fun x => k))
  (at level 10, x pattern, m at level 100, k at level 200) : py_scope.
Notation "m ';;;' k" := (bind m (fun _ => k))
  (at level 100, k at level 200, right associativity) : py_scope.
Open Scope py_scope.

(** [for x in xs: body x]; an exception leaves the loop. *)
Fixpoint for_each {S A} (body : A -> M S unit) (xs : list A) : M S unit :=
  match xs with
  | [] => ret tt
  | x :: xs' => body x ;;; for_each body xs'
  end.

(** ** Promises and shared lists *)

Abbreviation promise_ref := nat.
Abbreviation list_ref := nat.

Inductive pstate : Type :=
| Pending
| Resolved (v : value)
| Rejected (e : exn).

(** A success callback.  The only one this module registers is the closure
    [on_success] of [merge_batch], which captures [list_response] and the
    list object [arg_promise_tuples]. *)
Inductive callback : Type :=
| on_success (list_response : bool) (arg_promise_tuples : list_ref).

(** Modelled from the spec: [rb.promise.Promise] is not part of the source
    tree.  A promise is pending, resolved or rejected, the transition out of
    pending is one-shot ([resolve] on a promise that is not pending fails
    with [AlreadySettled]), and the callbacks registered on it fire
    synchronously, in registration order, when it resolves. *)
Record Promise : Type := mkPromise {
  state : pstate;
  callbacks : list callback
}.

(** The object store the coalescer works in: the promises, and the Python
    lists a pending batch holds (a list is shared between [pending_batch]
    and the closure of the batch promise made from it). *)
Record pyheap : Type := mkHeap {
  promises : gmap nat Promise;
  next_promise : nat;
  lists : gmap nat (list (list string * promise_ref));
  next_list : nat
}.

Definition set_promise (p : promise_ref) (pr : Promise) (h : pyheap) : pyheap :=
  mkHeap (<[p := pr]> (promises h)) (next_promise h) (lists h) (next_list h).

Definition set_list (l : list_ref) (xs : list (list string * promise_ref))
    (h : pyheap) : pyheap :=
  mkHeap (promises h) (next_promise h) (<[l := xs]> (lists h)) (next_list h).

(** [Promise()] *)
Definition Promise_new : M pyheap promise_ref :=
  fun h => let p := next_promise h in
           Ret p (mkHeap (<[p := mkPromise Pending []]> (promises h)) (S p)
                         (lists h) (next_list h)).

(** A list display [[x]]: a new list object. *)
Definition list_new (xs : list (list string * promise_ref)) : M pyheap list_ref :=
  fun h => let l := next_list h in
           Ret l (mkHeap (promises h) (next_promise h)
                         (<[l := xs]> (lists h)) (S l)).

(** [l.append(x)] *)
Definition list_append (l : list_ref) (x : list string * promise_ref) : M pyheap unit :=
  let! xs := deref (fun h => lists h !! l) in
  modify (set_list l (xs ++ [x])).

(** What [izip] gets when it iterates a reply: a list gives its elements, a
    string its characters; anything else is not iterable. *)
Definition chars (s : string) : list value :=
  (fun c => VBulk (String c EmptyString)) <$> String.list_ascii_of_string s.

Definition iterate (v : value) : option (list value) :=
  match v with
  | VList vs => Some vs
  | VBulk s => Some (chars s)
  | _ => None
  end.

(** [izip(xs, ys)]: stops with the shorter one. *)
Fixpoint izip {A B} (xs : list A) (ys : list B) : list (A * B) :=
  match xs, ys with
  | x :: xs', y :: ys' => (x, y) :: izip xs' ys'
  | _, _ => []
  end.

(** [promise.resolve(value)].  Resolving fires the callbacks, and a callback
    of [merge_batch] resolves further promises, so the recursion is bounded
    by [fuel]; each nested call has turned one more pending promise into a
    resolved one. *)
Fixpoint resolve_fuel (fuel : nat) (p : promise_ref) (v : value) : M pyheap unit :=
  match fuel with
  | O => undef
  | S fuel' =>
    let! pr := deref (fun h => promises h !! p) in
    match state pr with
    | Pending =>
      modify (set_promise p (mkPromise (Resolved v) [])) ;;;
      for_each (fun cb =>
        match cb with
        | on_success list_response arg_promise_tuples =>
          let! tuples := deref (fun h => lists h !! arg_promise_tuples) in
          if list_response then
            match iterate v with
            | Some items =>
              for_each (fun '(item, (_, promise)) => resolve_fuel fuel' promise item)
                       (izip items tuples)
            | None => raise (TypeError "izip argument #1 must support iteration")
            end
          else
            for_each (fun '(_, promise) => resolve_fuel fuel' promise v) tuples
        end) (callbacks pr)
    | _ => raise AlreadySettled
    end
  end.

(** The call stack of a [resolve] holds distinct promises of the store, so
    one more than its size is always enough fuel. *)
Definition resolve (p : promise_ref) (v : value) : M pyheap unit :=
  fun h => resolve_fuel (S (size (promises h))) p v h.

(** [promise.done(on_success)] on a pending promise registers the callback;
    on a resolved one it runs it at once. *)
Definition Promise_done (p : promise_ref) (cb : callback) : M pyheap unit :=
  let! pr := deref (fun h => promises h !! p) in
  match state pr with
  | Pending => modify (set_promise p (mkPromise Pending (callbacks pr ++ [cb])))
  | Resolved v =>
    match cb with
    | on_success list_response arg_promise_tuples =>
      let! tuples := deref (fun h => lists h !! arg_promise_tuples) in
      if list_response then
        match iterate v with
        | Some items =>
          for_each (fun '(item, (_, promise)) => resolve promise item) (izip items tuples)
        | None => raise (TypeError "izip argument #1 must support iteration")
        end
      else for_each (fun '(_, promise) => resolve promise v) tuples
    end
  | Rejected _ => ret tt
  end.

(** ** The coalescer *)

(** A queued command: [(command_name, args, promise)]. *)
Definition command : Type := string * list string * promise_ref.

Definition AUTO_BATCH_COMMANDS : gmap string (string * bool) :=
  <["GET" := ("MGET", true)]> (<["SET" := ("MSET", false)]> ∅).

Definition merge_batch (command_name : string) (arg_promise_tuples : list_ref)
    : M pyheap command :=
  match AUTO_BATCH_COMMANDS !! command_name with
  | None => raise (KeyError command_name)
  | Some (batch_command, list_response) =>
    let! tuples := deref (fun h => lists h !! arg_promise_tuples) in
    match tuples with
    | [(args, promise)] => ret (command_name, args, promise)
    | _ =>
      let! promise := Promise_new in
      Promise_done promise (on_success list_response arg_promise_tuples) ;;;
      ret (batch_command, concat (fst <$> tuples), promise)
    end
  end.

(** The store once [merge_batch] has made the promise of a batch and put
    [on_success] on it. *)
Definition with_batch_promise (list_response : bool) (l : list_ref) (h : pyheap) : pyheap :=
  mkHeap (<[next_promise h := mkPromise Pending [on_success list_response l]]> (promises h))
         (S (next_promise h)) (lists h) (next_list h).

(** [if pending_batch: yield merge_batch( *pending_batch)] *)
Definition flush_pending (pending_batch : option (string * list_ref))
    : M pyheap (list command) :=
  match pending_batch with
  | Some (name, tuples) => let! c := merge_batch name tuples in ret [c]
  | None => ret []
  end.

(** The generator [auto_batch_commands], as the list of what it yields.  Its
    only consumer, the loop of [send_pending_requests], runs it to the end
    and touches neither the promises nor the batch lists meanwhile.

    In the branch of a command that cannot be batched the source flushes the
    pending batch and then has the bare expression [None] (line 60), so
    [pending_batch] keeps its value when the loop goes on. *)
Fixpoint auto_batch_loop (commands : list command)
    (pending_batch : option (string * list_ref)) : M pyheap (list command) :=
  match commands with
  | [] => flush_pending pending_batch
  | (command_name, args, promise) :: rest =>
    match AUTO_BATCH_COMMANDS !! command_name with
    | None =>
      let! flushed := flush_pending pending_batch in
      let! out := auto_batch_loop rest pending_batch in
      ret (flushed ++ (command_name, args, promise) :: out)
    | Some _ =>
      match pending_batch with
      | Some (name, tuples) =>
        if String.eqb name command_name then
          list_append tuples (args, promise) ;;;
          auto_batch_loop rest pending_batch
        else
          let! c := merge_batch name tuples in
          let! tuples' := list_new [(args, promise)] in
          let! out := auto_batch_loop rest (Some (command_name, tuples')) in
          ret (c :: out)
      | None =>
        let! tuples' := list_new [(args, promise)] in
        auto_batch_loop rest (Some (command_name, tuples'))
      end
    end
  end.

Definition auto_batch_commands (commands : list command) : M pyheap (list command) :=
  auto_batch_loop commands None.

(** ** Connections

    The redis-py connection is an external collaborator.  What the network
    and the server do is fixed by two scripts the connection carries: the
    outcomes of its successive writes and of its successive reads. *)

Inductive reply : Type :=
| Reply (v : value)
| Fault (e : exn) (drops_socket : bool).

(** The methods this module calls on a connection, as it calls them. *)
Inductive call : Type :=
| Call_connect
| Call_disconnect
| Call_send (cmds : list (list string))
| Call_read.

Module Connection.
Record t : Type := mk {
  _sock : option Z;                   (* [None] when not connected *)
  retry_on_timeout : bool;
  creating_pool : option Z;           (* target of the [__creating_pool] weakref *)
  writes : list (option (exn * bool));
  sent : list (list (list string));   (* the payloads written, oldest first *)
  reads : list reply;
  log : list call                     (* the calls received, oldest first *)
}.

Definition set_sock (s : option Z) (c : t) : t :=
  mk s (retry_on_timeout c) (creating_pool c) (writes c) (sent c) (reads c) (log c).
Definition set_creating_pool (p : option Z) (c : t) : t :=
  mk (_sock c) (retry_on_timeout c) p (writes c) (sent c) (reads c) (log c).
Definition set_writes (w : list (option (exn * bool))) (c : t) : t :=
  mk (_sock c) (retry_on_timeout c) (creating_pool c) w (sent c) (reads c) (log c).
Definition set_sent (x : list (list (list string))) (c : t) : t :=
  mk (_sock c) (retry_on_timeout c) (creating_pool c) (writes c) x (reads c) (log c).
Definition set_reads (r : list reply) (c : t) : t :=
  mk (_sock c) (retry_on_timeout c) (creating_pool c) (writes c) (sent c) r (log c).
Definition called (x : call) (c : t) : t :=
  mk (_sock c) (retry_on_timeout c) (creating_pool c) (writes c) (sent c) (reads c)
     (log c ++ [x]).

(** A connection a pool has just made. *)
Definition fresh (host : Z) : t := mk None false (Some host) [] [] [] [].

Definition open_socket (c : t) : t :=
  match _sock c with
  | None => set_sock (Some 0%Z) c
  | Some _ => c
  end.

Definition connect : M t unit :=
  modify (called Call_connect) ;;; modify open_socket.

Definition disconnect : M t unit :=
  modify (called Call_disconnect) ;;; modify (set_sock None).

(** The wire codec is external; a payload is kept as the commands it packs. *)
Definition pack_commands (buf : list (list string)) : list (list string) := buf.

Definition drop_if (b : bool) : M t unit :=
  if b then modify (set_sock None) else ret tt.

(** A write opens a socket first when there is none; its outcome is the
    next entry of [writes] (none left: the write goes through). *)
Definition send_packed_command (cmds : list (list string)) : M t unit :=
  modify (called (Call_send cmds)) ;;;
  modify open_socket ;;;
  let! ws := gets writes in
  match ws with
  | Some (e, drops) :: ws' =>
    modify (set_writes ws') ;;; drop_if drops ;;; raise e
  | None :: ws' =>
    modify (set_writes ws') ;;; modify (fun c => set_sent (sent c ++ [cmds]) c)
  | [] => modify (fun c => set_sent (sent c ++ [cmds]) c)
  end.

Definition send_command (args : list string) : M t unit :=
  send_packed_command (pack_commands [args]).

(** A read takes the next entry of [reads]; with none left it blocks. *)
Definition read_response : M t value :=
  modify (called Call_read) ;;;
  let! rs := gets reads in
  match rs with
  | Reply v :: rs' => modify (set_reads rs') ;;; ret v
  | Fault e drops :: rs' => modify (set_reads rs') ;;; drop_if drops ;;; raise e
  | [] => undef
  end.
End Connection.

(** [StrictRedis.parse_response(connection, command_name)]: reads one reply
    from the connection; the reply callbacks chosen by [command_name] are
    part of the script. *)
Definition parse_response (command_name : string) : M Connection.t value :=
  Connection.read_response.

(** ** The command buffer *)

Abbreviation buffer_ref := nat.
Abbreviation poll_ref := nat.

Module CommandBuffer.
Record t : Type := mk {
  host_id : Z;
  connection : option Connection.t;
  commands : list command;
  pending_responses : list (string * promise_ref);
  auto_batch : bool
}.

Definition set_connection (c : option Connection.t) (b : t) : t :=
  mk (host_id b) c (commands b) (pending_responses b) (auto_batch b).
Definition set_commands (cs : list command) (b : t) : t :=
  mk (host_id b) (connection b) cs (pending_responses b) (auto_batch b).
Definition set_pending_responses (ps : list (string * promise_ref)) (b : t) : t :=
  mk (host_id b) (connection b) (commands b) ps (auto_batch b).

(** The property [closed]. *)
Definition closed (b : t) : bool :=
  match connection b with
  | None => true
  | Some c => match Connection._sock c with None => true | Some _ => false end
  end.
End CommandBuffer.

(** ** The world

    [cluster] holds, per host, the idle connections of that host's pool.
    [ready] scripts the poll primitive (which hosts have readable sockets at
    each call) and [clock] the successive readings of [time.time()]. *)
Record world : Type := mkWorld {
  heap : pyheap;
  buffers : gmap nat CommandBuffer.t;
  next_buffer : nat;
  polls : gmap nat (list (Z * buffer_ref));
  next_poll : nat;
  cluster : gmap Z (list Connection.t);
  ready : list (list Z);
  clock : list Q
}.

Definition set_heap (h : pyheap) (w : world) : world :=
  mkWorld h (buffers w) (next_buffer w) (polls w) (next_poll w) (cluster w)
          (ready w) (clock w).
Definition set_buffers (bs : gmap nat CommandBuffer.t) (w : world) : world :=
  mkWorld (heap w) bs (next_buffer w) (polls w) (next_poll w) (cluster w)
          (ready w) (clock w).
Definition set_polls (ps : gmap nat (list (Z * buffer_ref))) (w : world) : world :=
  mkWorld (heap w) (buffers w) (next_buffer w) ps (next_poll w) (cluster w)
          (ready w) (clock w).
Definition set_cluster (cl : gmap Z (list Connection.t)) (w : world) : world :=
  mkWorld (heap w) (buffers w) (next_buffer w) (polls w) (next_poll w) cl
          (ready w) (clock w).
Definition set_ready (r : list (list Z)) (w : world) : world :=
  mkWorld (heap w) (buffers w) (next_buffer w) (polls w) (next_poll w) (cluster w)
          r (clock w).
Definition set_clock (c : list Q) (w : world) : world :=
  mkWorld (heap w) (buffers w) (next_buffer w) (polls w) (next_poll w) (cluster w)
          (ready w) c.

Definition in_heap {A} (m : M pyheap A) : M world A := zoom heap set_heap m.

Definition get_buffer (self : buffer_ref) : M world CommandBuffer.t :=
  deref (fun w => buffers w !! self).

Definition update_buffer (self : buffer_ref) (f : CommandBuffer.t -> CommandBuffer.t)
    : M world unit :=
  let! b := get_buffer self in
  modify (fun w => set_buffers (<[self := f b]> (buffers w)) w).

(** Run a connection method on [self.connection]. *)
Definition on_connection {A} (self : buffer_ref) (m : M Connection.t A) : M world A :=
  let! b := get_buffer self in
  match CommandBuffer.connection b with
  | None => raise (AttributeError "NoneType")
  | Some c =>
    fun w => match m c with
             | Ret a c' =>
               Ret a (set_buffers (<[self := CommandBuffer.set_connection (Some c') b]> (buffers w)) w)
             | Raise e c' =>
               Raise e (set_buffers (<[self := CommandBuffer.set_connection (Some c') b]> (buffers w)) w)
             | Undef => Undef
             end
  end.

Definition assert_open (client : buffer_ref) : M world unit :=
  let! b := get_buffer client in
  if CommandBuffer.closed b then raise (ValueError "I/O operation on closed file")
  else ret tt.

(** [CommandBuffer(host_id, connection, auto_batch)] *)
Definition CommandBuffer_init (host_id : Z) (connection : Connection.t)
    (auto_batch : bool) : M world buffer_ref :=
  fun w =>
    let self := next_buffer w in
    match Connection.connect connection with
    | Ret _ c =>
      Ret self (mkWorld (heap w)
                        (<[self := CommandBuffer.mk host_id (Some c) [] [] auto_batch]> (buffers w))
                        (S self) (polls w) (next_poll w) (cluster w) (ready w) (clock w))
    | Raise e _ => Raise e w
    | Undef => Undef
    end.

Definition enqueue_command (self : buffer_ref) (command_name : string)
    (args : list string) : M world promise_ref :=
  assert_open self ;;;
  let! promise := in_heap Promise_new in
  update_buffer self (fun b =>
    CommandBuffer.set_commands (CommandBuffer.commands b ++ [(command_name, args, promise)]) b) ;;;
  ret promise.

(** [(command_name,) + tuple(args)]: a command as it goes into the payload. *)
Definition wire (c : command) : list string :=
  let '(command_name, args, _) := c in command_name :: args.

(** [(command_name, promise)]: a command as it waits for its reply. *)
Definition awaited (c : command) : string * promise_ref :=
  let '(command_name, _, promise) := c in (command_name, promise).

Definition send_pending_requests (self : buffer_ref) : M world unit :=
  assert_open self ;;;
  let! b := get_buffer self in
  let unsent_commands := CommandBuffer.commands b in
  match unsent_commands with
  | [] => ret tt
  | _ =>
    update_buffer self (CommandBuffer.set_commands []) ;;;
    let! unsent_commands :=
      (if CommandBuffer.auto_batch b then in_heap (auto_batch_commands unsent_commands)
       else ret unsent_commands) in
    for_each (fun '(command_name, args, promise) =>
      update_buffer self (fun b =>
        CommandBuffer.set_pending_responses
          (CommandBuffer.pending_responses b ++ [(command_name, promise)]) b))
      unsent_commands ;;;
    let buf := wire <$> unsent_commands in
    let cmds := Connection.pack_commands buf in
    on_connection self (Connection.send_packed_command cmds)
  end.

(** The [for] loop of [wait_for_responses]. *)
Definition drain (self : buffer_ref) (pending : list (string * promise_ref))
    : M world unit :=
  for_each (fun '(command_name, promise) =>
    let! value := on_connection self (parse_response command_name) in
    in_heap (resolve promise value)) pending.

Definition wait_for_responses (self : buffer_ref) : M world unit :=
  assert_open self ;;;
  let! b := get_buffer self in
  let pending := CommandBuffer.pending_responses b in
  update_buffer self (CommandBuffer.set_pending_responses []) ;;;
  drain self pending.

(** ** The routing pool *)

(** [real_pool.get_connection]: the pool hands out its most recently
    released idle connection, or makes one. *)
Definition pool_get_connection (host : Z) (idle : list Connection.t)
    : Connection.t * list Connection.t :=
  match reverse idle with
  | c :: rest => (c, reverse rest)
  | [] => (Connection.fresh host, [])
  end.

Module RoutingPool.
Definition get_connection (command_name : string) (shard_hint : option Z)
    : M world Connection.t :=
  match shard_hint with
  | None => raise (RuntimeError "The routing pool requires the host id as shard hint")
  | Some host_id =>
    let! cl := gets cluster in
    match cl !! host_id with
    | None => raise (KeyError "host")
    | Some idle =>
      let '(con, idle') := pool_get_connection host_id idle in
      modify (set_cluster (<[host_id := idle']> cl)) ;;;
      ret (Connection.set_creating_pool (Some host_id) con)
    end
  end.

(** The real pool is found through the weak reference; when it is gone
    nothing is released. *)
Definition release (connection : Connection.t) : M world unit :=
  let! cl := gets cluster in
  match Connection.creating_pool connection with
  | None => ret tt
  | Some host_id =>
    match cl !! host_id with
    | None => ret tt
    | Some idle => modify (set_cluster (<[host_id := idle ++ [connection]]> cl))
    end
  end.
End RoutingPool.

(** ** The poll registry *)

(** Modelled from the spec: [rb.poll.poll] is not part of the source tree.
    The registry is an ordered mapping from host id to command buffer with
    [register], [unregister], [get], [len], iteration in insertion order and
    a readiness call [poll(timeout)] that returns the registered buffers
    whose sockets are readable. *)
Module Poll.
Abbreviation registry := (list (Z * buffer_ref)).

Fixpoint get (key : Z) (r : registry) : option buffer_ref :=
  match r with
  | [] => None
  | (k, b) :: r' => if Z.eqb k key then Some b else get key r'
  end.

Fixpoint register (key : Z) (f : buffer_ref) (r : registry) : registry :=
  match r with
  | [] => [(key, f)]
  | (k, b) :: r' => if Z.eqb k key then (key, f) :: r' else (k, b) :: register key f r'
  end.

Definition unregister (key : Z) (r : registry) : registry :=
  List.filter (fun kb => negb (Z.eqb (fst kb) key)) r.

Definition readable (hosts : list Z) (r : registry) : list buffer_ref :=
  snd <$> List.filter (fun kb => existsb (Z.eqb (fst kb)) hosts) r.
End Poll.

Definition get_poll (p : poll_ref) : M world Poll.registry :=
  deref (fun w => polls w !! p).

Definition update_poll (p : poll_ref) (f : Poll.registry -> Poll.registry) : M world unit :=
  let! r := get_poll p in
  modify (fun w => set_polls (<[p := f r]> (polls w)) w).

(** [poll()] *)
Definition poll_new : M world poll_ref :=
  fun w => let p := next_poll w in
           Ret p (mkWorld (heap w) (buffers w) (next_buffer w) (<[p := []]> (polls w))
                          (S p) (cluster w) (ready w) (clock w)).

(** [p.poll(timeout)]: the next entry of [ready] names the hosts whose
    sockets are readable.  With none left nothing becomes readable any more:
    a bounded wait times out, an unbounded one blocks. *)
Definition poll_poll (p : poll_ref) (timeout : option Q) : M world (list buffer_ref) :=
  let! r := get_poll p in
  let! script := gets ready in
  match script with
  | hosts :: rest => modify (set_ready rest) ;;; ret (Poll.readable hosts r)
  | [] => match timeout with Some _ => ret [] | None => undef end
  end.

(** [time.time()] *)
Definition time_time : M world Q :=
  let! c := gets clock in
  match c with
  | t :: rest => modify (set_clock rest) ;;; ret t
  | [] => undef
  end.

(** ** The mapping client *)

Module MappingClient.
(** [connection_pool] is the routing pool of the one cluster of the world. *)
Record t : Type := mk {
  auto_batch : bool;
  _max_concurrency : option Z;        (* [None] is the default of [__init__] *)
  _command_buffer_poll : poll_ref
}.
End MappingClient.

(** [MappingClient(connection_pool, max_concurrency, auto_batch)] *)
Definition MappingClient_init (max_concurrency : option Z) (auto_batch : bool)
    : M world MappingClient.t :=
  let! p := poll_new in
  ret (MappingClient.mk auto_batch max_concurrency p).

(** [len(poll) >= max_concurrency]; in Python 2 every int is [>= None]. *)
Definition at_capacity (len : nat) (max_concurrency : option Z) : bool :=
  match max_concurrency with
  | None => true
  | Some m => (m <=? Z.of_nat len)%Z
  end.

Definition _release_command_buffer (self : MappingClient.t)
    (command_buffer : buffer_ref) : M world unit :=
  let! b := get_buffer command_buffer in
  if CommandBuffer.closed b then ret tt
  else
    update_poll (MappingClient._command_buffer_poll self)
                (Poll.unregister (CommandBuffer.host_id b)) ;;;
    match CommandBuffer.connection b with
    | Some c => RoutingPool.release c
    | None => ret tt
    end ;;;
    update_buffer command_buffer (CommandBuffer.set_connection None).

Definition _try_to_clear_outstanding_requests (self : MappingClient.t)
    (timeout : Q) : M world unit :=
  let! r := get_poll (MappingClient._command_buffer_poll self) in
  match r with
  | [] => ret tt
  | _ =>
    for_each send_pending_requests (snd <$> r) ;;;
    let! rv := poll_poll (MappingClient._command_buffer_poll self) (Some timeout) in
    for_each (fun command_buffer =>
      wait_for_responses command_buffer ;;;
      _release_command_buffer self command_buffer) rv
  end.

(** [while len(self._command_buffer_poll) >= self._max_concurrency:
       self._try_to_clear_outstanding_requests()] *)
Fixpoint clear_while_at_capacity (fuel : nat) (self : MappingClient.t) : M world unit :=
  let! r := get_poll (MappingClient._command_buffer_poll self) in
  if at_capacity (length r) (MappingClient._max_concurrency self) then
    match fuel with
    | O => undef
    | S fuel' =>
      _try_to_clear_outstanding_requests self 1 ;;;
      clear_while_at_capacity fuel' self
    end
  else ret tt.

Definition _get_command_buffer (fuel : nat) (self : MappingClient.t) (host_id : Z)
    (command_name : string) : M world buffer_ref :=
  let! r := get_poll (MappingClient._command_buffer_poll self) in
  match Poll.get host_id r with
  | Some buf => ret buf
  | None =>
    clear_while_at_capacity fuel self ;;;
    let! connection := RoutingPool.get_connection command_name (Some host_id) in
    let! buf := CommandBuffer_init host_id connection (MappingClient.auto_batch self) in
    update_poll (MappingClient._command_buffer_poll self) (Poll.register host_id buf) ;;;
    ret buf
  end.

(** The router is external: a function from the command to a host id, or
    the error it raises. *)
Definition router_t : Type := string -> list string -> exn + Z.

Definition get_host_for_command (router : router_t) (command_name : string)
    (args : list string) : M world Z :=
  match router command_name args with
  | inr host_id => ret host_id
  | inl e => raise e
  end.

Definition execute_command (fuel : nat) (router : router_t) (self : MappingClient.t)
    (args : list string) : M world promise_ref :=
  match args with
  | [] => raise (IndexError "tuple index out of range")
  | command_name :: command_args =>
    let! host_id := get_host_for_command router command_name command_args in
    let! buf := _get_command_buffer fuel self host_id command_name in
    enqueue_command buf command_name command_args
  end.

Definition positive_time (remaining : option Q) : bool :=
  match remaining with
  | None => true
  | Some r => negb (Qle_bool r 0)
  end.

Fixpoint join_loop (fuel : nat) (self : MappingClient.t) (remaining : option Q)
    : M world unit :=
  let! r := get_poll (MappingClient._command_buffer_poll self) in
  match r with
  | [] => ret tt
  | _ =>
    if positive_time remaining then
      match fuel with
      | O => undef
      | S fuel' =>
        let! now := time_time in
        let! rv := poll_poll (MappingClient._command_buffer_poll self) remaining in
        let! remaining :=
          match remaining with
          | None => ret None
          | Some rem => let! t := time_time in ret (Some (rem - (t - now))%Q)
          end in
        for_each (fun command_buffer =>
          wait_for_responses command_buffer ;;;
          _release_command_buffer self command_buffer) rv ;;;
        join_loop fuel' self remaining
      end
    else ret tt
  end.

Definition join (fuel : nat) (self : MappingClient.t) (timeout : option Q) : M world unit :=
  let! r := get_poll (MappingClient._command_buffer_poll self) in
  for_each send_pending_requests (snd <$> r) ;;;
  join_loop fuel self timeout.

Definition cancel (self : MappingClient.t) : M world unit :=
  let! r := get_poll (MappingClient._command_buffer_poll self) in
  for_each (_release_command_buffer self) (snd <$> r).

(** ** The fanout client *)

Inductive hosts_t : Type :=
| HostsNone
| HostsAll
| Hosts (ids : list Z).

Module FanoutClient.
Record t : Type := mk {
  base : MappingClient.t;
  _target_hosts : hosts_t;
  __is_retargeted : bool
}.
End FanoutClient.

(** The default of the parameter [auto_batch] of [FanoutClient.__init__]. *)
Definition FanoutClient_default_auto_batch : bool := true.

(** [FanoutClient(hosts, connection_pool, max_concurrency, auto_batch)] *)
Definition FanoutClient_init (hosts : hosts_t) (max_concurrency : option Z)
    (auto_batch : bool) : M world FanoutClient.t :=
  let! b := MappingClient_init max_concurrency auto_batch in
  ret (FanoutClient.mk b hosts false).

(** [target] builds the alias without passing [auto_batch], then points it
    at the registry of [self]. *)
Definition target (self : FanoutClient.t) (hosts : hosts_t) : M world FanoutClient.t :=
  if FanoutClient.__is_retargeted self then
    raise (TypeError "Cannot use target more than once.")
  else
    let! rv := FanoutClient_init hosts
                 (MappingClient._max_concurrency (FanoutClient.base self))
                 FanoutClient_default_auto_batch in
    let rv := FanoutClient.mk
                (MappingClient.mk
                   (MappingClient.auto_batch (FanoutClient.base rv))
                   (MappingClient._max_concurrency (FanoutClient.base rv))
                   (MappingClient._command_buffer_poll (FanoutClient.base self)))
                (FanoutClient._target_hosts rv) (FanoutClient.__is_retargeted rv) in
    let rv := FanoutClient.mk (FanoutClient.base rv) hosts (FanoutClient.__is_retargeted rv) in
    let rv := FanoutClient.mk (FanoutClient.base rv) (FanoutClient._target_hosts rv) true in
    ret rv.

(** ** The routing client *)

Definition is_ConnectionError (e : exn) : bool :=
  match e with ConnectionError _ => true | _ => false end.
Definition is_TimeoutError (e : exn) : bool :=
  match e with TimeoutError _ => true | _ => false end.

(** One send and parse: the body of the [try] and the retry. *)
Definition send_and_parse (args : list string) (command_name : string)
    : M Connection.t value :=
  Connection.send_command args ;;; parse_response command_name.

(** The [try ... except (ConnectionError, TimeoutError) as e] statement of
    [RoutingClient.execute_command], on the connection it holds. *)
Definition execute_on_connection (args : list string) (command_name : string)
    : M Connection.t value :=
  try_except (send_and_parse args command_name)
    (fun e => is_ConnectionError e || is_TimeoutError e)
    (fun e =>
       Connection.disconnect ;;;
       let! retry := gets Connection.retry_on_timeout in
       if negb retry && is_TimeoutError e then raise e
       else send_and_parse args command_name).

(** A statement that holds a connection in a local variable runs on the
    world together with that connection. *)
Definition on_local {A} (m : M Connection.t A) : M (world * Connection.t) A :=
  zoom snd (fun c s => (fst s, c)) m.
Definition on_world {A} (m : M world A) : M (world * Connection.t) A :=
  zoom fst (fun w s => (w, snd s)) m.

Definition with_local {A} (connection : Connection.t) (m : M (world * Connection.t) A)
    : M world A :=
  fun w => match m (w, connection) with
           | Ret a s => Ret a (fst s)
           | Raise e s => Raise e (fst s)
           | Undef => Undef
           end.

Definition RoutingClient_execute_command (router : router_t) (args : list string)
    : M world value :=
  match args with
  | [] => raise (IndexError "tuple index out of range")
  | command_name :: command_args =>
    let! host_id := get_host_for_command router command_name command_args in
    let! connection := RoutingPool.get_connection command_name (Some host_id) in
    with_local connection
      (try_finally
         (on_local (execute_on_connection args command_name))
         (let! c := gets snd in on_world (RoutingPool.release c)))
  end.

(** ** The map manager *)

(** An attribute of a [MapManager] object. *)
Inductive attribute : Type :=
| AClient (c : MappingClient.t)
| ATime (t : option Q).

Module MapManager.
(** The object is its attribute dictionary: reading an attribute that was
    never set raises [AttributeError]. *)
Abbreviation t := (gmap string attribute).
End MapManager.

Definition getattr (self : MapManager.t) (name : string) : M world attribute :=
  match self !! name with
  | Some a => ret a
  | None => raise (AttributeError name)
  end.

(** [MapManager(mapping_client, timeout)] *)
Definition MapManager_init (mapping_client : MappingClient.t) (timeout : option Q)
    : MapManager.t :=
  <["entered" := ATime None]>
    (<["timeout" := ATime timeout]>
       (<["mapping_client" := AClient mapping_client]> ∅)).

Definition MapManager_enter (self : MapManager.t) : M world (MapManager.t * MappingClient.t) :=
  let! now := time_time in
  let self := <["entered" := ATime (Some now)]> self in
  let! c := getattr self "mapping_client" in
  match c with
  | AClient c => ret (self, c)
  | ATime _ => raise (TypeError "mapping_client")
  end.

(** [max(1, x)] *)
Definition max1 (x : Q) : Q := if Qle_bool x 1 then 1%Q else x.

Definition MapManager_exit (fuel : nat) (self : MapManager.t) (exc_type : option exn)
    : M world unit :=
  match exc_type with
  | Some _ =>
    let! c := getattr self "mapping_client" in
    match c with
    | AClient c => cancel c
    | ATime _ => raise (AttributeError "cancel")
    end
  | None =>
    let! timeout := getattr self "timeout" in
    let! timeout :=
      match timeout with
      | ATime (Some timeout) =>
        let! now := time_time in
        let! started := getattr self "started" in
        match started with
        | ATime (Some started) => ret (Some (max1 (timeout - (now - started))%Q))
        | _ => raise (TypeError "unsupported operand type(s) for -")
        end
      | ATime None => ret None
      | AClient _ => raise (TypeError "unsupported operand type(s) for -")
      end in
    let! c := getattr self "mapping_client" in
    match c with
    | AClient c => join fuel c timeout
    | ATime _ => raise (AttributeError "join")
    end
  end.

(** ** A server, and one buffer run against it *)

(** Modelled from the spec: the server is not part of the source tree.  It
    is a key-value store that answers [MGET] and [MSET] as the per-element
    equivalents of [GET] and [SET]. *)
Definition redis_db : Type := gmap string string.

Definition redis_get (db : redis_db) (k : string) : value :=
  match db !! k with
  | Some v => VBulk v
  | None => VNone
  end.

Fixpoint redis_mset (kvs : list string) (db : redis_db) : option redis_db :=
  match kvs with
  | [] => Some db
  | k :: v :: rest => redis_mset rest (<[k := v]> db)
  | _ => None
  end.

Definition redis_error : reply := Fault (ResponseError "ERR") false.

Definition redis_incr (db : redis_db) (k : string) : reply * redis_db :=
  let old := match db !! k with Some v => v | None => "0" end in
  match NilZero.int_of_string old with
  | Some n =>
    let z := (Z.of_int n + 1)%Z in
    (Reply (VInt z), <[k := NilZero.string_of_int (Z.to_int z)]> db)
  | None => (redis_error, db)
  end.

Definition redis_exec (cmd : list string) (db : redis_db) : reply * redis_db :=
  match cmd with
  | [] => (redis_error, db)
  | name :: args =>
    if String.eqb name "GET" then
      match args with
      | [k] => (Reply (redis_get db k), db)
      | _ => (redis_error, db)
      end
    else if String.eqb name "SET" then
      match args with
      | [k; v] => (Reply (VBool true), <[k := v]> db)
      | _ => (redis_error, db)
      end
    else if String.eqb name "MGET" then
      match args with
      | [] => (redis_error, db)
      | _ => (Reply (VList (redis_get db <$> args)), db)
      end
    else if String.eqb name "MSET" then
      match args, redis_mset args db with
      | _ :: _, Some db' => (Reply (VBool true), db')
      | _, _ => (redis_error, db)
      end
    else if String.eqb name "INCR" then
      match args with
      | [k] => redis_incr db k
      | _ => (redis_error, db)
      end
    else (redis_error, db)
  end.

Fixpoint redis_serve (cmds : list (list string)) (db : redis_db) : list reply :=
  match cmds with
  | [] => []
  | cmd :: rest => let '(r, db') := redis_exec cmd db in r :: redis_serve rest db'
  end.

(** The server reads every payload written to the connection and its
    replies become the outcomes of the reads. *)
Definition answered (db : redis_db) (c : Connection.t) : Connection.t :=
  Connection.set_reads (redis_serve (concat (Connection.sent c)) db) c.

Definition answer_buffer (db : redis_db) (b : CommandBuffer.t) : CommandBuffer.t :=
  CommandBuffer.set_connection (answered db <$> CommandBuffer.connection b) b.

Definition empty_heap : pyheap := mkHeap ∅ 0 ∅ 0.
Definition empty_world : world := mkWorld empty_heap ∅ 0 ∅ 0 ∅ [] [].

(** One command buffer from creation to drain: the commands are enqueued,
    flushed in one payload, answered by the server and drained. *)
Definition pipeline (auto_batch : bool) (input : list (list string)) (db : redis_db)
    : outcome world unit :=
  (let! buf := CommandBuffer_init 0 (Connection.fresh 0) auto_batch in
   for_each (fun cmd =>
     match cmd with
     | [] => raise (IndexError "tuple index out of range")
     | command_name :: args => enqueue_command buf command_name args ;;; ret tt
     end) input ;;;
   send_pending_requests buf ;;;
   update_buffer buf (answer_buffer db) ;;;
   wait_for_responses buf) empty_world.

Definition final_state {A} (o : outcome world A) : option world :=
  match o with
  | Ret _ w => Some w
  | Raise _ w => Some w
  | Undef => None
  end.

Definition promise_state (h : pyheap) (p : promise_ref) : option pstate :=
  state <$> promises h !! p.

(** The bindings of the promises of the [n] enqueued commands (the first
    [n] promises made), [None] for a promise that did not resolve. *)
Definition bindings (n : nat) (o : outcome world unit) : list (promise_ref * option value) :=
  match final_state o with
  | Some w =>
    (fun p => (p, match promise_state (heap w) p with
                  | Some (Resolved v) => Some v
                  | _ => None
                  end)) <$> seq 0 n
  | None => []
  end.

Definition raised {S A} (o : outcome S A) : option exn :=
  match o with Raise e _ => Some e | _ => None end.

Definition yields {S A} (o : outcome S A) : option A :=
  match o with Ret a _ => Some a | _ => None end.

(** ** Sessions: what a caller may do with a mapping client *)

Inductive op : Type :=
| Op_execute (args : list string)
| Op_join (timeout : option Q)
| Op_cancel.

Definition run_op (fuel : nat) (router : router_t) (self : MappingClient.t) (o : op)
    : M world unit :=
  match o with
  | Op_execute args => execute_command fuel router self args ;;; ret tt
  | Op_join timeout => join fuel self timeout
  | Op_cancel => cancel self
  end.

(** A caller may catch what an operation raises and go on; a run ends when
    an operation gives no result. *)
Fixpoint run_ops (fuel : nat) (router : router_t) (self : MappingClient.t)
    (ops : list op) (w : world) : option world :=
  match ops with
  | [] => Some w
  | o :: rest =>
    match final_state (run_op fuel router self o w) with
    | Some w' => run_ops fuel router self rest w'
    | None => None
    end
  end.

(** The registry of a client, and its size. *)
Definition registry_of (self : MappingClient.t) (w : world) : Poll.registry :=
  default [] (polls w !! MappingClient._command_buffer_poll self).

(** ** Sample data *)

Definition db0 : redis_db := <["a" := "1"]> (<["b" := "2"]> ∅).

(** [GET a, INCR a, GET b] *)
Definition interleaved : list (list string) :=
  [["GET"; "a"]; ["INCR"; "a"]; ["GET"; "b"]].

(** ** Notions used to state the properties *)

(** [preserves R m]: whenever [m] returns or raises, the state it leaves is
    related by [R] to the state it started in. *)
Definition preserves {S A} (R : S -> S -> Prop) (m : M S A) : Prop :=
  forall s, match m s with
            | Ret _ s' => R s s'
            | Raise _ s' => R s s'
            | Undef => True
            end.

Definition reflexive_on {S} (R : S -> S -> Prop) : Prop := forall s, R s s.
Definition transitive_on {S} (R : S -> S -> Prop) : Prop :=
  forall s1 s2 s3, R s1 s2 -> R s2 s3 -> R s1 s3.

(** The fields of a connection that its methods never assign. *)
Definition same_identity (c c' : Connection.t) : Prop :=
  Connection.creating_pool c' = Connection.creating_pool c
  /\ Connection.retry_on_timeout c' = Connection.retry_on_timeout c.

(** A connection after [disconnect()]. *)
Definition disconnected (c : Connection.t) : Connection.t :=
  Connection.set_sock None (Connection.called Call_disconnect c).

(** The batch a run of the coalescer is holding names a coalescible
    command and a list of the store. *)
Definition batch_ok (pending_batch : option (string * list_ref)) (h : pyheap) : Prop :=
  match pending_batch with
  | Some (name, l) => is_Some (AUTO_BATCH_COMMANDS !! name) /\ is_Some (lists h !! l)
  | None => True
  end.

(** A buffer whose connection has no socket, with nothing queued, alone in
    a world. *)
Definition closed_buffer : CommandBuffer.t :=
  CommandBuffer.mk 0 (Some (Connection.fresh 0)) [] [] true.

Definition closed_world : world :=
  mkWorld empty_heap (<[0 := closed_buffer]> ∅) 1 ∅ 0 ∅ [] [].

(** A promise as [enqueue_command] makes it: pending, no callback. *)
Definition fresh_promise : Promise := mkPromise Pending [].

(** Whether a promise of the store is resolved. *)
Definition is_resolved (h : pyheap) (p : promise_ref) : bool :=
  match promise_state h p with
  | Some (Resolved _) => true
  | _ => false
  end.

(** [raises_only P m]: every exception [m] raises satisfies [P]. *)
Definition raises_only {S A} (P : exn -> Prop) (m : M S A) : Prop :=
  forall s e s', m s = Raise e s' -> P e.

(** The errors of a read: connection, timeout and reply errors. *)
Definition read_error (e : exn) : bool :=
  match e with
  | ConnectionError _ | TimeoutError _ | ResponseError _ => true
  | _ => false
  end.

(** No promise is rejected in [h'] that was not already rejected in [h]. *)
Definition no_new_rejection (h h' : pyheap) : Prop :=
  forall p x, promise_state h' p = Some (Rejected x) ->
              promise_state h p = Some (Rejected x).

Definition not_read_error (e : exn) : Prop := read_error e = false.

Definition heap_no_new_rejection (w w' : world) : Prop :=
  no_new_rejection (heap w) (heap w').

(** The buffer [self] has the same entries waiting for a reply. *)
Definition same_pending (self : buffer_ref) (w w' : world) : Prop :=
  CommandBuffer.pending_responses <$> buffers w' !! self
  = CommandBuffer.pending_responses <$> buffers w !! self.

(** A buffer with two replies to read, on a connection whose next read
    fails and drops the socket. *)
Definition draining_connection : Connection.t :=
  Connection.mk (Some 0%Z) false (Some 0%Z) [] [[["GET"; "a"]; ["GET"; "b"]]]
                [Fault (ConnectionError "Connection reset by peer") true] [].

Definition draining_buffer : CommandBuffer.t :=
  CommandBuffer.mk 0 (Some draining_connection) [] [("GET", 0); ("GET", 1)] false.

Definition draining_world : world :=
  mkWorld (mkHeap (<[1 := fresh_promise]> (<[0 := fresh_promise]> ∅)) 2 ∅ 0)
          (<[0 := draining_buffer]> ∅) 1 ∅ 0 ∅ [] [].

(** The state of a promise where a call left the world. *)
Definition promise_after {A} (o : outcome world A) (p : promise_ref) : option pstate :=
  match final_state o with
  | Some w => promise_state (heap w) p
  | None => None
  end.

(** The registries are the same. *)
Definition same_polls (w w' : world) : Prop := polls w' = polls w.

(** The registry [p] has lost entries at most. *)
Definition registry_shrinks (p : poll_ref) (w w' : world) : Prop :=
  forall r, polls w !! p = Some r ->
  exists r', polls w' !! p = Some r' /\ length r' <= length r.

(** The registry of the client holds at most [m] buffers. *)
Definition capped (self : MappingClient.t) (m : Z) (w : world) : Prop :=
  exists r, polls w !! MappingClient._command_buffer_poll self = Some r
            /\ (Z.of_nat (length r) <= m)%Z.

(** The world a call left. *)
Definition world_after {A} (o : outcome world A) : world :=
  default empty_world (final_state o).

(** A client with a cap of one buffer, on the first registry. *)
Definition sample_client : MappingClient.t := MappingClient.mk true (Some 1%Z) 0.

(** An open buffer for host 0, registered, with an empty pool behind it. *)
Definition open_connection : Connection.t :=
  Connection.mk (Some 0%Z) false (Some 0%Z) [] [] [] [Call_connect].

Definition open_buffer : CommandBuffer.t :=
  CommandBuffer.mk 0 (Some open_connection) [] [] true.

Definition open_world : world :=
  mkWorld empty_heap (<[0 := open_buffer]> ∅) 1 (<[0 := [(0%Z, 0)]]> ∅) 1
          (<[0%Z := []]> ∅) [] [].

(** The key [a] lives on host 0, every other key on host 1. *)
Definition sample_router : router_t :=
  fun _ args =>
    match args with
    | k :: _ => if String.eqb k "a" then inr 0%Z else inr 1%Z
    | [] => inl (KeyError "no key")
    end.

(** A connection whose first read times out and whose second one answers. *)
Definition flaky_connection : Connection.t :=
  Connection.mk None true None [] []
                [Fault (TimeoutError "Timeout reading from socket") true;
                 Reply (VBulk "1")] [].

Definition flaky_world : world :=
  mkWorld empty_heap ∅ 0 ∅ 0 (<[0%Z := [flaky_connection]]> ∅) [] [].

(** An open buffer with two reads queued. *)
Definition queued_buffer : CommandBuffer.t :=
  CommandBuffer.mk 0 (Some open_connection) [("GET", ["a"], 0); ("GET", ["b"], 1)] [] true.

Definition two_promises : pyheap :=
  mkHeap (<[1 := fresh_promise]> (<[0 := fresh_promise]> ∅)) 2 ∅ 0.

Definition queued_world : world :=
  mkWorld two_promises (<[0 := queued_buffer]> ∅) 1 ∅ 0 ∅ [] [].

(** A store with a group of two promises in the list 0. *)
Definition group_heap : pyheap :=
  mkHeap (<[1 := fresh_promise]> (<[0 := fresh_promise]> ∅)) 2
         (<[0 := [(["a"], 0); (["b"], 1)]]> ∅) 1.

(** A cluster of two hosts; the pool of host 0 holds a connection whose
    first read answers, and host 0 is readable at the first poll. *)
Definition answering_connection : Connection.t :=
  Connection.mk None false None [] [] [Reply (VBulk "1")] [].

Definition session_start : world :=
  mkWorld empty_heap ∅ 0 ∅ 0
          (<[1%Z := []]> (<[0%Z := [answering_connection]]> ∅)) [[0%Z]] [].

Definition session_made : world :=
  world_after (MappingClient_init (Some 1%Z) true session_start).

Definition session_before : world :=
  default empty_world
    (run_ops 3 sample_router sample_client [Op_execute ["GET"; "a"]] session_made).

Definition session_after : world :=
  world_after (execute_command 3 sample_router sample_client ["GET"; "b"] session_before).

Definition drained_world : world :=
  world_after (wait_for_responses 0 draining_world).

(** ** The factories of the routing client *)

Module RoutingClient.
Record t : Type := mk { auto_batch : bool }.
End RoutingClient.

(** [if auto_batch is None: auto_batch = self.auto_batch] *)
Definition inherit_auto_batch (self : RoutingClient.t) (auto_batch : option bool) : bool :=
  match auto_batch with
  | None => RoutingClient.auto_batch self
  | Some b => b
  end.

Definition get_mapping_client (self : RoutingClient.t) (max_concurrency : option Z)
    (auto_batch : option bool) : M world MappingClient.t :=
  MappingClient_init max_concurrency (inherit_auto_batch self auto_batch).

Definition get_fanout_client (self : RoutingClient.t) (hosts : hosts_t)
    (max_concurrency : option Z) (auto_batch : option bool) : M world FanoutClient.t :=
  FanoutClient_init hosts max_concurrency (inherit_auto_batch self auto_batch).

(** [RoutingClient.map(timeout, max_concurrency, auto_batch)] *)
Definition RoutingClient_map (self : RoutingClient.t) (timeout : option Q)
    (max_concurrency : option Z) (auto_batch : option bool) : M world MapManager.t :=
  let! c := get_mapping_client self max_concurrency auto_batch in
  ret (MapManager_init c timeout).

(** ** The command of the fanout client *)

(** Modelled from the spec: [Promise.all] is not part of the source tree.
    The promise it returns is represented by the mapping from host id to
    promise that it combines, in the order of the mapping. *)
Definition Promise_all (promises : list (Z * promise_ref))
    : M world (list (Z * promise_ref)) :=
  ret promises.

(** [promises[host_id] = promise] *)
Fixpoint dict_set (key : Z) (v : promise_ref) (d : list (Z * promise_ref))
    : list (Z * promise_ref) :=
  match d with
  | [] => [(key, v)]
  | (k, x) :: d' => if Z.eqb k key then (key, v) :: d' else (k, x) :: dict_set key v d'
  end.

(** [for host_id in hosts: ...] of [FanoutClient.execute_command]; [args[0]]
    is read in the body. *)
Fixpoint fanout_loop (fuel : nat) (self : FanoutClient.t) (args : list string)
    (hosts : list Z) (promises : list (Z * promise_ref))
    : M world (list (Z * promise_ref)) :=
  match hosts with
  | [] => ret promises
  | host_id :: rest =>
    match args with
    | [] => raise (IndexError "tuple index out of range")
    | command_name :: command_args =>
      let! buf := _get_command_buffer fuel (FanoutClient.base self) host_id command_name in
      let! promise := enqueue_command buf command_name command_args in
      fanout_loop fuel self args rest (dict_set host_id promise promises)
    end
  end.

(** Modelled from the spec: the cluster class is not part of the source
    tree.  [cluster.hosts.keys()] lists the ids of the hosts of the cluster;
    the hosts are numbered from 0, and CPython 2 lists the keys of a dict of
    such integers in ascending order. *)
Definition cluster_hosts_keys (w : world) : list Z :=
  merge_sort Z.le (fst <$> map_to_list (cluster w)).

(** [FanoutClient.execute_command] *)
Definition FanoutClient_execute_command (fuel : nat) (self : FanoutClient.t)
    (args : list string) : M world (list (Z * promise_ref)) :=
  let! hosts :=
    match FanoutClient._target_hosts self with
    | HostsAll => gets cluster_hosts_keys
    | HostsNone => raise (RuntimeError "Fanout client was not targeted to hosts.")
    | Hosts ids => ret ids
    end in
  let! promises := fanout_loop fuel self args hosts [] in
  Promise_all promises.

(** ** More notions used to state the properties *)

(** The promises made before are as they were. *)
Definition keeps_promises (h h' : pyheap) : Prop :=
  next_promise h <= next_promise h'
  /\ forall q, q < next_promise h -> promises h' !! q = promises h !! q.

(** The promises and the scripts of the poll and of the clock are the same. *)
Definition nothing_drained (w w' : world) : Prop :=
  heap w' = heap w /\ ready w' = ready w /\ clock w' = clock w.

(** No exception at all. *)
Definition never (e : exn) : Prop := False.

(** The entry [(host, buffer)] names an open buffer of the world for that
    host. *)
Definition registered_open (w : world) (kb : Z * buffer_ref) : Prop :=
  exists b, buffers w !! snd kb = Some b
            /\ CommandBuffer.host_id b = fst kb
            /\ CommandBuffer.closed b = false.

(** The host has a registered buffer of the world, and it is open. *)
Definition has_open_buffer (r : Poll.registry) (w : world) (host : Z) : Prop :=
  exists buf b, Poll.get host r = Some buf
                /\ buffers w !! buf = Some b
                /\ CommandBuffer.closed b = false.

(** A call that starts under the cap ends under it. *)
Definition keeps_cap (self : MappingClient.t) (m : Z) (w w' : world) : Prop :=
  capped self m w -> capped self m w'.

(** ** More sample data *)

(** A buffer waiting for two replies, on a connection that holds three. *)
Definition replying_connection : Connection.t :=
  Connection.mk (Some 0%Z) false (Some 0%Z) [] [[["GET"; "a"]; ["GET"; "b"]]]
                [Reply (VBulk "1"); Reply (VBulk "2"); Reply (VBulk "3")] [].

Definition replying_buffer : CommandBuffer.t :=
  CommandBuffer.mk 0 (Some replying_connection) [] [("GET", 0); ("GET", 1)] false.

Definition replying_world : world :=
  mkWorld two_promises (<[0 := replying_buffer]> ∅) 1 ∅ 0 ∅ [] [].

(** A buffer waiting for two replies, on a connection whose first read
    answers and whose second read times out and drops the socket; the same
    after the first entry was drained, and the connection after the second
    read. *)
Definition faulting_connection : Connection.t :=
  Connection.mk (Some 0%Z) false (Some 0%Z) [] [[["GET"; "a"]; ["GET"; "b"]]]
                [Reply (VBulk "1"); Fault (TimeoutError "Timeout reading from socket") true]
                [].

Definition faulting_buffer : CommandBuffer.t :=
  CommandBuffer.mk 0 (Some faulting_connection) [] [("GET", 0); ("GET", 1)] false.

Definition faulting_world : world :=
  mkWorld two_promises (<[0 := faulting_buffer]> ∅) 1 ∅ 0 ∅ [] [].

Definition faulting_read_connection : Connection.t :=
  Connection.set_reads [Fault (TimeoutError "Timeout reading from socket") true]
    (Connection.called Call_read faulting_connection).

Definition faulting_half_buffer : CommandBuffer.t :=
  CommandBuffer.mk 0 (Some faulting_read_connection) [] [] false.

Definition faulting_half_world : world :=
  mkWorld (set_promise 0 (mkPromise (Resolved (VBulk "1")) []) two_promises)
          (<[0 := faulting_half_buffer]> ∅) 1 ∅ 0 ∅ [] [].

Definition faulting_dropped_connection : Connection.t :=
  Connection.set_sock None
    (Connection.set_reads [] (Connection.called Call_read faulting_read_connection)).

(** A buffer whose connection has no socket, with one command queued. *)
Definition closed_queued_buffer : CommandBuffer.t :=
  CommandBuffer.mk 0 (Some (Connection.fresh 0)) [("GET", ["a"], 0)] [] true.

Definition closed_queued_world : world :=
  mkWorld (mkHeap (<[0 := fresh_promise]> ∅) 1 ∅ 0) (<[0 := closed_queued_buffer]> ∅) 1
          ∅ 0 ∅ [] [].

(** The store a computation on the store left. *)
Definition heap_after {A} (o : outcome pyheap A) : pyheap :=
  match o with
  | Ret _ h => h
  | Raise _ h => h
  | Undef => empty_heap
  end.

(** [GET a, INCR a, GET b] as [enqueue_command] queues them on a new buffer;
    the store after the coalescer ran on them, after the replies to [GET a]
    and [INCR a] resolved their promises, and after the promise of the
    emitted [MGET] was resolved with the reply to it. *)
Definition three_promises : pyheap :=
  mkHeap (<[2 := fresh_promise]> (<[1 := fresh_promise]> (<[0 := fresh_promise]> ∅))) 3 ∅ 0.

Definition interleaved_queue : list command :=
  [("GET", ["a"], 0); ("INCR", ["a"], 1); ("GET", ["b"], 2)].

Definition coalesced_heap : pyheap :=
  heap_after (auto_batch_commands interleaved_queue three_promises).

Definition answered_heap : pyheap :=
  heap_after ((resolve 0 (VBulk "1") ;;; resolve 1 (VInt 2)) coalesced_heap).

Definition scattered_heap : pyheap :=
  heap_after (resolve 3 (VList [VBulk "1"; VBulk "2"]) answered_heap).

(** A store with a group of two [SET]s in the list 0. *)
Definition set_group_heap : pyheap :=
  mkHeap (<[1 := fresh_promise]> (<[0 := fresh_promise]> ∅)) 2
         (<[0 := [(["a"; "1"], 0); (["b"; "2"], 1)]]> ∅) 1.

(** A client made without [max_concurrency], on the first registry. *)
Definition uncapped_client : MappingClient.t := MappingClient.mk true None 0.

(** A registered buffer whose connection has no socket. *)
Definition stale_world : world :=
  mkWorld empty_heap (<[0 := closed_buffer]> ∅) 1 (<[0 := [(0%Z, 0)]]> ∅) 1
          (<[0%Z := []]> ∅) [] [].

(** The session after [GET a] with one reading left on the clock, and that
    session joined without a timeout. *)
Definition session_timed : world := set_clock [0%Q] session_before.

Definition session_joined : world :=
  world_after (join 2 sample_client None session_timed).

(** Two hosts, each registered with an open buffer, and a fanout client
    targeted to both. *)
Definition second_buffer : CommandBuffer.t :=
  CommandBuffer.mk 1
    (Some (Connection.mk (Some 0%Z) false (Some 1%Z) [] [] [] [Call_connect])) [] [] true.

Definition fanout_world : world :=
  mkWorld empty_heap (<[1 := second_buffer]> (<[0 := open_buffer]> ∅)) 2
          (<[0 := [(0%Z, 0); (1%Z, 1)]]> ∅) 1
          (<[1%Z := []]> (<[0%Z := []]> ∅)) [] [].

Definition sample_fanout : FanoutClient.t :=
  FanoutClient.mk (MappingClient.mk true (Some 2%Z) 0) (Hosts [0%Z; 1%Z]) false.

(** The same client targeted to every host, and without a target. *)
Definition broadcast_fanout : FanoutClient.t :=
  FanoutClient.mk (MappingClient.mk true (Some 2%Z) 0) HostsAll false.

Definition untargeted_fanout : FanoutClient.t :=
  FanoutClient.mk (MappingClient.mk true (Some 2%Z) 0) HostsNone false.

(* ================================================================== *)
(** * Properties *)

(** ** Running the monad *)

Lemma bind_unfold {S A B} (m : M S A) (k : A -> M S B) s :
  bind m k s = match m s with
               | Ret a s' => k a s'
               | Raise e s' => Raise e s'
               | Undef => Undef
               end.
Proof. reflexivity. Qed.

Lemma bind_Ret {S A B} (m : M S A) (k : A -> M S B) s a s' :
  m s = Ret a s' -> bind m k s = k a s'.
Proof. intros H. unfold bind. now rewrite H. Qed.

Lemma bind_Raise {S A B} (m : M S A) (k : A -> M S B) s e s' :
  m s = Raise e s' -> bind m k s = Raise e s'.
Proof. intros H. unfold bind. now rewrite H. Qed.

Lemma bind_Undef {S A B} (m : M S A) (k : A -> M S B) s :
  m s = Undef -> bind m k s = Undef.
Proof. intros H. unfold bind. now rewrite H. Qed.

Section Preserves.
Context {S : Type} (R : S -> S -> Prop).
Context (R_refl : reflexive_on R) (R_trans : transitive_on R).

Lemma preserves_ret {A} (a : A) : preserves R (ret a).
Proof. intros s. apply R_refl. Qed.

Lemma preserves_raise {A} e : preserves R (@raise S A e).
Proof. intros s. apply R_refl. Qed.

Lemma preserves_gets {A} (f : S -> A) : preserves R (gets f).
Proof. intros s. apply R_refl. Qed.

Lemma preserves_deref {A} (f : S -> option A) : preserves R (deref f).
Proof. intros s. unfold deref. destruct (f s); [apply R_refl|exact I]. Qed.

Lemma preserves_bind {A B} (m : M S A) (k : A -> M S B) :
  preserves R m -> (forall a, preserves R (k a)) -> preserves R (bind m k).
Proof.
  intros Hm Hk s. unfold bind. specialize (Hm s).
  destruct (m s) as [a s'| |]; [|exact Hm|exact I].
  specialize (Hk a s'). destruct (k a s'); eauto.
Qed.

Lemma preserves_for_each {A} (body : A -> M S unit) xs :
  (forall x, preserves R (body x)) -> preserves R (for_each body xs).
Proof.
  intros Hb. induction xs as [|x xs IH]; cbn [for_each].
  - apply preserves_ret.
  - apply preserves_bind; [apply Hb|intros _; exact IH].
Qed.

Lemma preserves_try_except {A} (body : M S A) handled handler :
  preserves R body -> (forall e, preserves R (handler e)) ->
  preserves R (try_except body handled handler).
Proof.
  intros Hm Hk s. unfold try_except. specialize (Hm s).
  destruct (body s) as [a s'|e s'|]; [exact Hm| |exact I].
  destruct (handled e); [|exact Hm].
  specialize (Hk e s'). destruct (handler e s'); eauto.
Qed.
End Preserves.

Lemma preserves_undef {S A} (R : S -> S -> Prop) : preserves R (@undef S A).
Proof. intros s. exact I. Qed.

Lemma preserves_modify {S} (R : S -> S -> Prop) (f : S -> S) :
  (forall s, R s (f s)) -> preserves R (modify f).
Proof. intros H s. apply H. Qed.

(** Putting a computation on a component under a relation on the whole. *)
Lemma preserves_zoom {S T A} (R : S -> S -> Prop) (proj : S -> T) (upd : T -> S -> S)
    (m : M T A) :
  (forall s t, R s (upd t s)) -> preserves R (zoom proj upd m).
Proof. intros H s. unfold zoom. destruct (m (proj s)); auto. Qed.

(** One structural step of a proof of [preserves R _], for a reflexive and
    transitive [R]. *)
Ltac preserves_step refl trans :=
  lazymatch goal with
  | |- preserves _ (bind _ _) => apply (preserves_bind _ trans); [|intros ?]
  | |- preserves _ (ret _) => apply (preserves_ret _ refl)
  | |- preserves _ (raise _) => apply (preserves_raise _ refl)
  | |- preserves _ undef => apply preserves_undef
  | |- preserves _ (gets _) => apply (preserves_gets _ refl)
  | |- preserves _ (deref _) => apply (preserves_deref _ refl)
  | |- preserves _ (for_each _ _) => apply (preserves_for_each _ refl trans); intros ?
  | |- preserves _ (try_except _ _ _) => apply (preserves_try_except _ trans); [|intros ?]
  | |- preserves _ (modify _) => apply preserves_modify; intros ?
  | |- preserves _ (match ?x with _ => _ end) => destruct x
  end.

(** ** The coalescing table *)

Lemma AUTO_BATCH_GET : AUTO_BATCH_COMMANDS !! "GET" = Some ("MGET", true).
Proof. reflexivity. Qed.

Lemma AUTO_BATCH_SET : AUTO_BATCH_COMMANDS !! "SET" = Some ("MSET", false).
Proof. reflexivity. Qed.

Lemma AUTO_BATCH_INCR : AUTO_BATCH_COMMANDS !! "INCR" = None.
Proof. reflexivity. Qed.

(** ** Running the coalescer *)

Lemma deref_Some {S A} (f : S -> option A) s a :
  f s = Some a -> deref f s = Ret a s.
Proof. intros H. unfold deref. now rewrite H. Qed.

Lemma Promise_done_pending p cb h pr :
  promises h !! p = Some pr ->
  state pr = Pending ->
  Promise_done p cb h = Ret tt (set_promise p (mkPromise Pending (callbacks pr ++ [cb])) h).
Proof.
  intros Hp Hs. unfold Promise_done.
  erewrite bind_Ret; [|apply deref_Some; exact Hp]. now rewrite Hs.
Qed.

Lemma merge_batch_one name batch h l args p :
  AUTO_BATCH_COMMANDS !! name = Some batch ->
  lists h !! l = Some [(args, p)] ->
  merge_batch name l h = Ret (name, args, p) h.
Proof.
  intros Hn Hl. unfold merge_batch. rewrite Hn. destruct batch as [bc lr].
  unfold bind, deref. rewrite Hl. reflexivity.
Qed.

Lemma merge_batch_many name bc lr h l tuples :
  AUTO_BATCH_COMMANDS !! name = Some (bc, lr) ->
  lists h !! l = Some tuples ->
  length tuples <> 1 ->
  merge_batch name l h
  = Ret (bc, concat (fst <$> tuples), next_promise h) (with_batch_promise lr l h).
Proof.
  intros Hn Hl Hlen. unfold merge_batch. rewrite Hn.
  unfold bind at 1. unfold deref at 1. rewrite Hl.
  assert (Hgo : forall h0, (let! promise := Promise_new in
      Promise_done promise (on_success lr l);;; ret (bc, concat tuples.*1, promise)) h0
      = Ret (bc, concat tuples.*1, next_promise h0) (with_batch_promise lr l h0)).
  { intros h0. rewrite bind_unfold. unfold Promise_new at 1.
    erewrite bind_Ret.
    2:{ apply Promise_done_pending with (pr := mkPromise Pending []); [|reflexivity].
        apply lookup_insert_eq. }
    unfold ret, set_promise, with_batch_promise. cbn [promises next_promise lists next_list callbacks app].
    now rewrite insert_insert_eq. }
  destruct tuples as [|[a p] [|t2 ts]]; try apply Hgo. cbn in Hlen. congruence.
Qed.

Lemma list_append_run l x xs h :
  lists h !! l = Some xs ->
  list_append l x h = Ret tt (set_list l (xs ++ [x]) h).
Proof. intros H. unfold list_append, bind, deref, modify. now rewrite H. Qed.

(** ** C2: the coalescer and a command it cannot batch *)

(** C2 (the code departs from the claim).  For every store and every three
    promises, the coalescer turns [GET a, INCR a, GET b] into
    [GET a; INCR a; MGET a b]: the batch flushed before [INCR] is not
    cleared, so [GET b] joins it and the triple of [GET a] is emitted a
    second time inside the [MGET], whose promise is a new one with a
    callback on the list that holds both triples.  The claim says the
    stream is [GET a; INCR a; GET b]. *)
Theorem auto_batch_commands_keeps_flushed_batch (h : pyheap) (p1 p2 p3 : promise_ref) :
  exists h',
    auto_batch_commands
      [("GET", ["a"], p1); ("INCR", ["a"], p2); ("GET", ["b"], p3)] h
    = Ret [("GET", ["a"], p1); ("INCR", ["a"], p2);
           ("MGET", ["a"; "b"], next_promise h)] h'
    /\ promises h' !! next_promise h
       = Some (mkPromise Pending [on_success true (next_list h)])
    /\ lists h' !! next_list h = Some [(["a"], p1); (["b"], p3)].
Proof.
  unfold auto_batch_commands. cbn [auto_batch_loop].
  rewrite AUTO_BATCH_GET, AUTO_BATCH_INCR.
  rewrite bind_unfold. unfold list_new at 1.
  set (h1 := mkHeap _ _ _ _).
  assert (H1 : lists h1 !! next_list h = Some [(["a"], p1)]) by apply lookup_insert_eq.
  unfold flush_pending.
  rewrite (bind_Ret _ _ h1 [("GET", ["a"], p1)] h1).
  2:{ rewrite (bind_Ret _ _ _ _ _ (merge_batch_one _ _ _ _ _ _ AUTO_BATCH_GET H1)). reflexivity. }
  rewrite bind_unfold. cbn [String.eqb Ascii.eqb Bool.eqb].
  rewrite (bind_Ret _ _ _ _ _ (list_append_run _ _ _ _ H1)).
  set (h2 := set_list _ _ h1).
  assert (H2 : lists h2 !! next_list h = Some [(["a"], p1); (["b"], p3)]) by apply lookup_insert_eq.
  rewrite (bind_Ret _ _ _ _ _ (merge_batch_many _ _ _ _ _ _ AUTO_BATCH_GET H2 ltac:(cbn; lia))).
  exists (with_batch_promise true (next_list h) h2).
  split; [reflexivity|]. split; [apply lookup_insert_eq|exact H2].
Qed.

(** ** C1: one buffer, with and without coalescing *)

(** C1 (the code departs from the claim).  On [GET a, INCR a, GET b]
    against a server that holds [a = 1] and [b = 2], the run without
    coalescing binds the three promises to ["1"], [2] and ["2"].  The run
    with coalescing binds the first two, then the reply to the [MGET a b]
    it emitted resolves the promise of [GET a] a second time: the drain
    raises and the promise of [GET b] is never resolved. *)
Theorem pipeline_auto_batch_changes_bindings :
  bindings 3 (pipeline false interleaved db0)
  = [(0, Some (VBulk "1")); (1, Some (VInt 2)); (2, Some (VBulk "2"))]
  /\ raised (pipeline false interleaved db0) = None
  /\ bindings 3 (pipeline true interleaved db0)
     = [(0, Some (VBulk "1")); (1, Some (VInt 2)); (2, None)]
  /\ raised (pipeline true interleaved db0)
     = Some AlreadySettled.
Proof. vm_compute. repeat split. Qed.

(** ** C3: leaving the scope of a map manager *)

(** C3 (the code departs from the claim).  A manager that was entered and
    has a timeout reads the clock on normal exit and then fails on the
    attribute [started], which nothing ever sets: [join] is not invoked.
    Without a timeout the exit is [join] with no bound, as claimed. *)
Theorem MapManager_exit_reads_started (fuel : nat) (c : MappingClient.t)
    (timeout entered : Q) (w : world) :
  MapManager_exit fuel
    (<["entered" := ATime (Some entered)]> (MapManager_init c (Some timeout))) None w
  = match clock w with
    | now :: rest => Raise (AttributeError "started") (set_clock rest w)
    | [] => Undef
    end
  /\ MapManager_exit fuel
       (<["entered" := ATime (Some entered)]> (MapManager_init c None)) None w
     = join fuel c None w.
Proof.
  split.
  - unfold MapManager_exit, MapManager_init, getattr.
    rewrite lookup_insert_ne by done. rewrite lookup_insert_ne by done.
    rewrite lookup_insert_eq.
    rewrite (bind_Ret _ _ w (ATime (Some timeout)) w) by reflexivity.
    rewrite bind_unfold. rewrite bind_unfold. unfold time_time.
    rewrite bind_unfold. unfold gets.
    destruct (clock w) as [|now rest]; [reflexivity|].
    rewrite bind_unfold. unfold modify, ret.
    rewrite bind_unfold.
    rewrite !lookup_insert_ne by done. rewrite lookup_empty. reflexivity.
  - unfold MapManager_exit, MapManager_init, getattr.
    rewrite lookup_insert_ne by done. rewrite lookup_insert_ne by done.
    rewrite lookup_insert_eq.
    rewrite (bind_Ret _ _ w (ATime None) w) by reflexivity.
    rewrite (bind_Ret _ _ w None w) by reflexivity.
    rewrite lookup_insert_ne by done. rewrite lookup_insert_ne by done.
    rewrite lookup_insert_ne by done. rewrite lookup_insert_eq.
    rewrite (bind_Ret _ _ w (AClient c) w) by reflexivity.
    reflexivity.
Qed.

(** ** C8: the alias made by [target] *)

(** C8.  For every fanout client, [target hosts] either raises (exactly
    when the client is itself an alias) or returns an alias on the registry
    and with the concurrency cap of the parent, whose [auto_batch] flag is
    [True] whatever the flag of the parent is. *)
Theorem target_alias_auto_batch (self : FanoutClient.t) (hosts : hosts_t) (w : world) :
  match target self hosts w with
  | Ret rv _ =>
    MappingClient.auto_batch (FanoutClient.base rv) = true
    /\ MappingClient._command_buffer_poll (FanoutClient.base rv)
       = MappingClient._command_buffer_poll (FanoutClient.base self)
    /\ MappingClient._max_concurrency (FanoutClient.base rv)
       = MappingClient._max_concurrency (FanoutClient.base self)
    /\ FanoutClient._target_hosts rv = hosts
    /\ FanoutClient.__is_retargeted self = false
  | Raise _ _ => FanoutClient.__is_retargeted self = true
  | Undef => False
  end.
Proof.
  unfold target. destruct (FanoutClient.__is_retargeted self); [reflexivity|].
  cbn. repeat split.
Qed.

(** ** C9: releasing a command buffer *)


Lemma Poll_unregister_length key r : length (Poll.unregister key r) <= length r.
Proof. unfold Poll.unregister. apply List.filter_length_le. Qed.

Lemma RoutingPool_release_run c w :
  exists cl, RoutingPool.release c w = Ret tt (set_cluster cl w).
Proof.
  unfold RoutingPool.release. rewrite bind_unfold. unfold gets.
  destruct (Connection.creating_pool c) as [host|].
  - destruct (cluster w !! host) as [idle|]; [eexists; reflexivity|].
    exists (cluster w). destruct w; reflexivity.
  - exists (cluster w). destruct w; reflexivity.
Qed.

Lemma release_closed self cb w b :
  buffers w !! cb = Some b ->
  CommandBuffer.closed b = true ->
  _release_command_buffer self cb w = Ret tt w.
Proof.
  intros Hb Hc. unfold _release_command_buffer.
  erewrite bind_Ret; [|apply deref_Some; exact Hb]. now rewrite Hc.
Qed.

Lemma release_open self cb w b r :
  buffers w !! cb = Some b ->
  polls w !! MappingClient._command_buffer_poll self = Some r ->
  CommandBuffer.closed b = false ->
  exists cl,
    _release_command_buffer self cb w
    = Ret tt (set_buffers (<[cb := CommandBuffer.set_connection None b]> (buffers w))
               (set_cluster cl
                 (set_polls (<[MappingClient._command_buffer_poll self :=
                                 Poll.unregister (CommandBuffer.host_id b) r]> (polls w)) w))).
Proof.
  intros Hb Hp Hc. unfold _release_command_buffer.
  erewrite bind_Ret; [|apply deref_Some; exact Hb]. rewrite Hc.
  unfold update_poll.
  erewrite bind_Ret.
  2:{ erewrite bind_Ret; [|apply deref_Some; exact Hp]. reflexivity. }
  set (w1 := set_polls _ w).
  assert (Hrel : exists cl, match CommandBuffer.connection b with
                            | Some c => RoutingPool.release c
                            | None => ret tt
                            end w1 = Ret tt (set_cluster cl w1)).
  { destruct (CommandBuffer.connection b) as [c|].
    - apply RoutingPool_release_run.
    - exists (cluster w1). destruct w; reflexivity. }
  destruct Hrel as [cl Hrel]. exists cl.
  erewrite bind_Ret; [|exact Hrel].
  unfold update_buffer.
  erewrite bind_Ret; [|apply deref_Some; exact Hb]. reflexivity.
Qed.


(** ** C6: the synchronous routed call *)

Lemma same_identity_refl c : same_identity c c.
Proof. split; reflexivity. Qed.

Lemma same_identity_trans c1 c2 c3 :
  same_identity c1 c2 -> same_identity c2 c3 -> same_identity c1 c3.
Proof. intros [? ?] [? ?]. split; congruence. Qed.

Ltac identity_step := preserves_step same_identity_refl same_identity_trans.

Lemma open_socket_identity c : same_identity c (Connection.open_socket c).
Proof. unfold Connection.open_socket. destruct (Connection._sock c); split; reflexivity. Qed.

Ltac identity_auto :=
  repeat identity_step; try (split; reflexivity).

Lemma drop_if_identity b : preserves same_identity (Connection.drop_if b).
Proof. unfold Connection.drop_if. identity_auto. Qed.

Lemma send_packed_command_identity cmds :
  preserves same_identity (Connection.send_packed_command cmds).
Proof.
  unfold Connection.send_packed_command.
  identity_auto; first [apply open_socket_identity | apply drop_if_identity].
Qed.

Lemma read_response_identity : preserves same_identity Connection.read_response.
Proof. unfold Connection.read_response. identity_auto; apply drop_if_identity. Qed.

Lemma send_and_parse_identity args name :
  preserves same_identity (send_and_parse args name).
Proof.
  unfold send_and_parse. identity_step.
  - apply send_packed_command_identity.
  - apply read_response_identity.
Qed.

Lemma execute_on_connection_identity args name :
  preserves same_identity (execute_on_connection args name).
Proof.
  unfold execute_on_connection, Connection.disconnect.
  identity_auto; apply send_and_parse_identity.
Qed.

Lemma send_and_parse_log args name c :
  match send_and_parse args name c with
  | Ret _ c' => Connection.log c' = Connection.log c ++ [Call_send [args]; Call_read]
  | Raise _ c' =>
    Connection.log c' = Connection.log c ++ [Call_send [args]]
    \/ Connection.log c' = Connection.log c ++ [Call_send [args]; Call_read]
  | Undef => True
  end.
Proof.
  unfold send_and_parse, Connection.send_command, Connection.send_packed_command,
    Connection.pack_commands, parse_response, Connection.read_response.
  unfold bind, modify, gets, ret, raise, undef.
  cbn [Connection.writes Connection.called Connection.open_socket].
  destruct c as [sk rt cp ws st rs lg]. cbn.
  assert (Hlog : forall a b : call, (lg ++ [a]) ++ [b] = lg ++ [a; b]).
  { intros a b. now rewrite <- app_assoc. }
  destruct sk; cbn; destruct ws as [|[[e [|]]|] ws]; cbn; auto;
    destruct rs as [|[v|e' [|]] rs]; cbn; auto.
Qed.

(** C6.  When the router names a host with a pool: the call is the
    [try] statement run on the connection [c0] taken from that pool, and in
    every outcome the connection ends at the back of the idle list of its
    pool.  On the connection: a first send-and-parse that returns is the
    result; one that raises a connection or timeout error is followed by a
    disconnect and then, when the error is a timeout and [retry_on_timeout]
    is off, by the same error, otherwise by exactly one more send-and-parse
    whose outcome is final; any other error goes through.  A
    send-and-parse is one send and at most one read. *)
Theorem RoutingClient_execute_command_retries_once (router : router_t)
    (command_name : string) (command_args : list string) (host : Z)
    (idle : list Connection.t) (w : world) :
  router command_name command_args = inr host ->
  cluster w !! host = Some idle ->
  let args := command_name :: command_args in
  let c0 := Connection.set_creating_pool (Some host) (fst (pool_get_connection host idle)) in
  let idle' := snd (pool_get_connection host idle) in
  let released c' := set_cluster (<[host := idle' ++ [c']]> (cluster w)) w in
  RoutingClient_execute_command router args w
  = match execute_on_connection args command_name c0 with
    | Ret v c' => Ret v (released c')
    | Raise e c' => Raise e (released c')
    | Undef => Undef
    end
  /\ match send_and_parse args command_name c0 with
     | Ret v c1 => execute_on_connection args command_name c0 = Ret v c1
     | Raise e c1 =>
       if is_ConnectionError e || is_TimeoutError e then
         if negb (Connection.retry_on_timeout c0) && is_TimeoutError e
         then execute_on_connection args command_name c0 = Raise e (disconnected c1)
         else execute_on_connection args command_name c0
              = send_and_parse args command_name (disconnected c1)
       else execute_on_connection args command_name c0 = Raise e c1
     | Undef => execute_on_connection args command_name c0 = Undef
     end
  /\ (forall c,
        match send_and_parse args command_name c with
        | Ret _ c' => Connection.log c' = Connection.log c ++ [Call_send [args]; Call_read]
        | Raise _ c' =>
          Connection.log c' = Connection.log c ++ [Call_send [args]]
          \/ Connection.log c' = Connection.log c ++ [Call_send [args]; Call_read]
        | Undef => True
        end).
Proof.
  intros Hroute Hidle args c0 idle' released. split; [|split].
  - unfold RoutingClient_execute_command. subst args. cbv beta iota.
    unfold get_host_for_command. rewrite Hroute.
    set (args := command_name :: command_args).
    rewrite (bind_Ret _ _ w host w) by reflexivity.
    unfold RoutingPool.get_connection.
    rewrite bind_unfold.
    rewrite (bind_Ret _ _ w (cluster w) w) by reflexivity.
    rewrite Hidle.
    destruct (pool_get_connection host idle) as [con idl] eqn:Hget.
    subst c0 idle' released. cbn [fst snd].
    rewrite bind_unfold. unfold modify at 1. unfold ret at 1.
    unfold with_local, try_finally, on_local, on_world, zoom. cbn [fst snd].
    pose proof (execute_on_connection_identity args command_name
                  (Connection.set_creating_pool (Some host) con)) as Hid.
    destruct (execute_on_connection args command_name
                (Connection.set_creating_pool (Some host) con)) as [v c'|e c'|];
      [| |reflexivity].
    + destruct Hid as [Hcp _]. cbn in Hcp.
      unfold bind, gets. cbn [fst snd]. unfold RoutingPool.release.
      unfold bind, gets. rewrite Hcp. cbn [cluster set_cluster].
      rewrite lookup_insert_eq. unfold modify, ret. cbn [fst snd set_cluster cluster].
      rewrite insert_insert_eq. destruct w; reflexivity.
    + destruct Hid as [Hcp _]. cbn in Hcp.
      unfold bind, gets. cbn [fst snd]. unfold RoutingPool.release.
      unfold bind, gets. rewrite Hcp. cbn [cluster set_cluster].
      rewrite lookup_insert_eq. unfold modify, raise. cbn [fst snd set_cluster cluster].
      rewrite insert_insert_eq. destruct w; reflexivity.
  - unfold execute_on_connection at 1 2 3 4 5. unfold try_except.
    pose proof (send_and_parse_identity args command_name c0) as Hid.
    destruct (send_and_parse args command_name c0) as [v c1|e c1|];
      [reflexivity| |reflexivity].
    destruct Hid as [_ Hrt].
    destruct (is_ConnectionError e || is_TimeoutError e); [|reflexivity].
    unfold Connection.disconnect, bind, modify, gets.
    cbn [Connection.retry_on_timeout Connection.set_sock Connection.called].
    rewrite Hrt.
    destruct (negb (Connection.retry_on_timeout c0) && is_TimeoutError e); reflexivity.
  - intros c. apply send_and_parse_log.
Qed.

(** ** C7: flushing a command buffer *)

(** [merge_batch] returns, and leaves the lists as they are. *)
Lemma merge_batch_total name batch l tuples h :
  AUTO_BATCH_COMMANDS !! name = Some batch ->
  lists h !! l = Some tuples ->
  exists c h', merge_batch name l h = Ret c h' /\ lists h' = lists h.
Proof.
  intros Hn Hl. destruct batch as [bc lr].
  destruct (decide (length tuples = 1)) as [Hlen|Hlen].
  - destruct tuples as [|[a p] [|? ?]]; try discriminate.
    eexists _, h. split; [|reflexivity]. eapply merge_batch_one; eassumption.
  - eexists _, _. split; [eapply merge_batch_many; eassumption|reflexivity].
Qed.

Lemma flush_pending_total pb h :
  batch_ok pb h ->
  exists cs h', flush_pending pb h = Ret cs h' /\ lists h' = lists h.
Proof.
  intros Hok. destruct pb as [[name l]|]; cbn.
  - destruct Hok as [[batch Hn] [tuples Hl]].
    destruct (merge_batch_total _ _ _ _ _ Hn Hl) as (c & h' & Hrun & Hlists).
    exists [c], h'. split; [|exact Hlists].
    erewrite bind_Ret; [|exact Hrun]. reflexivity.
  - exists [], h. split; reflexivity.
Qed.

Lemma auto_batch_loop_total commands :
  forall pb h, batch_ok pb h ->
  exists effective h', auto_batch_loop commands pb h = Ret effective h'.
Proof.
  induction commands as [|[[name args] p] rest IH]; intros pb h Hok; cbn [auto_batch_loop].
  - destruct (flush_pending_total _ _ Hok) as (cs & h' & Hrun & _). eauto.
  - destruct (AUTO_BATCH_COMMANDS !! name) as [batch|] eqn:Hn.
    + destruct pb as [[name0 l]|].
      * destruct Hok as [Hn0 [tuples Hl]].
        destruct (String.eqb name0 name).
        -- erewrite bind_Ret; [|apply list_append_run; exact Hl].
           apply IH. split; [exact Hn0|].
           unfold set_list. cbn [lists]. rewrite lookup_insert_eq. eauto.
        -- destruct Hn0 as [batch0 Hn0].
           destruct (merge_batch_total _ _ _ _ _ Hn0 Hl) as (c & h1 & Hrun & Hlists).
           erewrite bind_Ret; [|exact Hrun].
           rewrite bind_unfold. unfold list_new at 1.
           edestruct (IH (Some (name, next_list h1))) as (eff & h' & Hrec).
           2:{ erewrite bind_Ret; [|exact Hrec]. eexists _, _. reflexivity. }
           split; [eauto|]. cbn [lists]. rewrite lookup_insert_eq. eauto.
      * rewrite bind_unfold. unfold list_new at 1.
        apply IH. split; [eauto|]. cbn [lists]. rewrite lookup_insert_eq. eauto.
    + destruct (flush_pending_total _ _ Hok) as (cs & h1 & Hrun & Hlists).
      erewrite bind_Ret; [|exact Hrun].
      edestruct (IH pb h1) as (eff & h' & Hrec).
      2:{ erewrite bind_Ret; [|exact Hrec]. eexists _, _. reflexivity. }
      destruct pb as [[name0 l]|]; [|exact I].
      destruct Hok as [Hn0 Hl]. split; [exact Hn0|]. now rewrite Hlists.
Qed.

Lemma auto_batch_commands_total commands h :
  exists effective h', auto_batch_commands commands h = Ret effective h'.
Proof. apply auto_batch_loop_total. exact I. Qed.

Lemma set_buffers_id w : set_buffers (buffers w) w = w.
Proof. destruct w; reflexivity. Qed.

Lemma update_buffer_run self f w b :
  buffers w !! self = Some b ->
  update_buffer self f w = Ret tt (set_buffers (<[self := f b]> (buffers w)) w).
Proof.
  intros Hb. unfold update_buffer, get_buffer.
  erewrite bind_Ret; [|apply deref_Some; exact Hb]. reflexivity.
Qed.

Lemma assert_open_run self w b :
  buffers w !! self = Some b ->
  assert_open self w
  = if CommandBuffer.closed b then Raise (ValueError "I/O operation on closed file") w
    else Ret tt w.
Proof.
  intros Hb. unfold assert_open, get_buffer.
  erewrite bind_Ret; [|apply deref_Some; exact Hb].
  destruct (CommandBuffer.closed b); reflexivity.
Qed.

Lemma append_pending_run self effective :
  forall w b,
  buffers w !! self = Some b ->
  for_each (fun '(command_name, args, promise) =>
      update_buffer self (fun b =>
        CommandBuffer.set_pending_responses
          (CommandBuffer.pending_responses b ++ [(command_name, promise)]) b))
    effective w
  = Ret tt (set_buffers
              (<[self := CommandBuffer.set_pending_responses
                           (CommandBuffer.pending_responses b ++ (awaited <$> effective)) b]>
                 (buffers w)) w).
Proof.
  induction effective as [|[[name args] p] rest IH]; intros w b Hb; cbn [for_each fmap list_fmap].
  - rewrite app_nil_r.
    replace (CommandBuffer.set_pending_responses (CommandBuffer.pending_responses b) b)
      with b by (destruct b; reflexivity).
    rewrite insert_id by exact Hb. now rewrite set_buffers_id.
  - erewrite bind_Ret; [|apply update_buffer_run; exact Hb].
    erewrite IH; [|apply lookup_insert_eq].
    cbn [buffers set_buffers]. rewrite insert_insert_eq.
    destruct b, w; cbn. rewrite <- app_assoc. reflexivity.
Qed.

Lemma send_packed_command_sent cmds c c' :
  Connection.send_packed_command cmds c = Ret tt c' ->
  Connection.sent c' = Connection.sent c ++ [cmds].
Proof.
  unfold Connection.send_packed_command, bind, modify, gets, raise.
  destruct c as [sk rt cp ws st rs lg]. cbn.
  destruct sk; cbn; destruct ws as [|[[e [|]]|] ws]; cbn; intros H; inversion H; reflexivity.
Qed.

(** C7, as the code has it.  On every closed buffer the flush raises
    [ValueError] and changes nothing, whatever is queued.  On an open
    buffer: with nothing queued the flush changes nothing; otherwise the
    effective commands are the queue, coalesced when [auto_batch] is set,
    they go to the connection as one payload in one write, [commands] is
    left empty and [pending_responses] grows by one [(name, promise)] pair
    per effective command, in payload order, whether the write returns or
    raises; a write that returns has added the payload to what the
    connection sent. *)
Theorem send_pending_requests_guarded (self : buffer_ref) (w : world)
    (b : CommandBuffer.t) :
  buffers w !! self = Some b ->
  (CommandBuffer.closed b = true ->
   send_pending_requests self w = Raise (ValueError "I/O operation on closed file") w)
  /\ (CommandBuffer.closed b = false ->
      (CommandBuffer.commands b = [] -> send_pending_requests self w = Ret tt w)
      /\ (CommandBuffer.commands b <> [] ->
          exists effective h' c,
            (if CommandBuffer.auto_batch b
             then auto_batch_commands (CommandBuffer.commands b) (heap w)
             else Ret (CommandBuffer.commands b) (heap w)) = Ret effective h'
            /\ CommandBuffer.connection b = Some c
            /\ let payload := Connection.pack_commands (wire <$> effective) in
               let flushed c' :=
                 set_buffers
                   (<[self := CommandBuffer.mk (CommandBuffer.host_id b) (Some c') []
                                (CommandBuffer.pending_responses b
                                 ++ (awaited <$> effective))
                                (CommandBuffer.auto_batch b)]> (buffers w))
                   (set_heap h' w) in
               send_pending_requests self w
               = match Connection.send_packed_command payload c with
                 | Ret _ c' => Ret tt (flushed c')
                 | Raise e c' => Raise e (flushed c')
                 | Undef => Undef
                 end
               /\ (forall c', Connection.send_packed_command payload c = Ret tt c' ->
                     Connection.sent c' = Connection.sent c ++ [payload]))).
Proof.
  intros Hb. split.
  { intros Hclosed. unfold send_pending_requests.
    erewrite bind_Raise; [reflexivity|].
    rewrite (assert_open_run _ _ _ Hb), Hclosed. reflexivity. }
  intros Hopen. split.
  - intros Hempty. unfold send_pending_requests.
    erewrite bind_Ret; [|rewrite (assert_open_run _ _ _ Hb), Hopen; reflexivity].
    unfold get_buffer. erewrite bind_Ret; [|apply deref_Some; exact Hb].
    now rewrite Hempty.
  - intros Hne.
    assert (Hconn : exists c, CommandBuffer.connection b = Some c).
    { unfold CommandBuffer.closed in Hopen.
      destruct (CommandBuffer.connection b); [eauto|discriminate]. }
    destruct Hconn as [c Hconn].
    assert (Heff : exists effective h',
      (if CommandBuffer.auto_batch b
       then auto_batch_commands (CommandBuffer.commands b) (heap w)
       else Ret (CommandBuffer.commands b) (heap w)) = Ret effective h').
    { destruct (CommandBuffer.auto_batch b); [apply auto_batch_commands_total|eauto]. }
    destruct Heff as (effective & h' & Heff).
    exists effective, h', c. split; [exact Heff|]. split; [exact Hconn|].
    intros payload flushed. split; [|apply send_packed_command_sent].
    unfold send_pending_requests.
    erewrite bind_Ret; [|rewrite (assert_open_run _ _ _ Hb), Hopen; reflexivity].
    unfold get_buffer. erewrite bind_Ret; [|apply deref_Some; exact Hb].
    destruct (CommandBuffer.commands b) as [|c1 cs] eqn:Hcmds; [congruence|].
    erewrite bind_Ret; [|apply update_buffer_run; exact Hb].
    set (w1 := set_buffers _ w).
    erewrite bind_Ret.
    2:{ instantiate (1 := set_heap h' w1). instantiate (1 := effective).
        destruct (CommandBuffer.auto_batch b).
        - unfold in_heap, zoom. change (heap w1) with (heap w). now rewrite Heff.
        - injection Heff as <- <-. unfold ret. subst w1. destruct w; reflexivity. }
    erewrite bind_Ret; [|apply append_pending_run; apply lookup_insert_eq].
    unfold on_connection, get_buffer.
    erewrite bind_Ret; [|apply deref_Some; apply lookup_insert_eq].
    cbn [CommandBuffer.connection CommandBuffer.set_pending_responses CommandBuffer.set_commands].
    rewrite Hconn. fold payload.
    subst w1 flushed. destruct w as [wh wb wnb wp wnp wc wr wk].
    destruct (Connection.send_packed_command payload c) as [[] c'|e c'|];
      [| |reflexivity];
      cbn [buffers set_buffers set_heap heap]; rewrite !insert_insert_eq;
      reflexivity.
Qed.

(** C7, as stated, fails on a closed buffer: with nothing queued the flush
    is not a no-op, it raises [ValueError]. *)
Lemma send_pending_requests_closed_raises :
  CommandBuffer.commands closed_buffer = []
  /\ buffers closed_world !! 0 = Some closed_buffer
  /\ send_pending_requests 0 closed_world
     = Raise (ValueError "I/O operation on closed file") closed_world
  /\ send_pending_requests 0 closed_world <> Ret tt closed_world.
Proof.
  assert (Hb : buffers closed_world !! 0 = Some closed_buffer) by reflexivity.
  assert (Hrun : send_pending_requests 0 closed_world
                 = Raise (ValueError "I/O operation on closed file") closed_world).
  { unfold send_pending_requests.
    erewrite bind_Raise; [reflexivity|].
    rewrite (assert_open_run _ _ _ Hb). reflexivity. }
  split; [reflexivity|]. split; [exact Hb|]. split; [exact Hrun|].
  rewrite Hrun. discriminate.
Qed.

(** ** C10: the reply to a batch with a list reply *)

Lemma resolve_fuel_leaf k p v h :
  promises h !! p = Some fresh_promise ->
  resolve_fuel (S k) p v h = Ret tt (set_promise p (mkPromise (Resolved v) []) h).
Proof.
  intros Hp. cbn [resolve_fuel].
  erewrite bind_Ret; [|apply deref_Some; exact Hp].
  reflexivity.
Qed.

Lemma scatter_run k (tuples : list (list string * promise_ref)) :
  forall vals h,
  NoDup (snd <$> tuples) ->
  (forall a p, (a, p) ∈ tuples -> promises h !! p = Some fresh_promise) ->
  exists h',
    for_each (fun '(item, (_, promise)) => resolve_fuel (S k) promise item)
             (izip vals tuples) h = Ret tt h'
    /\ lists h' = lists h
    /\ (forall i a p, tuples !! i = Some (a, p) ->
          promise_state h' p
          = Some (match vals !! i with Some v => Resolved v | None => Pending end))
    /\ (forall q, q ∉ snd <$> tuples -> promises h' !! q = promises h !! q).
Proof.
  induction tuples as [|[a p] ts IH]; intros vals h Hnd Hfresh.
  - exists h. replace (izip vals []) with (@nil (value * (list string * promise_ref)))
      by (destruct vals; reflexivity).
    split; [reflexivity|]. split; [reflexivity|]. split; [|auto].
    intros i a p Hi. rewrite lookup_nil in Hi. discriminate.
  - destruct vals as [|v vs].
    + exists h. cbn [izip for_each].
      split; [reflexivity|]. split; [reflexivity|]. split; [|auto].
      intros i a' p' Hi. rewrite lookup_nil.
      unfold promise_state. erewrite Hfresh; [reflexivity|].
      eapply list_elem_of_lookup_2; exact Hi.
    + cbn [izip for_each]. cbn [fmap list_fmap snd] in Hnd.
      apply NoDup_cons in Hnd as [Hnotin Hnd].
      erewrite bind_Ret.
      2:{ apply resolve_fuel_leaf. apply (Hfresh a). left. }
      set (h1 := set_promise p _ h).
      destruct (IH vs h1 Hnd) as (h' & Hrun & Hlists & Hat & Hframe).
      { intros a' p' Hin. unfold h1, set_promise. cbn [promises].
        rewrite lookup_insert_ne.
        - apply (Hfresh a'). now right.
        - intros ->. apply Hnotin. apply list_elem_of_fmap. exists (a', p'). auto. }
      exists h'. split; [exact Hrun|]. split; [exact Hlists|]. split.
      * intros [|i] a' p' Hi.
        -- cbn in Hi. injection Hi as <- <-. cbn [lookup list_lookup].
           unfold promise_state. rewrite (Hframe p Hnotin).
           unfold h1, set_promise. cbn [promises]. now rewrite lookup_insert_eq.
        -- cbn in Hi. cbn [lookup list_lookup]. apply (Hat i a' p' Hi).
      * intros q Hq. cbn [fmap list_fmap snd] in Hq.
        apply not_elem_of_cons in Hq as [Hqp Hq].
        rewrite (Hframe q Hq). unfold h1, set_promise. cbn [promises].
        now rewrite lookup_insert_ne.
Qed.

Lemma resolved_count h (tuples : list (list string * promise_ref)) :
  forall vals : list value,
  (forall i a p, tuples !! i = Some (a, p) ->
     promise_state h p
     = Some (match vals !! i with Some v => Resolved v | None => Pending end)) ->
  length (List.filter (is_resolved h) (snd <$> tuples))
  = Nat.min (length vals) (length tuples).
Proof.
  induction tuples as [|[a p] ts IH]; intros vals Hat.
  - cbn. now rewrite Nat.min_0_r.
  - cbn [fmap list_fmap snd List.filter].
    pose proof (Hat 0 a p eq_refl) as H0. cbn [lookup list_lookup] in H0.
    destruct vals as [|v vs].
    + unfold is_resolved at 1. rewrite H0. cbn [lookup list_lookup].
      rewrite (IH []); [reflexivity|].
      intros i a' p' Hi. specialize (Hat (S i) a' p' Hi).
      now rewrite lookup_nil in *.
    + unfold is_resolved at 1. rewrite H0. cbn [lookup list_lookup length Nat.min].
      f_equal. apply IH. intros i a' p' Hi. apply (Hat (S i) a' p' Hi).
Qed.

(** X19.  Take a group of [n >= 2] promises as [enqueue_command] makes them
    (pending, distinct, without callbacks), held in the list [l], for a
    command whose batch has a list reply.  [merge_batch] returns the batch
    command with a new pending promise; resolving that promise with a list
    of [m] values returns (no error), resolves the promise at position [i]
    of the group with the value at position [i] when [i < m] and leaves it
    pending otherwise, so exactly [min m n] promises of the group are
    resolved. *)
Theorem merge_batch_scatters_by_position (name batch_command : string) (h : pyheap)
    (l : list_ref) (tuples : list (list string * promise_ref)) (vals : list value) :
  AUTO_BATCH_COMMANDS !! name = Some (batch_command, true) ->
  lists h !! l = Some tuples ->
  2 <= length tuples ->
  NoDup (snd <$> tuples) ->
  (forall a p, (a, p) ∈ tuples -> promises h !! p = Some fresh_promise) ->
  promises h !! next_promise h = None ->
  exists promise h1 h2,
    merge_batch name l h = Ret (batch_command, concat (fst <$> tuples), promise) h1
    /\ promise_state h1 promise = Some Pending
    /\ resolve promise (VList vals) h1 = Ret tt h2
    /\ promise_state h2 promise = Some (Resolved (VList vals))
    /\ (forall i a p, tuples !! i = Some (a, p) ->
          promise_state h2 p
          = Some (match vals !! i with Some v => Resolved v | None => Pending end))
    /\ length (List.filter (is_resolved h2) (snd <$> tuples))
       = Nat.min (length vals) (length tuples).
Proof.
  intros Hn Hl Hlen Hnd Hfresh Hnew.
  exists (next_promise h), (with_batch_promise true l h).
  assert (Hnotin : next_promise h ∉ snd <$> tuples).
  { intros Hin. apply list_elem_of_fmap in Hin as ([a p] & Hp & Hin). cbn in Hp.
    pose proof (Hfresh _ _ Hin) as Hf. congruence. }
  set (h1 := with_batch_promise true l h).
  assert (HP : promises h1 !! next_promise h
               = Some (mkPromise Pending [on_success true l])) by apply lookup_insert_eq.
  set (h1' := set_promise (next_promise h) (mkPromise (Resolved (VList vals)) []) h1).
  assert (Hsize : exists k, size (promises h1) = S k).
  { destruct (size (promises h1)) eqn:Hs; [|eauto].
    apply map_size_empty_inv in Hs. rewrite Hs in HP. rewrite lookup_empty in HP. discriminate. }
  destruct Hsize as [k Hsize].
  destruct (scatter_run k tuples vals h1' Hnd) as (h2 & Hrun & Hlists & Hat & Hframe).
  { intros a p Hin. unfold h1', h1, set_promise, with_batch_promise. cbn [promises].
    rewrite !lookup_insert_ne; [apply (Hfresh a p Hin)| |];
      intros Heq; apply Hnotin; apply list_elem_of_fmap; exists (a, p);
      (split; [exact Heq|exact Hin]). }
  exists h2. split; [|split; [|split; [|split; [|split]]]].
  - apply merge_batch_many; [exact Hn|exact Hl|lia].
  - unfold promise_state. now rewrite HP.
  - unfold resolve. rewrite Hsize. cbn [resolve_fuel].
    erewrite bind_Ret; [|apply deref_Some; exact HP].
    cbn [state callbacks].
    erewrite bind_Ret; [|reflexivity]. fold h1'.
    cbn [for_each].
    erewrite bind_Ret; [reflexivity|].
    erewrite bind_Ret; [|apply deref_Some; exact Hl].
    cbn [iterate]. exact Hrun.
  - unfold promise_state. rewrite (Hframe _ Hnotin).
    unfold h1', set_promise. cbn [promises]. now rewrite lookup_insert_eq.
  - exact Hat.
  - apply resolved_count. exact Hat.
Qed.

(** C10 (the code departs from the claim).  The coalescer run on
    [GET a, INCR a, GET b] emits [MGET a b] for the group that still holds
    the promise of [GET a], which the reply to [GET a] resolves.  When the
    promise of the [MGET] is then resolved with a list of two values, the
    scatter meets that resolved promise at position 0 and raises: no promise
    of the group is resolved by it, the promise of [GET b] stays pending,
    and one promise of the group of two is resolved where the claim says
    [min 2 2]. *)
Theorem merge_batch_scatter_meets_resolved_promise :
  auto_batch_commands interleaved_queue three_promises
  = Ret [("GET", ["a"], 0); ("INCR", ["a"], 1); ("MGET", ["a"; "b"], 3)] coalesced_heap
  /\ lists coalesced_heap !! 0 = Some [(["a"], 0); (["b"], 2)]
  /\ promises coalesced_heap !! 3 = Some (mkPromise Pending [on_success true 0])
  /\ (resolve 0 (VBulk "1") ;;; resolve 1 (VInt 2)) coalesced_heap = Ret tt answered_heap
  /\ resolve 3 (VList [VBulk "1"; VBulk "2"]) answered_heap
     = Raise AlreadySettled scattered_heap
  /\ promise_state scattered_heap 0 = promise_state answered_heap 0
  /\ promise_state scattered_heap 0 = Some (Resolved (VBulk "1"))
  /\ promise_state scattered_heap 2 = Some Pending
  /\ length (List.filter (is_resolved scattered_heap) [0; 2]) = 1
  /\ length (List.filter (is_resolved scattered_heap) [0; 2])
     <> Nat.min (length [VBulk "1"; VBulk "2"]) (length [(["a"], 0); (["b"], 2)]).
Proof.
  assert (H1 : auto_batch_commands interleaved_queue three_promises
               = Ret [("GET", ["a"], 0); ("INCR", ["a"], 1); ("MGET", ["a"; "b"], 3)]
                     coalesced_heap) by (vm_compute; reflexivity).
  assert (H2 : (resolve 0 (VBulk "1") ;;; resolve 1 (VInt 2)) coalesced_heap
               = Ret tt answered_heap) by (vm_compute; reflexivity).
  assert (H3 : resolve 3 (VList [VBulk "1"; VBulk "2"]) answered_heap
               = Raise AlreadySettled scattered_heap) by (vm_compute; reflexivity).
  assert (H4 : promise_state scattered_heap 0 = Some (Resolved (VBulk "1")))
    by (vm_compute; reflexivity).
  assert (H5 : length (List.filter (is_resolved scattered_heap) [0; 2]) = 1)
    by (vm_compute; reflexivity).
  split; [exact H1|]. split; [vm_compute; reflexivity|]. split; [vm_compute; reflexivity|].
  split; [exact H2|]. split; [exact H3|]. split; [vm_compute; reflexivity|].
  split; [exact H4|]. split; [vm_compute; reflexivity|]. split; [exact H5|].
  rewrite H5. cbn. lia.
Qed.

(** ** What a computation raises *)

Section RaisesOnly.
Context {S : Type} (P : exn -> Prop).

Lemma raises_only_ret {A} (a : A) : raises_only P (@ret S A a).
Proof. intros s e s' H. discriminate. Qed.

Lemma raises_only_gets {A} (f : S -> A) : raises_only P (gets f).
Proof. intros s e s' H. discriminate. Qed.

Lemma raises_only_modify (f : S -> S) : raises_only P (modify f).
Proof. intros s e s' H. discriminate. Qed.

Lemma raises_only_undef {A} : raises_only P (@undef S A).
Proof. intros s e s' H. discriminate. Qed.

Lemma raises_only_deref {A} (f : S -> option A) : raises_only P (deref f).
Proof. intros s e s' H. unfold deref in H. destruct (f s); discriminate. Qed.

Lemma raises_only_raise {A} e : P e -> raises_only P (@raise S A e).
Proof. intros He s e' s' H. injection H as <- _. exact He. Qed.

Lemma raises_only_bind {A B} (m : M S A) (k : A -> M S B) :
  raises_only P m -> (forall a, raises_only P (k a)) -> raises_only P (bind m k).
Proof.
  intros Hm Hk s e s' H. unfold bind in H.
  destruct (m s) as [a s1|e1 s1|] eqn:Hms; [|injection H as <- _|discriminate].
  - eapply Hk; exact H.
  - eapply Hm; exact Hms.
Qed.

Lemma raises_only_for_each {A} (body : A -> M S unit) xs :
  (forall x, raises_only P (body x)) -> raises_only P (for_each body xs).
Proof.
  intros Hb. induction xs as [|x xs IH]; cbn [for_each].
  - apply raises_only_ret.
  - apply raises_only_bind; [apply Hb|intros _; exact IH].
Qed.
End RaisesOnly.

Ltac raises_step :=
  lazymatch goal with
  | |- raises_only _ (bind _ _) => apply raises_only_bind; [|intros ?]
  | |- raises_only _ (ret _) => apply raises_only_ret
  | |- raises_only _ (raise _) => apply raises_only_raise
  | |- raises_only _ undef => apply raises_only_undef
  | |- raises_only _ (gets _) => apply raises_only_gets
  | |- raises_only _ (deref _) => apply raises_only_deref
  | |- raises_only _ (modify _) => apply raises_only_modify
  | |- raises_only _ (for_each _ _) => apply raises_only_for_each; intros ?
  | |- raises_only _ (match ?x with _ => _ end) => destruct x
  end.


(** ** Resolving a promise *)

Lemma resolve_fuel_raises fuel :
  forall p v, raises_only not_read_error (resolve_fuel fuel p v).
Proof.
  induction fuel as [|fuel IH]; intros p v; cbn [resolve_fuel].
  - apply raises_only_undef.
  - repeat raises_step; try reflexivity; apply IH.
Qed.

Lemma resolve_raises p v : raises_only not_read_error (resolve p v).
Proof. intros h e h' H. unfold resolve in H. eapply resolve_fuel_raises; exact H. Qed.

Lemma no_new_rejection_refl : reflexive_on no_new_rejection.
Proof. intros h p x H. exact H. Qed.

Lemma no_new_rejection_trans : transitive_on no_new_rejection.
Proof. intros h1 h2 h3 H12 H23 p x H. apply H12, H23, H. Qed.

Lemma set_promise_resolved_no_rejection p v h :
  no_new_rejection h (set_promise p (mkPromise (Resolved v) []) h).
Proof.
  intros q x. unfold promise_state, set_promise. cbn [promises].
  destruct (decide (p = q)) as [->|Hne].
  - rewrite lookup_insert_eq. discriminate.
  - now rewrite lookup_insert_ne.
Qed.

Lemma resolve_fuel_no_rejection fuel :
  forall p v, preserves no_new_rejection (resolve_fuel fuel p v).
Proof.
  induction fuel as [|fuel IH]; intros p v; cbn [resolve_fuel].
  - apply preserves_undef.
  - repeat preserves_step no_new_rejection_refl no_new_rejection_trans;
      try apply IH.
    apply set_promise_resolved_no_rejection.
Qed.

Lemma resolve_no_rejection p v : preserves no_new_rejection (resolve p v).
Proof. intros h. unfold resolve. apply resolve_fuel_no_rejection. Qed.

(** ** C4: a read error while draining *)

Lemma preserves_in_heap {A} (R : pyheap -> pyheap -> Prop) (m : M pyheap A) :
  preserves R m -> preserves (fun w w' => R (heap w) (heap w')) (in_heap m).
Proof.
  intros H w. unfold in_heap, zoom. specialize (H (heap w)).
  destruct (m (heap w)); auto.
Qed.

Lemma preserves_on_connection {A} (R : world -> world -> Prop) self (m : M Connection.t A) :
  reflexive_on R ->
  (forall w b c', buffers w !! self = Some b ->
     R w (set_buffers (<[self := CommandBuffer.set_connection (Some c') b]> (buffers w)) w)) ->
  preserves R (on_connection self m).
Proof.
  intros Hrefl Hset w. unfold on_connection, get_buffer, bind, deref.
  destruct (buffers w !! self) as [b|] eqn:Hb; [|exact I].
  destruct (CommandBuffer.connection b) as [c|]; [|apply Hrefl].
  destruct (m c); auto.
Qed.

Lemma preserves_update_buffer (R : world -> world -> Prop) self f :
  (forall w b, buffers w !! self = Some b ->
     R w (set_buffers (<[self := f b]> (buffers w)) w)) ->
  preserves R (update_buffer self f).
Proof.
  intros Hset w. unfold update_buffer, get_buffer, bind, deref.
  destruct (buffers w !! self) as [b|] eqn:Hb; [|exact I].
  apply Hset, Hb.
Qed.

Lemma heap_no_new_rejection_refl : reflexive_on heap_no_new_rejection.
Proof. intros w. apply no_new_rejection_refl. Qed.

Lemma heap_no_new_rejection_trans : transitive_on heap_no_new_rejection.
Proof. intros w1 w2 w3. apply no_new_rejection_trans. Qed.

Lemma same_pending_refl self : reflexive_on (same_pending self).
Proof. intros w. reflexivity. Qed.

Lemma same_pending_trans self : transitive_on (same_pending self).
Proof. intros w1 w2 w3 H12 H23. unfold same_pending in *. congruence. Qed.

Lemma drain_no_rejection self pending :
  preserves heap_no_new_rejection (drain self pending).
Proof.
  unfold drain.
  repeat preserves_step heap_no_new_rejection_refl heap_no_new_rejection_trans.
  - apply preserves_on_connection; [apply heap_no_new_rejection_refl|].
    intros w b c' _. apply no_new_rejection_refl.
  - apply (preserves_in_heap no_new_rejection). apply resolve_no_rejection.
Qed.

Lemma drain_same_pending self pending :
  preserves (same_pending self) (drain self pending).
Proof.
  unfold drain.
  repeat preserves_step (same_pending_refl self) (same_pending_trans self).
  - apply preserves_on_connection; [apply same_pending_refl|].
    intros w b c' Hb. unfold same_pending. cbn [buffers set_buffers].
    rewrite lookup_insert_eq, Hb. reflexivity.
  - apply preserves_zoom. intros w h. reflexivity.
Qed.

(** A drain that raises a read error: the entries before some entry were
    drained, and the read for that entry raised. *)
Lemma drain_raise self pending :
  forall w e w',
  drain self pending w = Raise e w' ->
  read_error e = true ->
  exists done name promise rest w1 b1 c c1,
    pending = done ++ (name, promise) :: rest
    /\ drain self done w = Ret tt w1
    /\ buffers w1 !! self = Some b1
    /\ CommandBuffer.connection b1 = Some c
    /\ parse_response name c = Raise e c1
    /\ w' = set_buffers (<[self := CommandBuffer.set_connection (Some c1) b1]> (buffers w1)) w1.
Proof.
  induction pending as [|[name promise] rest IH]; intros w e w' Hrun He.
  - discriminate.
  - unfold drain in Hrun. cbn [for_each] in Hrun. fold (drain self rest) in Hrun.
    rewrite bind_unfold in Hrun. rewrite bind_unfold in Hrun.
    destruct (on_connection self (parse_response name) w) as [v w0|e0 w0|] eqn:Hread;
      [| |discriminate].
    + destruct (in_heap (resolve promise v) w0) as [[] w2|e2 w2|] eqn:Hres;
        [| |discriminate].
      * destruct (IH w2 e w' Hrun He) as (done & n & p & rest' & w1 & b1 & c & c1 & Hp & Hd & Hb & Hc & Hparse & Hw').
        exists ((name, promise) :: done), n, p, rest', w1, b1, c, c1.
        split; [now rewrite Hp|]. split; [|auto].
        unfold drain. cbn [for_each]. fold (drain self done).
        rewrite bind_unfold, bind_unfold, Hread, Hres. exact Hd.
      * injection Hrun as -> ->. exfalso.
        unfold in_heap, zoom in Hres.
        destruct (resolve promise v (heap w0)) as [|e3 h3|] eqn:Hr; try discriminate.
        injection Hres as -> _.
        pose proof (resolve_raises _ _ _ _ _ Hr) as Hne. unfold not_read_error in Hne.
        congruence.
    + injection Hrun as -> ->.
      unfold on_connection, get_buffer, bind, deref in Hread.
      destruct (buffers w !! self) as [b|] eqn:Hb; [|discriminate].
      destruct (CommandBuffer.connection b) as [c|] eqn:Hc.
      * destruct (parse_response name c) as [|e1 c1|] eqn:Hparse; try discriminate.
        injection Hread as -> <-.
        exists [], name, promise, rest, w, b, c, c1. repeat split; auto.
      * injection Hread as <- _. discriminate.
Qed.

(** Conversely to the theorem below: when [wait_for_responses] raises a
    read error, the entries before some entry of [pending_responses] were
    drained and the read for that entry raised. *)
Lemma wait_for_responses_raise_inv (self : buffer_ref) (w w' : world) (e : exn) :
  wait_for_responses self w = Raise e w' ->
  read_error e = true ->
  exists b done name promise rest w1 b' c',
    buffers w !! self = Some b
    /\ CommandBuffer.pending_responses b = done ++ (name, promise) :: rest
    /\ drain self done
         (set_buffers (<[self := CommandBuffer.set_pending_responses [] b]> (buffers w)) w)
       = Ret tt w1
    /\ heap w' = heap w1
    /\ no_new_rejection (heap w) (heap w')
    /\ buffers w' !! self = Some b'
    /\ CommandBuffer.pending_responses b' = []
    /\ CommandBuffer.connection b' = Some c'.
Proof.
  intros Hrun He. unfold wait_for_responses in Hrun.
  rewrite bind_unfold in Hrun.
  unfold assert_open, get_buffer in Hrun. rewrite bind_unfold in Hrun.
  unfold deref at 1 in Hrun.
  destruct (buffers w !! self) as [b|] eqn:Hb; [|discriminate].
  destruct (CommandBuffer.closed b).
  { injection Hrun as <- _. discriminate. }
  unfold ret at 1 in Hrun.
  erewrite bind_Ret in Hrun; [|apply deref_Some; exact Hb].
  erewrite bind_Ret in Hrun; [|apply update_buffer_run; exact Hb].
  set (w0 := set_buffers _ w) in Hrun.
  destruct (drain_raise _ _ _ _ _ Hrun He)
    as (done & name & promise & rest & w1 & b1 & c & c1 & Hp & Hd & Hb1 & Hc & Hparse & Hw').
  pose proof (drain_same_pending self done w0) as Hsame. rewrite Hd in Hsame.
  unfold same_pending in Hsame. rewrite Hb1 in Hsame. unfold w0 in Hsame.
  cbn [buffers set_buffers] in Hsame. rewrite lookup_insert_eq in Hsame.
  cbn in Hsame. injection Hsame as Hpend.
  pose proof (drain_no_rejection self (CommandBuffer.pending_responses b) w0) as Hrej.
  rewrite Hrun in Hrej.
  exists b, done, name, promise, rest, w1, (CommandBuffer.set_connection (Some c1) b1), c1.
  split; [reflexivity|]. split; [exact Hp|]. split; [exact Hd|].
  split; [subst w'; destruct w1; reflexivity|].
  split; [exact Hrej|].
  split; [subst w'; cbn [buffers set_buffers]; apply lookup_insert_eq|].
  split; [exact Hpend|reflexivity].
Qed.

Lemma on_connection_run {A} self (m : M Connection.t A) w b c :
  buffers w !! self = Some b ->
  CommandBuffer.connection b = Some c ->
  on_connection self m w
  = match m c with
    | Ret a c' =>
      Ret a (set_buffers (<[self := CommandBuffer.set_connection (Some c') b]> (buffers w)) w)
    | Raise e c' =>
      Raise e (set_buffers (<[self := CommandBuffer.set_connection (Some c') b]> (buffers w)) w)
    | Undef => Undef
    end.
Proof.
  intros Hb Hc. unfold on_connection, get_buffer.
  erewrite bind_Ret; [|apply deref_Some; exact Hb]. now rewrite Hc.
Qed.

Lemma drain_app self (done rest : list (string * promise_ref)) :
  forall w w1,
  drain self done w = Ret tt w1 ->
  drain self (done ++ rest) w = drain self rest w1.
Proof.
  induction done as [|[name promise] done IH]; intros w w1 Hd.
  - injection Hd as <-. reflexivity.
  - unfold drain in Hd |- *. cbn [for_each app] in Hd |- *.
    fold (drain self done) in Hd. fold (drain self (done ++ rest)).
    rewrite bind_unfold in Hd. rewrite bind_unfold.
    destruct (bind (on_connection self (parse_response name))
                (fun value => in_heap (resolve promise value)) w) as [[] w0|e0 w0|];
      [|discriminate|discriminate].
    now apply IH.
Qed.

(** C4, as the code has it.  Take an open buffer and an entry
    [(name, promise)] of its [pending_responses]; suppose the entries before
    it drain, and the read for it then raises [e] on the connection the
    buffer holds at that point.  Then [wait_for_responses] raises [e]: the
    error is not caught.  The store of promises is as the drained entries
    left it, so the promise being drained and the later ones are not
    settled by the failure, and no promise has been rejected;
    [pending_responses] is empty and the buffer still holds its connection,
    as the failed read left it (the buffer is closed exactly when that read
    dropped the socket). *)
Theorem wait_for_responses_read_error (self : buffer_ref) (w w1 : world)
    (b b1 : CommandBuffer.t) (done rest : list (string * promise_ref))
    (name : string) (promise : promise_ref) (c c1 : Connection.t) (e : exn) :
  buffers w !! self = Some b ->
  CommandBuffer.closed b = false ->
  CommandBuffer.pending_responses b = done ++ (name, promise) :: rest ->
  drain self done
    (set_buffers (<[self := CommandBuffer.set_pending_responses [] b]> (buffers w)) w)
  = Ret tt w1 ->
  buffers w1 !! self = Some b1 ->
  CommandBuffer.connection b1 = Some c ->
  parse_response name c = Raise e c1 ->
  let b' := CommandBuffer.set_connection (Some c1) b1 in
  let w' := set_buffers (<[self := b']> (buffers w1)) w1 in
  wait_for_responses self w = Raise e w'
  /\ heap w' = heap w1
  /\ no_new_rejection (heap w) (heap w')
  /\ buffers w' !! self = Some b'
  /\ CommandBuffer.pending_responses b' = []
  /\ CommandBuffer.connection b' = Some c1
  /\ CommandBuffer.closed b' = match Connection._sock c1 with
                               | None => true
                               | Some _ => false
                               end.
Proof.
  intros Hb Hopen Hp Hd Hb1 Hc Hparse b' w'.
  set (w0 := set_buffers _ w) in Hd.
  assert (Hrun : wait_for_responses self w = Raise e w').
  { unfold wait_for_responses.
    erewrite bind_Ret; [|rewrite (assert_open_run _ _ _ Hb), Hopen; reflexivity].
    unfold get_buffer. erewrite bind_Ret; [|apply deref_Some; exact Hb].
    erewrite bind_Ret; [|apply update_buffer_run; exact Hb].
    rewrite Hp. fold w0. rewrite (drain_app self done _ w0 w1 Hd).
    unfold drain. cbn [for_each].
    erewrite bind_Raise; [reflexivity|].
    erewrite bind_Raise; [reflexivity|].
    rewrite (on_connection_run _ _ _ _ _ Hb1 Hc), Hparse. reflexivity. }
  pose proof (drain_same_pending self done w0) as Hsame. rewrite Hd in Hsame.
  unfold same_pending in Hsame. rewrite Hb1 in Hsame. unfold w0 in Hsame.
  cbn [buffers set_buffers] in Hsame. rewrite lookup_insert_eq in Hsame.
  cbn in Hsame. injection Hsame as Hpend.
  pose proof (drain_no_rejection self done w0) as Hrej. rewrite Hd in Hrej.
  split; [exact Hrun|].
  split; [subst w'; destruct w1; reflexivity|].
  split.
  { replace (heap w') with (heap w1) by (subst w'; destruct w1; reflexivity).
    exact Hrej. }
  split; [subst w'; cbn [buffers set_buffers]; apply lookup_insert_eq|].
  split; [exact Hpend|]. split; reflexivity.
Qed.

(** C4, as stated, fails: the first read of a buffer with two entries
    raises a connection error, and both promises are left pending, not
    rejected. *)
Lemma wait_for_responses_leaves_pending :
  raised (wait_for_responses 0 draining_world)
  = Some (ConnectionError "Connection reset by peer")
  /\ promise_after (wait_for_responses 0 draining_world) 0 = Some Pending
  /\ promise_after (wait_for_responses 0 draining_world) 1 = Some Pending
  /\ promise_after (wait_for_responses 0 draining_world) 0
     <> Some (Rejected (ConnectionError "Connection reset by peer"))
  /\ promise_after (wait_for_responses 0 draining_world) 1
     <> Some (Rejected (ConnectionError "Connection reset by peer")).
Proof.
  assert (H0 : promise_after (wait_for_responses 0 draining_world) 0 = Some Pending)
    by (vm_compute; reflexivity).
  assert (H1 : promise_after (wait_for_responses 0 draining_world) 1 = Some Pending)
    by (vm_compute; reflexivity).
  split; [vm_compute; reflexivity|]. split; [exact H0|]. split; [exact H1|].
  rewrite H0, H1. split; discriminate.
Qed.

(** ** C5: the concurrency cap *)

Lemma preserves_weaken {S A} (R R' : S -> S -> Prop) (m : M S A) :
  (forall s s', R s s' -> R' s s') -> preserves R m -> preserves R' m.
Proof. intros Hw H s. specialize (H s). destruct (m s); auto. Qed.

Lemma same_polls_refl : reflexive_on same_polls.
Proof. intros w. reflexivity. Qed.

Lemma same_polls_trans : transitive_on same_polls.
Proof. intros w1 w2 w3 H12 H23. unfold same_polls in *. congruence. Qed.

Lemma registry_shrinks_refl p : reflexive_on (registry_shrinks p).
Proof. intros w r Hr. eauto. Qed.

Lemma registry_shrinks_trans p : transitive_on (registry_shrinks p).
Proof.
  intros w1 w2 w3 H12 H23 r Hr.
  destruct (H12 r Hr) as (r2 & Hr2 & Hl2).
  destruct (H23 r2 Hr2) as (r3 & Hr3 & Hl3).
  exists r3. split; [exact Hr3|lia].
Qed.

Lemma same_polls_shrinks p w w' : same_polls w w' -> registry_shrinks p w w'.
Proof. intros H r Hr. exists r. unfold same_polls in H. rewrite H. auto. Qed.

(** One step of a proof that the registries stay the same. *)
Ltac polls_step :=
  first
    [ preserves_step same_polls_refl same_polls_trans
    | apply preserves_update_buffer; intros ? ? ?; reflexivity
    | apply preserves_on_connection; [apply same_polls_refl | intros ? ? ? ?; reflexivity]
    | apply preserves_zoom; intros ? ?; reflexivity ].

Lemma assert_open_polls self : preserves same_polls (assert_open self).
Proof. unfold assert_open, get_buffer. repeat polls_step. Qed.

Lemma enqueue_command_polls self name args :
  preserves same_polls (enqueue_command self name args).
Proof.
  unfold enqueue_command, in_heap. repeat polls_step; try reflexivity.
  apply assert_open_polls.
Qed.

Lemma send_pending_requests_polls self : preserves same_polls (send_pending_requests self).
Proof.
  unfold send_pending_requests, get_buffer, in_heap.
  repeat polls_step; try reflexivity; apply assert_open_polls.
Qed.

Lemma wait_for_responses_polls self : preserves same_polls (wait_for_responses self).
Proof.
  unfold wait_for_responses, drain, get_buffer, in_heap.
  repeat polls_step; try reflexivity; apply assert_open_polls.
Qed.

Lemma get_connection_polls name hint :
  preserves same_polls (RoutingPool.get_connection name hint).
Proof.
  unfold RoutingPool.get_connection. repeat polls_step; reflexivity.
Qed.

Lemma release_polls c : preserves same_polls (RoutingPool.release c).
Proof. unfold RoutingPool.release. repeat polls_step; reflexivity. Qed.

Lemma CommandBuffer_init_polls host c ab :
  preserves same_polls (CommandBuffer_init host c ab).
Proof.
  intros w. unfold CommandBuffer_init.
  destruct (Connection.connect c); reflexivity.
Qed.

Lemma poll_poll_polls p timeout : preserves same_polls (poll_poll p timeout).
Proof. unfold poll_poll, get_poll. repeat polls_step; reflexivity. Qed.

Lemma time_time_polls : preserves same_polls time_time.
Proof. unfold time_time. repeat polls_step; reflexivity. Qed.

Ltac shrinks_step p :=
  preserves_step (registry_shrinks_refl p) (registry_shrinks_trans p).

Ltac by_same_polls p :=
  apply (preserves_weaken same_polls (registry_shrinks p));
  [apply same_polls_shrinks|].

Lemma update_poll_unregister_shrinks p key :
  preserves (registry_shrinks p) (update_poll p (Poll.unregister key)).
Proof.
  intros w. unfold update_poll, get_poll, bind, deref.
  destruct (polls w !! p) as [r|] eqn:Hr; [|exact I].
  unfold modify. intros r0 Hr0. exists (Poll.unregister key r).
  cbn [polls set_polls]. rewrite lookup_insert_eq. split; [reflexivity|].
  rewrite Hr in Hr0. injection Hr0 as <-. apply Poll_unregister_length.
Qed.

Lemma release_command_buffer_shrinks self b :
  preserves (registry_shrinks (MappingClient._command_buffer_poll self))
            (_release_command_buffer self b).
Proof.
  set (p := MappingClient._command_buffer_poll self).
  unfold _release_command_buffer, get_buffer.
  repeat shrinks_step p.
  - apply update_poll_unregister_shrinks.
  - by_same_polls p. apply release_polls.
  - by_same_polls p. apply preserves_update_buffer. intros ? ? ?; reflexivity.
Qed.

Lemma drain_and_release_shrinks self rv :
  preserves (registry_shrinks (MappingClient._command_buffer_poll self))
    (for_each (fun command_buffer =>
       wait_for_responses command_buffer ;;;
       _release_command_buffer self command_buffer) rv).
Proof.
  set (p := MappingClient._command_buffer_poll self).
  repeat shrinks_step p.
  - by_same_polls p. apply wait_for_responses_polls.
  - apply release_command_buffer_shrinks.
Qed.

Lemma flush_all_shrinks p (bs : list buffer_ref) :
  preserves (registry_shrinks p) (for_each send_pending_requests bs).
Proof. shrinks_step p. by_same_polls p. apply send_pending_requests_polls. Qed.

Lemma try_to_clear_shrinks self timeout :
  preserves (registry_shrinks (MappingClient._command_buffer_poll self))
            (_try_to_clear_outstanding_requests self timeout).
Proof.
  set (p := MappingClient._command_buffer_poll self).
  unfold _try_to_clear_outstanding_requests, get_poll.
  shrinks_step p; [shrinks_step p|].
  destruct a as [|kb r]; [shrinks_step p|].
  shrinks_step p; [apply flush_all_shrinks|].
  shrinks_step p; [by_same_polls p; apply poll_poll_polls|].
  apply drain_and_release_shrinks.
Qed.

Lemma clear_while_at_capacity_shrinks fuel self :
  preserves (registry_shrinks (MappingClient._command_buffer_poll self))
            (clear_while_at_capacity fuel self).
Proof.
  set (p := MappingClient._command_buffer_poll self).
  induction fuel as [|fuel IH]; cbn [clear_while_at_capacity]; unfold get_poll.
  - repeat shrinks_step p.
  - shrinks_step p; [shrinks_step p|].
    destruct (at_capacity _ _); [|shrinks_step p].
    shrinks_step p; [apply try_to_clear_shrinks|exact IH].
Qed.

Lemma join_loop_shrinks fuel self :
  forall remaining,
  preserves (registry_shrinks (MappingClient._command_buffer_poll self))
            (join_loop fuel self remaining).
Proof.
  set (p := MappingClient._command_buffer_poll self).
  induction fuel as [|fuel IH]; intros remaining; cbn [join_loop]; unfold get_poll.
  - repeat shrinks_step p.
  - shrinks_step p; [shrinks_step p|].
    destruct a as [|kb r]; [shrinks_step p|].
    destruct (positive_time remaining); [|shrinks_step p].
    shrinks_step p; [by_same_polls p; apply time_time_polls|].
    shrinks_step p; [by_same_polls p; apply poll_poll_polls|].
    shrinks_step p.
    { destruct remaining; repeat shrinks_step p.
      by_same_polls p; apply time_time_polls. }
    shrinks_step p; [apply drain_and_release_shrinks|apply IH].
Qed.

Lemma join_shrinks fuel self timeout :
  preserves (registry_shrinks (MappingClient._command_buffer_poll self))
            (join fuel self timeout).
Proof.
  set (p := MappingClient._command_buffer_poll self).
  unfold join, get_poll.
  shrinks_step p; [shrinks_step p|].
  shrinks_step p; [apply flush_all_shrinks|apply join_loop_shrinks].
Qed.

Lemma cancel_shrinks self :
  preserves (registry_shrinks (MappingClient._command_buffer_poll self)) (cancel self).
Proof.
  set (p := MappingClient._command_buffer_poll self).
  unfold cancel, get_poll.
  shrinks_step p; [shrinks_step p|].
  shrinks_step p. apply release_command_buffer_shrinks.
Qed.

Lemma capped_shrinks self m w w' :
  capped self m w ->
  registry_shrinks (MappingClient._command_buffer_poll self) w w' ->
  capped self m w'.
Proof.
  intros (r & Hr & Hle) Hs. destruct (Hs r Hr) as (r' & Hr' & Hl).
  exists r'. split; [exact Hr'|lia].
Qed.

Lemma Poll_register_length key f r :
  length (Poll.register key f r) <= S (length r).
Proof.
  induction r as [|[k b] r IH]; cbn; [lia|].
  destruct (Z.eqb k key); cbn; lia.
Qed.

(** When the loop on the cap returns, the registry is below the cap. *)
Lemma clear_while_at_capacity_below fuel self :
  forall w w1,
  clear_while_at_capacity fuel self w = Ret tt w1 ->
  exists r1, polls w1 !! MappingClient._command_buffer_poll self = Some r1
             /\ at_capacity (length r1) (MappingClient._max_concurrency self) = false.
Proof.
  induction fuel as [|fuel IH]; intros w w1 Hrun; cbn [clear_while_at_capacity] in Hrun;
    unfold get_poll in Hrun; rewrite bind_unfold in Hrun; unfold deref at 1 in Hrun;
    destruct (polls w !! MappingClient._command_buffer_poll self) as [r|] eqn:Hr;
    try discriminate;
    destruct (at_capacity (length r) (MappingClient._max_concurrency self)) eqn:Hcap.
  - discriminate.
  - injection Hrun as <-. eauto.
  - rewrite bind_unfold in Hrun.
    destruct (_try_to_clear_outstanding_requests self 1 w) as [[] w0|e w0|];
      try discriminate.
    eapply IH; exact Hrun.
  - injection Hrun as <-. eauto.
Qed.

Lemma get_poll_eq p w :
  get_poll p w = match polls w !! p with Some r => Ret r w | None => Undef end.
Proof. reflexivity. Qed.

(** What [_get_command_buffer] does to the registry. *)
Lemma get_command_buffer_registry fuel self host name w :
  match _get_command_buffer fuel self host name w with
  | Ret buf w' =>
    (exists r, polls w !! MappingClient._command_buffer_poll self = Some r
               /\ Poll.get host r = Some buf /\ w' = w)
    \/ (exists r w1 r1,
          polls w !! MappingClient._command_buffer_poll self = Some r
          /\ Poll.get host r = None
          /\ clear_while_at_capacity fuel self w = Ret tt w1
          /\ polls w1 !! MappingClient._command_buffer_poll self = Some r1
          /\ at_capacity (length r1) (MappingClient._max_concurrency self) = false
          /\ polls w' !! MappingClient._command_buffer_poll self
             = Some (Poll.register host buf r1))
  | Raise _ w' => registry_shrinks (MappingClient._command_buffer_poll self) w w'
  | Undef => True
  end.
Proof.
  set (p := MappingClient._command_buffer_poll self).
  unfold _get_command_buffer. rewrite bind_unfold, get_poll_eq. fold p.
  destruct (polls w !! p) as [r|] eqn:Hr; [|exact I].
  destruct (Poll.get host r) as [buf|] eqn:Hget.
  { left. exists r. auto. }
  rewrite bind_unfold.
  pose proof (clear_while_at_capacity_shrinks fuel self w) as Hshr.
  pose proof (clear_while_at_capacity_below fuel self w) as Hbelow.
  destruct (clear_while_at_capacity fuel self w) as [[] w1|e w1|]; [|exact Hshr|exact I].
  destruct (Hbelow w1 eq_refl) as (r1 & Hr1 & Hcap).
  rewrite bind_unfold.
  pose proof (get_connection_polls name (Some host) w1) as Hgc.
  destruct (RoutingPool.get_connection name (Some host) w1) as [c w2|e w2|]; [| |exact I].
  2:{ eapply registry_shrinks_trans; [exact Hshr|]. apply same_polls_shrinks, Hgc. }
  rewrite bind_unfold.
  pose proof (CommandBuffer_init_polls host c (MappingClient.auto_batch self) w2) as Hin.
  destruct (CommandBuffer_init host c (MappingClient.auto_batch self) w2) as [buf w3|e w3|];
    [| |exact I].
  2:{ eapply registry_shrinks_trans; [exact Hshr|].
      eapply registry_shrinks_trans; apply same_polls_shrinks; eassumption. }
  assert (Hr3 : polls w3 !! p = Some r1).
  { unfold same_polls in *. now rewrite Hin, Hgc. }
  unfold update_poll. rewrite bind_unfold, bind_unfold, get_poll_eq. fold p. rewrite Hr3.
  unfold modify, ret. right. exists r, w1, r1.
  repeat split; auto. cbn [polls set_polls]. apply lookup_insert_eq.
Qed.

Lemma not_at_capacity len m :
  at_capacity len (Some m) = false -> (Z.of_nat len < m)%Z.
Proof. unfold at_capacity. intros H. apply Z.leb_gt in H. exact H. Qed.

Lemma execute_command_capped fuel router self m args w :
  MappingClient._max_concurrency self = Some m ->
  capped self m w ->
  match execute_command fuel router self args w with
  | Ret _ w' => capped self m w'
  | Raise _ w' => capped self m w'
  | Undef => True
  end.
Proof.
  intros Hmax Hcap. set (p := MappingClient._command_buffer_poll self).
  unfold execute_command. destruct args as [|name cargs]; [exact Hcap|].
  rewrite bind_unfold. unfold get_host_for_command.
  destruct (router name cargs) as [e|host]; [exact Hcap|].
  unfold ret at 1. rewrite bind_unfold.
  pose proof (get_command_buffer_registry fuel self host name w) as Hg.
  destruct (_get_command_buffer fuel self host name w) as [buf w1|e w1|]; [| |exact I].
  2:{ eapply capped_shrinks; eassumption. }
  assert (Hcap1 : capped self m w1).
  { destruct Hg as [(r & Hr & _ & ->)|(r & w0 & r1 & Hr & _ & _ & Hr1 & Hlt & Hreg)];
      [exact Hcap|].
    rewrite Hmax in Hlt. apply not_at_capacity in Hlt.
    exists (Poll.register host buf r1). split; [exact Hreg|].
    pose proof (Poll_register_length host buf r1). lia. }
  pose proof (enqueue_command_polls buf name cargs w1) as He.
  destruct (enqueue_command buf name cargs w1) as [pr w2|e w2|]; [| |exact I];
    (eapply capped_shrinks; [exact Hcap1|apply same_polls_shrinks, He]).
Qed.

Lemma run_op_capped fuel router self m o w :
  MappingClient._max_concurrency self = Some m ->
  capped self m w ->
  match final_state (run_op fuel router self o w) with
  | Some w' => capped self m w'
  | None => True
  end.
Proof.
  intros Hmax Hcap. destruct o as [args|timeout|]; cbn [run_op].
  - rewrite bind_unfold.
    pose proof (execute_command_capped fuel router self m args w Hmax Hcap) as H.
    destruct (execute_command fuel router self args w); exact H.
  - pose proof (join_shrinks fuel self timeout w) as H.
    destruct (join fuel self timeout w); cbn; try exact I;
      eapply capped_shrinks; eassumption.
  - pose proof (cancel_shrinks self w) as H.
    destruct (cancel self w); cbn; try exact I;
      eapply capped_shrinks; eassumption.
Qed.

Lemma run_ops_capped fuel router self m ops :
  forall w w',
  MappingClient._max_concurrency self = Some m ->
  capped self m w ->
  run_ops fuel router self ops w = Some w' ->
  capped self m w'.
Proof.
  induction ops as [|o ops IH]; intros w w' Hmax Hcap Hrun; cbn [run_ops] in Hrun.
  - injection Hrun as <-. exact Hcap.
  - pose proof (run_op_capped fuel router self m o w Hmax Hcap) as Hop.
    destruct (final_state (run_op fuel router self o w)) as [w1|]; [|discriminate].
    eapply IH; eassumption.
Qed.

(** C5.  Take a mapping client made with an integer cap [m >= 1] and any
    session of calls on it (commands, joins and cancels, whether they
    return or raise).  After a call of [execute_command] that returns, the
    registry holds at most [m] buffers.  When the command goes to a host
    that was not registered, the loop on the cap had returned with the
    registry strictly below [m], and the new buffer was registered on that
    registry. *)
Theorem execute_command_concurrency_cap (m : Z) (auto_batch : bool) (w0 w w' w'' : world)
    (self : MappingClient.t) (fuel : nat) (router : router_t) (ops : list op)
    (args : list string) (promise : promise_ref) :
  (1 <= m)%Z ->
  MappingClient_init (Some m) auto_batch w0 = Ret self w ->
  run_ops fuel router self ops w = Some w' ->
  execute_command fuel router self args w' = Ret promise w'' ->
  (Z.of_nat (length (registry_of self w'')) <= m)%Z
  /\ (forall command_name command_args host,
        args = command_name :: command_args ->
        router command_name command_args = inr host ->
        Poll.get host (registry_of self w') = None ->
        exists w1 buf,
          clear_while_at_capacity fuel self w' = Ret tt w1
          /\ (Z.of_nat (length (registry_of self w1)) < m)%Z
          /\ registry_of self w'' = Poll.register host buf (registry_of self w1)).
Proof.
  intros Hm Hinit Hrun Hexec.
  unfold MappingClient_init in Hinit. rewrite bind_unfold in Hinit.
  unfold poll_new, ret in Hinit. injection Hinit as <- <-.
  set (self := MappingClient.mk auto_batch (Some m) (next_poll w0)) in *.
  set (w := mkWorld _ _ _ _ _ _ _ _) in *.
  assert (Hcap0 : capped self m w).
  { exists []. split; [apply lookup_insert_eq|cbn; lia]. }
  pose proof (run_ops_capped fuel router self m ops w w' eq_refl Hcap0 Hrun) as Hcap'.
  split.
  - pose proof (execute_command_capped fuel router self m args w' eq_refl Hcap') as H.
    rewrite Hexec in H. destruct H as (r & Hr & Hle).
    unfold registry_of. rewrite Hr. exact Hle.
  - intros name cargs host -> Hroute Hnew.
    unfold execute_command in Hexec. rewrite bind_unfold in Hexec.
    unfold get_host_for_command in Hexec. rewrite Hroute in Hexec.
    unfold ret at 1 in Hexec. rewrite bind_unfold in Hexec.
    pose proof (get_command_buffer_registry fuel self host name w') as Hg.
    destruct (_get_command_buffer fuel self host name w') as [buf w1|e w1|];
      try discriminate.
    pose proof (enqueue_command_polls buf name cargs w1) as He.
    rewrite Hexec in He. unfold same_polls in He.
    destruct Hg as [(r & Hr & Hget & ->)|(r & w0' & r1 & Hr & _ & Hclear & Hr1 & Hlt & Hreg)].
    + unfold registry_of in Hnew. rewrite Hr in Hnew. cbn in Hnew. congruence.
    + exists w0', buf. split; [exact Hclear|].
      unfold registry_of. rewrite He, Hreg, Hr1. cbn [default].
      split; [|reflexivity]. apply not_at_capacity. exact Hlt.
Qed.

(** ** Queueing a command, and draining a buffer that is answered *)

Lemma Promise_new_run h :
  Promise_new h
  = Ret (next_promise h)
        (mkHeap (<[next_promise h := fresh_promise]> (promises h)) (S (next_promise h))
                (lists h) (next_list h)).
Proof. reflexivity. Qed.

(** X1.  [enqueue_command] on a closed buffer raises [ValueError] and leaves
    the world as it was.  On an open buffer it returns a new promise, which
    is pending, appends [(command_name, args, promise)] at the end of the
    queue of that buffer, and changes no other promise, no other buffer, no
    registry and no pool. *)
Theorem enqueue_command_queues (self : buffer_ref) (command_name : string)
    (args : list string) (w : world) (b : CommandBuffer.t) :
  buffers w !! self = Some b ->
  if CommandBuffer.closed b then
    enqueue_command self command_name args w
    = Raise (ValueError "I/O operation on closed file") w
  else
    exists w',
      enqueue_command self command_name args w = Ret (next_promise (heap w)) w'
      /\ promise_state (heap w') (next_promise (heap w)) = Some Pending
      /\ (forall q, q <> next_promise (heap w) ->
            promises (heap w') !! q = promises (heap w) !! q)
      /\ buffers w'
         = <[self := CommandBuffer.set_commands
                       (CommandBuffer.commands b
                        ++ [(command_name, args, next_promise (heap w))]) b]> (buffers w)
      /\ polls w' = polls w /\ cluster w' = cluster w.
Proof.
  intros Hb. unfold enqueue_command.
  rewrite bind_unfold, (assert_open_run _ _ _ Hb).
  destruct (CommandBuffer.closed b); [reflexivity|].
  unfold in_heap, zoom. rewrite bind_unfold, Promise_new_run.
  set (h1 := mkHeap _ _ _ _). set (w1 := set_heap h1 w).
  erewrite bind_Ret; [|apply update_buffer_run; exact Hb].
  eexists. split; [reflexivity|].
  subst w1 h1. cbn [heap set_buffers set_heap buffers polls cluster promises].
  split; [unfold promise_state; cbn [promises]; now rewrite lookup_insert_eq|].
  split; [intros q Hq; now rewrite lookup_insert_ne|].
  repeat split.
Qed.

Lemma parse_response_reply name c v rs :
  Connection.reads c = Reply v :: rs ->
  parse_response name c
  = Ret v (Connection.set_reads rs (Connection.called Call_read c)).
Proof.
  intros Hr. unfold parse_response, Connection.read_response.
  unfold bind, modify, gets, ret. cbn [Connection.reads Connection.called].
  now rewrite Hr.
Qed.

Lemma resolve_fresh p v h :
  promises h !! p = Some fresh_promise ->
  resolve p v h = Ret tt (set_promise p (mkPromise (Resolved v) []) h).
Proof. intros Hp. unfold resolve. now apply resolve_fuel_leaf. Qed.

Lemma set_connection_same b c :
  CommandBuffer.connection b = Some c -> CommandBuffer.set_connection (Some c) b = b.
Proof. destruct b; cbn; now intros ->. Qed.

Lemma drain_replies self (pending : list (string * promise_ref)) :
  forall (vals : list value) w b c rest,
  buffers w !! self = Some b ->
  CommandBuffer.connection b = Some c ->
  Connection.reads c = (Reply <$> vals) ++ rest ->
  length vals = length pending ->
  NoDup (snd <$> pending) ->
  (forall n p, (n, p) ∈ pending -> promises (heap w) !! p = Some fresh_promise) ->
  exists w' c',
    drain self pending w = Ret tt w'
    /\ buffers w' = <[self := CommandBuffer.set_connection (Some c') b]> (buffers w)
    /\ Connection.reads c' = rest
    /\ Connection._sock c' = Connection._sock c
    /\ polls w' = polls w
    /\ cluster w' = cluster w
    /\ (forall i n p, pending !! i = Some (n, p) ->
          promise_state (heap w') p = Resolved <$> vals !! i)
    /\ (forall q, q ∉ snd <$> pending -> promises (heap w') !! q = promises (heap w) !! q).
Proof.
  induction pending as [|[name p] ps IH]; intros vals w b c rest Hb Hc Hr Hlen Hnd Hfresh.
  - destruct vals; [|discriminate]. exists w, c.
    split; [reflexivity|].
    split; [rewrite (set_connection_same _ _ Hc); symmetry; now apply insert_id|].
    split; [exact Hr|]. repeat split; auto.
    intros i n p Hi. rewrite lookup_nil in Hi. discriminate.
  - destruct vals as [|v vs]; [discriminate|].
    cbn [fmap list_fmap app] in Hr. cbn [fmap list_fmap snd] in Hnd.
    apply NoDup_cons in Hnd as [Hnotin Hnd].
    unfold drain. cbn [for_each]. fold (drain self ps).
    rewrite bind_unfold, bind_unfold.
    rewrite (on_connection_run _ _ _ _ _ Hb Hc), (parse_response_reply _ _ _ _ Hr).
    set (c1 := Connection.set_reads _ _).
    set (b1 := CommandBuffer.set_connection (Some c1) b).
    set (w1 := set_buffers _ w).
    unfold in_heap, zoom.
    rewrite (resolve_fresh p v (heap w1)) by (apply (Hfresh name); left).
    set (w2 := set_heap _ w1).
    destruct (IH vs w2 b1 c1 rest) as (w' & c' & Hrun & Hbuf & Hreads & Hsock & Hpolls & Hcl & Hat & Hframe).
    { apply lookup_insert_eq. }
    { reflexivity. }
    { reflexivity. }
    { cbn in Hlen. lia. }
    { exact Hnd. }
    { intros n q Hin. subst w2 w1. cbn [heap set_heap set_buffers set_promise promises].
      rewrite lookup_insert_ne; [apply (Hfresh n); now right|].
      intros ->. apply Hnotin. apply list_elem_of_fmap. exists (n, q). auto. }
    exists w', c'. split; [exact Hrun|].
    split.
    { rewrite Hbuf. subst w2 w1 b1. cbn [buffers set_heap set_buffers].
      rewrite insert_insert_eq. destruct b; reflexivity. }
    split; [exact Hreads|]. split; [exact Hsock|].
    split; [exact Hpolls|]. split; [exact Hcl|]. split.
    + intros [|i] n q Hi.
      * cbn in Hi. injection Hi as <- <-. cbn [lookup list_lookup fmap option_fmap option_map].
        unfold promise_state. rewrite (Hframe p Hnotin).
        subst w2 w1. cbn [heap set_heap set_buffers set_promise promises].
        now rewrite lookup_insert_eq.
      * cbn in Hi. cbn [lookup list_lookup]. apply (Hat i n q Hi).
    + intros q Hq. cbn [fmap list_fmap snd] in Hq.
      apply not_elem_of_cons in Hq as [Hqp Hq].
      rewrite (Hframe q Hq). subst w2 w1.
      cbn [heap set_heap set_buffers set_promise promises].
      now rewrite lookup_insert_ne.
Qed.

(** X2.  On an open buffer whose connection holds a reply for every entry
    that waits for one (the waiting promises being distinct, pending and
    without callback), [wait_for_responses] returns: the i-th waiting promise
    is resolved with the i-th reply read, every other promise is unchanged,
    [pending_responses] is left empty, the queue of unsent commands is
    untouched, the replies not consumed stay on the connection and the
    buffer is still open. *)
Theorem wait_for_responses_resolves_in_order (self : buffer_ref) (w : world)
    (b : CommandBuffer.t) (c : Connection.t) (vals : list value) (rest : list reply) :
  buffers w !! self = Some b ->
  CommandBuffer.connection b = Some c ->
  CommandBuffer.closed b = false ->
  Connection.reads c = (Reply <$> vals) ++ rest ->
  length vals = length (CommandBuffer.pending_responses b) ->
  NoDup (snd <$> CommandBuffer.pending_responses b) ->
  (forall n p, (n, p) ∈ CommandBuffer.pending_responses b ->
     promises (heap w) !! p = Some fresh_promise) ->
  exists w' b' c',
    wait_for_responses self w = Ret tt w'
    /\ (forall i n p, CommandBuffer.pending_responses b !! i = Some (n, p) ->
          promise_state (heap w') p = Resolved <$> vals !! i)
    /\ (forall q, q ∉ snd <$> CommandBuffer.pending_responses b ->
          promises (heap w') !! q = promises (heap w) !! q)
    /\ buffers w' !! self = Some b'
    /\ CommandBuffer.pending_responses b' = []
    /\ CommandBuffer.commands b' = CommandBuffer.commands b
    /\ CommandBuffer.connection b' = Some c'
    /\ Connection.reads c' = rest
    /\ CommandBuffer.closed b' = false.
Proof.
  intros Hb Hc Hopen Hr Hlen Hnd Hfresh.
  unfold wait_for_responses.
  rewrite bind_unfold, (assert_open_run _ _ _ Hb), Hopen.
  unfold get_buffer. erewrite bind_Ret; [|apply deref_Some; exact Hb].
  erewrite bind_Ret; [|apply update_buffer_run; exact Hb].
  set (b0 := CommandBuffer.set_pending_responses [] b).
  set (w0 := set_buffers _ w).
  destruct (drain_replies self (CommandBuffer.pending_responses b) vals w0 b0 c rest)
    as (w' & c' & Hrun & Hbuf & Hreads & Hsock & _ & _ & Hat & Hframe);
    [apply lookup_insert_eq|exact Hc|exact Hr|exact Hlen|exact Hnd|exact Hfresh|].
  exists w', (CommandBuffer.set_connection (Some c') b0), c'.
  split; [exact Hrun|]. split; [exact Hat|]. split; [exact Hframe|].
  split; [rewrite Hbuf; apply lookup_insert_eq|].
  repeat split; [exact Hreads|].
  unfold CommandBuffer.closed in *. cbn [CommandBuffer.connection CommandBuffer.set_connection].
  rewrite Hc in Hopen. now rewrite Hsock.
Qed.

(** ** More on the coalescer *)

Lemma broadcast_run k (v : value) (tuples : list (list string * promise_ref)) :
  forall h,
  NoDup (snd <$> tuples) ->
  (forall a p, (a, p) ∈ tuples -> promises h !! p = Some fresh_promise) ->
  exists h',
    for_each (fun '(_, promise) => resolve_fuel (S k) promise v) tuples h = Ret tt h'
    /\ lists h' = lists h
    /\ (forall a p, (a, p) ∈ tuples -> promise_state h' p = Some (Resolved v))
    /\ (forall q, q ∉ snd <$> tuples -> promises h' !! q = promises h !! q).
Proof.
  induction tuples as [|[a p] ts IH]; intros h Hnd Hfresh.
  - exists h. split; [reflexivity|]. split; [reflexivity|]. split; [|auto].
    intros a p Hin. apply elem_of_nil in Hin. destruct Hin.
  - cbn [for_each]. cbn [fmap list_fmap snd] in Hnd.
    apply NoDup_cons in Hnd as [Hnotin Hnd].
    erewrite bind_Ret.
    2:{ apply resolve_fuel_leaf. apply (Hfresh a). left. }
    set (h1 := set_promise p _ h).
    destruct (IH h1 Hnd) as (h' & Hrun & Hlists & Hall & Hframe).
    { intros a' p' Hin. unfold h1, set_promise. cbn [promises].
      rewrite lookup_insert_ne; [apply (Hfresh a'); now right|].
      intros ->. apply Hnotin. apply list_elem_of_fmap. exists (a', p'). auto. }
    exists h'. split; [exact Hrun|]. split; [exact Hlists|]. split.
    + intros a' p' Hin. apply elem_of_cons in Hin as [Heq|Hin].
      * injection Heq as -> ->. unfold promise_state. rewrite (Hframe p Hnotin).
        unfold h1, set_promise. cbn [promises]. now rewrite lookup_insert_eq.
      * apply (Hall a' p' Hin).
    + intros q Hq. cbn [fmap list_fmap snd] in Hq.
      apply not_elem_of_cons in Hq as [Hqp Hq].
      rewrite (Hframe q Hq). unfold h1, set_promise. cbn [promises].
      now rewrite lookup_insert_ne.
Qed.

(** X3.  Take a group of two or more promises as [enqueue_command] makes
    them (pending, distinct, without callbacks), held in the list [l], for a
    command whose batch has a scalar reply ([SET] into [MSET]), in a store
    where the next promise reference is free.  [merge_batch] emits the batch
    command with the concatenated arguments and a new promise, and resolving
    that promise with [v] returns and resolves every promise of the group
    with the same [v]. *)
Theorem merge_batch_broadcasts_scalar (name batch_command : string) (h : pyheap)
    (l : list_ref) (tuples : list (list string * promise_ref)) (v : value) :
  AUTO_BATCH_COMMANDS !! name = Some (batch_command, false) ->
  lists h !! l = Some tuples ->
  2 <= length tuples ->
  NoDup (snd <$> tuples) ->
  (forall a p, (a, p) ∈ tuples -> promises h !! p = Some fresh_promise) ->
  promises h !! next_promise h = None ->
  exists promise h1 h2,
    merge_batch name l h = Ret (batch_command, concat (fst <$> tuples), promise) h1
    /\ resolve promise v h1 = Ret tt h2
    /\ promise_state h2 promise = Some (Resolved v)
    /\ (forall a p, (a, p) ∈ tuples -> promise_state h2 p = Some (Resolved v)).
Proof.
  intros Hn Hl Hlen Hnd Hfresh Hnew.
  exists (next_promise h), (with_batch_promise false l h).
  assert (Hnotin : next_promise h ∉ snd <$> tuples).
  { intros Hin. apply list_elem_of_fmap in Hin as ([a p] & Hp & Hin). cbn in Hp.
    pose proof (Hfresh _ _ Hin) as Hf. congruence. }
  set (h1 := with_batch_promise false l h).
  assert (HP : promises h1 !! next_promise h
               = Some (mkPromise Pending [on_success false l])) by apply lookup_insert_eq.
  set (h1' := set_promise (next_promise h) (mkPromise (Resolved v) []) h1).
  assert (Hsize : exists k, size (promises h1) = S k).
  { destruct (size (promises h1)) eqn:Hs; [|eauto].
    apply map_size_empty_inv in Hs. rewrite Hs in HP. rewrite lookup_empty in HP. discriminate. }
  destruct Hsize as [k Hsize].
  destruct (broadcast_run k v tuples h1' Hnd) as (h2 & Hrun & Hlists & Hall & Hframe).
  { intros a p Hin. unfold h1', h1, set_promise, with_batch_promise. cbn [promises].
    rewrite !lookup_insert_ne; [apply (Hfresh a p Hin)| |];
      intros Heq; apply Hnotin; apply list_elem_of_fmap; exists (a, p);
      (split; [exact Heq|exact Hin]). }
  exists h2. split; [|split; [|split]].
  - apply merge_batch_many; [exact Hn|exact Hl|lia].
  - unfold resolve. rewrite Hsize. cbn [resolve_fuel].
    erewrite bind_Ret; [|apply deref_Some; exact HP].
    cbn [state callbacks].
    erewrite bind_Ret; [|reflexivity]. fold h1'.
    cbn [for_each].
    erewrite bind_Ret; [reflexivity|].
    erewrite bind_Ret; [|apply deref_Some; exact Hl].
    exact Hrun.
  - unfold promise_state. rewrite (Hframe _ Hnotin).
    unfold h1', set_promise. cbn [promises]. now rewrite lookup_insert_eq.
  - exact Hall.
Qed.

(** X4.  A queue that holds no command of the coalescing table comes back
    from the coalescer as it is, and the store is unchanged. *)
Theorem auto_batch_commands_leaves_other_commands (commands : list command) (h : pyheap) :
  Forall (fun c => AUTO_BATCH_COMMANDS !! (fst (fst c)) = None) commands ->
  auto_batch_commands commands h = Ret commands h.
Proof.
  unfold auto_batch_commands. intros Hall.
  induction Hall as [|[[name args] p] rest Hn _ IH]; [reflexivity|].
  cbn [auto_batch_loop]. cbn [fst] in Hn. rewrite Hn.
  cbn [flush_pending]. rewrite (bind_Ret _ _ h [] h) by reflexivity.
  rewrite (bind_Ret _ _ _ _ _ IH). reflexivity.
Qed.

Lemma auto_batch_loop_same_name name batch (ts : list (list string * promise_ref)) :
  forall l pre h,
  AUTO_BATCH_COMMANDS !! name = Some batch ->
  lists h !! l = Some pre ->
  auto_batch_loop ((fun t => (name, fst t, snd t)) <$> ts) (Some (name, l)) h
  = (let! c := merge_batch name l in ret [c]) (set_list l (pre ++ ts) h).
Proof.
  induction ts as [|[a p] ts IH]; intros l pre h Hn Hl.
  - cbn [fmap list_fmap auto_batch_loop flush_pending]. rewrite app_nil_r.
    unfold set_list. rewrite insert_id by exact Hl. destruct h; reflexivity.
  - cbn [fmap list_fmap auto_batch_loop fst snd]. rewrite Hn, String.eqb_refl.
    rewrite (bind_Ret _ _ _ _ _ (list_append_run _ _ _ _ Hl)).
    rewrite (IH l (pre ++ [(a, p)])); [|exact Hn|apply lookup_insert_eq].
    unfold set_list. cbn [lists promises next_promise next_list].
    rewrite insert_insert_eq, <- app_assoc. reflexivity.
Qed.

(** X5.  A queue that is one run of the same coalescible command: a single
    command is emitted as it is, with its own promise; two or more are
    emitted as one batch command whose arguments are theirs concatenated in
    queue order and whose promise is new, pending, with one callback on the
    list that holds the [(args, promise)] pairs of the run. *)
Theorem auto_batch_commands_merges_a_run (name batch_command : string)
    (list_response : bool) (a : list string) (p : promise_ref)
    (ts : list (list string * promise_ref)) (h : pyheap) :
  AUTO_BATCH_COMMANDS !! name = Some (batch_command, list_response) ->
  exists h',
    auto_batch_commands ((fun t => (name, fst t, snd t)) <$> ((a, p) :: ts)) h
    = Ret [match ts with
           | [] => (name, a, p)
           | _ => (batch_command, a ++ concat (fst <$> ts), next_promise h)
           end] h'
    /\ lists h' !! next_list h = Some ((a, p) :: ts)
    /\ match ts with
       | [] => promises h' = promises h
       | _ => promises h' !! next_promise h
              = Some (mkPromise Pending [on_success list_response (next_list h)])
       end.
Proof.
  intros Hn. unfold auto_batch_commands.
  cbn [fmap list_fmap auto_batch_loop fst snd]. rewrite Hn.
  rewrite bind_unfold. unfold list_new at 1.
  set (h1 := mkHeap _ _ _ _).
  assert (H1 : lists h1 !! next_list h = Some [(a, p)]) by apply lookup_insert_eq.
  rewrite (auto_batch_loop_same_name name _ ts (next_list h) [(a, p)] h1 Hn H1).
  set (h2 := set_list _ _ h1).
  assert (H2 : lists h2 !! next_list h = Some ((a, p) :: ts)) by apply lookup_insert_eq.
  destruct ts as [|t ts].
  - exists h2. rewrite (bind_Ret _ _ _ _ _ (merge_batch_one _ _ _ _ _ _ Hn H2)).
    split; [reflexivity|]. split; [exact H2|reflexivity].
  - exists (with_batch_promise list_response (next_list h) h2).
    rewrite (bind_Ret _ _ _ _ _ (merge_batch_many _ _ _ _ _ _ Hn H2 ltac:(cbn; lia))).
    split; [reflexivity|]. split; [exact H2|apply lookup_insert_eq].
Qed.

Lemma keeps_promises_refl : reflexive_on keeps_promises.
Proof. intros h. split; auto. Qed.

Lemma keeps_promises_trans : transitive_on keeps_promises.
Proof.
  intros h1 h2 h3 [Hle12 H12] [Hle23 H23]. split; [lia|].
  intros q Hq. rewrite H23 by lia. now apply H12.
Qed.

Lemma merge_batch_keeps_promises name l : preserves keeps_promises (merge_batch name l).
Proof.
  intros h. destruct (AUTO_BATCH_COMMANDS !! name) as [[bc lr]|] eqn:Hn.
  - destruct (lists h !! l) as [tuples|] eqn:Hl.
    + destruct (decide (length tuples = 1)) as [Hlen|Hlen].
      * destruct tuples as [|[a p] [|? ?]]; try discriminate.
        rewrite (merge_batch_one _ _ _ _ _ _ Hn Hl). apply keeps_promises_refl.
      * rewrite (merge_batch_many _ _ _ _ _ _ Hn Hl Hlen).
        split; [cbn; lia|]. intros q Hq. cbn [with_batch_promise promises].
        rewrite lookup_insert_ne; [reflexivity|lia].
    + unfold merge_batch. rewrite Hn. unfold bind, deref. now rewrite Hl.
  - unfold merge_batch. rewrite Hn. apply keeps_promises_refl.
Qed.

Lemma list_new_keeps_promises xs : preserves keeps_promises (list_new xs).
Proof. intros h. unfold list_new. split; [cbn; lia|]. auto. Qed.

Lemma list_append_keeps_promises l x : preserves keeps_promises (list_append l x).
Proof.
  unfold list_append.
  repeat preserves_step keeps_promises_refl keeps_promises_trans.
  split; [cbn; lia|]. auto.
Qed.

Lemma flush_pending_keeps_promises pb : preserves keeps_promises (flush_pending pb).
Proof.
  unfold flush_pending.
  repeat preserves_step keeps_promises_refl keeps_promises_trans.
  apply merge_batch_keeps_promises.
Qed.

Lemma auto_batch_loop_keeps_promises commands :
  forall pb, preserves keeps_promises (auto_batch_loop commands pb).
Proof.
  induction commands as [|[[name args] p] rest IH]; intros pb; cbn [auto_batch_loop].
  - apply flush_pending_keeps_promises.
  - repeat preserves_step keeps_promises_refl keeps_promises_trans;
      first [ apply IH
            | apply flush_pending_keeps_promises
            | apply merge_batch_keeps_promises
            | apply list_new_keeps_promises
            | apply list_append_keeps_promises ].
Qed.

(** X6.  The coalescer returns on every queue and every store: it never
    raises, and the promises that existed before are as they were (new
    promises take new references only). *)
Theorem auto_batch_commands_returns (commands : list command) (h : pyheap) :
  exists effective h',
    auto_batch_commands commands h = Ret effective h'
    /\ next_promise h <= next_promise h'
    /\ forall q, q < next_promise h -> promises h' !! q = promises h !! q.
Proof.
  destruct (auto_batch_commands_total commands h) as (effective & h' & Hrun).
  exists effective, h'. split; [exact Hrun|].
  pose proof (auto_batch_loop_keeps_promises commands None h) as Hk.
  unfold auto_batch_commands in Hrun. rewrite Hrun in Hk. exact Hk.
Qed.

(** ** The pool, and the first command for a host *)

(** X7.  A connection taken from the pool of a host is tagged with that
    host; releasing it puts it at the back of the idle list of that host and
    touches no other host.  A connection whose pool reference is gone is
    dropped by [release]: the pools are unchanged. *)
Theorem RoutingPool_get_then_release (command_name : string) (host : Z)
    (idle : list Connection.t) (w : world) :
  cluster w !! host = Some idle ->
  exists con w1 w2,
    RoutingPool.get_connection command_name (Some host) w = Ret con w1
    /\ Connection.creating_pool con = Some host
    /\ cluster w1 = <[host := snd (pool_get_connection host idle)]> (cluster w)
    /\ RoutingPool.release con w1 = Ret tt w2
    /\ cluster w2 = <[host := snd (pool_get_connection host idle) ++ [con]]> (cluster w)
    /\ (forall other, other <> host -> cluster w2 !! other = cluster w !! other)
    /\ RoutingPool.release (Connection.set_creating_pool None con) w1 = Ret tt w1.
Proof.
  intros Hidle. unfold RoutingPool.get_connection.
  rewrite bind_unfold. unfold gets at 1. rewrite Hidle.
  destruct (pool_get_connection host idle) as [con idle'] eqn:Hget. cbn [snd].
  rewrite bind_unfold. unfold modify at 1. unfold ret.
  eexists _, _, _. split; [reflexivity|]. split; [reflexivity|].
  split; [reflexivity|].
  unfold RoutingPool.release. rewrite bind_unfold. unfold gets at 1.
  cbn [Connection.creating_pool Connection.set_creating_pool cluster set_cluster].
  rewrite lookup_insert_eq. unfold modify.
  split; [reflexivity|]. cbn [cluster set_cluster].
  split; [apply insert_insert_eq|].
  split; [intros other Hne; rewrite insert_insert_eq; now apply lookup_insert_ne|].
  rewrite bind_unfold. reflexivity.
Qed.

(** X8.  With no buffer registered, [join] (with any timeout),
    [cancel] and [_try_to_clear_outstanding_requests] return at once and
    change nothing: no poll is made and the clock is not read. *)
Theorem empty_registry_is_idle (fuel : nat) (self : MappingClient.t)
    (timeout : option Q) (clear_timeout : Q) (w : world) :
  polls w !! MappingClient._command_buffer_poll self = Some [] ->
  join fuel self timeout w = Ret tt w
  /\ cancel self w = Ret tt w
  /\ _try_to_clear_outstanding_requests self clear_timeout w = Ret tt w.
Proof.
  intros Hp. split; [|split].
  - unfold join. rewrite bind_unfold, get_poll_eq, Hp. cbn [fmap list_fmap for_each].
    rewrite (bind_Ret _ _ w tt w) by reflexivity.
    destruct fuel; cbn [join_loop]; rewrite bind_unfold, get_poll_eq, Hp; reflexivity.
  - unfold cancel. rewrite bind_unfold, get_poll_eq, Hp. reflexivity.
  - unfold _try_to_clear_outstanding_requests.
    rewrite bind_unfold, get_poll_eq, Hp. reflexivity.
Qed.

Lemma clear_while_at_capacity_spins fuel self w :
  MappingClient._max_concurrency self = None ->
  polls w !! MappingClient._command_buffer_poll self = Some [] ->
  clear_while_at_capacity fuel self w = Undef.
Proof.
  intros Hmax Hp. induction fuel as [|fuel IH]; cbn [clear_while_at_capacity];
    rewrite bind_unfold, get_poll_eq, Hp, Hmax; cbn [at_capacity]; [reflexivity|].
  rewrite bind_unfold.
  unfold _try_to_clear_outstanding_requests.
  rewrite bind_unfold, get_poll_eq, Hp. unfold ret at 1. exact IH.
Qed.

(** X9.  A mapping client made without [max_concurrency] never returns from
    its first command: [len(poll) >= None] holds in Python 2, and the loop of
    [_get_command_buffer] clears nothing from an empty registry.  The model
    runs out of every amount of fuel. *)
Theorem execute_command_without_cap_never_returns (fuel : nat) (router : router_t)
    (self : MappingClient.t) (command_name : string) (command_args : list string)
    (host : Z) (w : world) :
  MappingClient._max_concurrency self = None ->
  polls w !! MappingClient._command_buffer_poll self = Some [] ->
  router command_name command_args = inr host ->
  execute_command fuel router self (command_name :: command_args) w = Undef.
Proof.
  intros Hmax Hp Hroute. unfold execute_command, get_host_for_command.
  rewrite Hroute. rewrite (bind_Ret _ _ w host w) by reflexivity.
  rewrite bind_unfold. unfold _get_command_buffer.
  rewrite bind_unfold, get_poll_eq, Hp. cbn [Poll.get].
  rewrite bind_unfold. now rewrite clear_while_at_capacity_spins.
Qed.

(** X10.  When the buffer registered for the routed host is closed, the
    command raises [ValueError] and the world is unchanged: no new
    connection is taken.  [_release_command_buffer] leaves such a buffer
    registered. *)
Theorem execute_command_on_closed_buffer (fuel : nat) (router : router_t)
    (self : MappingClient.t) (command_name : string) (command_args : list string)
    (host : Z) (w : world) (r : Poll.registry) (buf : buffer_ref) (b : CommandBuffer.t) :
  router command_name command_args = inr host ->
  polls w !! MappingClient._command_buffer_poll self = Some r ->
  Poll.get host r = Some buf ->
  buffers w !! buf = Some b ->
  CommandBuffer.closed b = true ->
  execute_command fuel router self (command_name :: command_args) w
  = Raise (ValueError "I/O operation on closed file") w
  /\ _release_command_buffer self buf w = Ret tt w.
Proof.
  intros Hroute Hp Hget Hb Hclosed. split; [|eapply release_closed; eassumption].
  unfold execute_command, get_host_for_command.
  rewrite Hroute. rewrite (bind_Ret _ _ w host w) by reflexivity.
  rewrite (bind_Ret _ _ w buf w).
  2:{ unfold _get_command_buffer. rewrite bind_unfold, get_poll_eq, Hp, Hget. reflexivity. }
  unfold enqueue_command. rewrite bind_unfold, (assert_open_run _ _ _ Hb), Hclosed.
  reflexivity.
Qed.








(** ** Joining and cancelling *)

Lemma bind_Ret_inv {S A B} (m : M S A) (k : A -> M S B) s b s' :
  bind m k s = Ret b s' -> exists a s1, m s = Ret a s1 /\ k a s1 = Ret b s'.
Proof.
  unfold bind. destruct (m s) as [a s1| |]; try discriminate. eauto.
Qed.

Lemma join_loop_unbounded fuel self :
  forall w w',
  join_loop fuel self None w = Ret tt w' ->
  polls w' !! MappingClient._command_buffer_poll self = Some [].
Proof.
  induction fuel as [|fuel IH]; intros w w' Hrun; cbn [join_loop] in Hrun;
    apply bind_Ret_inv in Hrun as (r & w1 & Hr & Hrun);
    rewrite get_poll_eq in Hr;
    destruct (polls w !! MappingClient._command_buffer_poll self) as [r0|] eqn:Hp;
    try discriminate; injection Hr as -> ->;
    destruct r as [|kb r].
  - injection Hrun as <-. exact Hp.
  - discriminate.
  - injection Hrun as <-. exact Hp.
  - cbn [positive_time] in Hrun.
    apply bind_Ret_inv in Hrun as (now & w2 & _ & Hrun).
    apply bind_Ret_inv in Hrun as (rv & w3 & _ & Hrun).
    apply bind_Ret_inv in Hrun as (remaining & w4 & Hrem & Hrun).
    injection Hrem as <- <-.
    apply bind_Ret_inv in Hrun as ([] & w5 & _ & Hrun).
    eapply IH. exact Hrun.
Qed.

(** X12.  A [join] without timeout that returns has emptied the registry of
    the client. *)
Theorem join_unbounded_empties_registry (fuel : nat) (self : MappingClient.t)
    (w w' : world) :
  join fuel self None w = Ret tt w' ->
  polls w' !! MappingClient._command_buffer_poll self = Some []
  /\ registry_of self w' = [].
Proof.
  intros Hrun. unfold join in Hrun.
  apply bind_Ret_inv in Hrun as (r & w1 & _ & Hrun).
  apply bind_Ret_inv in Hrun as ([] & w2 & _ & Hrun).
  apply join_loop_unbounded in Hrun. split; [exact Hrun|].
  unfold registry_of. now rewrite Hrun.
Qed.

Lemma nothing_drained_refl : reflexive_on nothing_drained.
Proof. intros w. repeat split. Qed.

Lemma nothing_drained_trans : transitive_on nothing_drained.
Proof.
  intros w1 w2 w3 (H1 & H2 & H3) (H4 & H5 & H6). repeat split; congruence.
Qed.

Lemma release_command_buffer_nothing_drained self b :
  preserves nothing_drained (_release_command_buffer self b).
Proof.
  unfold _release_command_buffer, get_buffer, update_poll, get_poll, RoutingPool.release.
  repeat first
    [ preserves_step nothing_drained_refl nothing_drained_trans
    | apply preserves_update_buffer; intros ? ? ? ];
    repeat split.
Qed.

Lemma release_command_buffer_never_raises self b :
  raises_only never (_release_command_buffer self b).
Proof.
  unfold _release_command_buffer, get_buffer, update_poll, get_poll, RoutingPool.release,
    update_buffer, get_buffer.
  repeat raises_step.
Qed.

Lemma cancel_nothing_drained self : preserves nothing_drained (cancel self).
Proof.
  unfold cancel, get_poll.
  repeat preserves_step nothing_drained_refl nothing_drained_trans.
  apply release_command_buffer_nothing_drained.
Qed.

Lemma cancel_never_raises self : raises_only never (cancel self).
Proof.
  unfold cancel, get_poll. repeat raises_step.
  apply release_command_buffer_never_raises.
Qed.

(** X13.  Leaving the scope of a map manager with an exception is [cancel]
    on its client, whatever the timeout: it never raises, and when it returns
    no promise has changed, the poll and the clock were not consulted and the
    registry has not grown. *)
Theorem MapManager_exit_on_exception_cancels (fuel : nat) (c : MappingClient.t)
    (timeout entered : option Q) (e : exn) (w : world) :
  let self := <["entered" := ATime entered]> (MapManager_init c timeout) in
  MapManager_exit fuel self (Some e) w = cancel c w
  /\ match MapManager_exit fuel self (Some e) w with
     | Ret _ w' =>
       heap w' = heap w /\ ready w' = ready w /\ clock w' = clock w
       /\ length (registry_of c w') <= length (registry_of c w)
     | Raise _ _ => False
     | Undef => True
     end.
Proof.
  intros self.
  assert (Heq : MapManager_exit fuel self (Some e) w = cancel c w).
  { unfold MapManager_exit, self, MapManager_init, getattr.
    rewrite lookup_insert_ne by done. rewrite lookup_insert_ne by done.
    rewrite lookup_insert_ne by done. rewrite lookup_insert_eq.
    rewrite (bind_Ret _ _ w (AClient c) w) by reflexivity. reflexivity. }
  split; [exact Heq|]. rewrite Heq.
  pose proof (cancel_nothing_drained c w) as Hkeep.
  pose proof (cancel_shrinks c w) as Hshr.
  pose proof (cancel_never_raises c w) as Hnever.
  destruct (cancel c w) as [[] w'|e' w'|] eqn:Hcancel; [| |exact I].
  - destruct Hkeep as (H1 & H2 & H3). repeat split; auto.
    unfold registry_of.
    destruct (polls w !! MappingClient._command_buffer_poll c) as [r|] eqn:Hr.
    + destruct (Hshr r Hr) as (r' & Hr' & Hle). now rewrite Hr'.
    + unfold cancel in Hcancel. rewrite bind_unfold, get_poll_eq, Hr in Hcancel.
      discriminate.
  - exact (Hnever e' w' eq_refl).
Qed.

Lemma unregister_all (todo : list (Z * buffer_ref)) :
  forall cur : list (Z * buffer_ref),
  (forall kb, kb ∈ cur -> fst kb ∈ fst <$> todo) ->
  foldl (fun acc kb => Poll.unregister (fst kb) acc) cur todo = [].
Proof.
  induction todo as [|[k b] ts IH]; intros cur Hkeys.
  - destruct cur as [|kb cur]; [reflexivity|].
    specialize (Hkeys kb ltac:(left)). cbn in Hkeys. apply elem_of_nil in Hkeys.
    destruct Hkeys.
  - cbn [foldl fst]. apply IH. intros kb Hin.
    unfold Poll.unregister in Hin. apply list_elem_of_In in Hin.
    apply List.filter_In in Hin as [Hin Hne]. apply list_elem_of_In in Hin.
    specialize (Hkeys kb Hin). cbn [fmap list_fmap fst] in Hkeys.
    apply elem_of_cons in Hkeys as [Heq|Hk]; [|exact Hk].
    rewrite Heq, Z.eqb_refl in Hne. discriminate.
Qed.

Lemma cancel_loop self (todo : list (Z * buffer_ref)) :
  forall w cur,
  polls w !! MappingClient._command_buffer_poll self = Some cur ->
  Forall (registered_open w) todo ->
  NoDup (snd <$> todo) ->
  exists w',
    for_each (_release_command_buffer self) (snd <$> todo) w = Ret tt w'
    /\ polls w' !! MappingClient._command_buffer_poll self
       = Some (foldl (fun acc kb => Poll.unregister (fst kb) acc) cur todo)
    /\ (forall kb, kb ∈ todo ->
          exists b', buffers w' !! snd kb = Some b' /\ CommandBuffer.connection b' = None)
    /\ (forall x, x ∉ snd <$> todo -> buffers w' !! x = buffers w !! x).
Proof.
  induction todo as [|[k b] ts IH]; intros w cur Hp Hall Hnd.
  - exists w. split; [reflexivity|]. split; [exact Hp|]. split; [|auto].
    intros kb Hin. apply elem_of_nil in Hin. destruct Hin.
  - apply Forall_cons in Hall as [(buf & Hb & Hhost & Hopen) Hall].
    cbn [fmap list_fmap snd] in Hnd. apply NoDup_cons in Hnd as [Hnotin Hnd].
    cbn [snd fst] in *.
    destruct (release_open self b w buf cur Hb Hp Hopen) as [cl Hrun].
    cbn [fmap list_fmap snd for_each].
    rewrite (bind_Ret _ _ _ _ _ Hrun).
    set (w1 := set_buffers _ _).
    destruct (IH w1 (Poll.unregister k cur)) as (w' & Hloop & Hp' & Hnone & Hframe).
    { subst w1. cbn [polls set_buffers set_cluster set_polls].
      rewrite lookup_insert_eq. now rewrite Hhost. }
    { apply Forall_forall. intros [k' b'] Hin.
      rewrite Forall_forall in Hall. destruct (Hall _ Hin) as (buf' & Hb' & Hh' & Ho').
      exists buf'. split; [|auto]. subst w1. cbn [buffers set_buffers snd].
      rewrite lookup_insert_ne; [exact Hb'|].
      intros ->. apply Hnotin. apply list_elem_of_fmap. exists (k', b'). auto. }
    { exact Hnd. }
    exists w'. split; [exact Hloop|]. split; [exact Hp'|]. split.
    + intros kb Hin. apply elem_of_cons in Hin as [->|Hin]; [|now apply Hnone].
      cbn [snd]. rewrite (Hframe b Hnotin). subst w1. cbn [buffers set_buffers].
      rewrite lookup_insert_eq. eexists. split; reflexivity.
    + intros x Hx. cbn [fmap list_fmap snd] in Hx.
      apply not_elem_of_cons in Hx as [Hxb Hx].
      rewrite (Hframe x Hx). subst w1. cbn [buffers set_buffers].
      now rewrite lookup_insert_ne.
Qed.

(** X14.  [cancel] on a registry of distinct open buffers, each registered
    under its own host, returns with the registry empty and every one of
    these buffers without connection; no promise is settled. *)
Theorem cancel_releases_open_buffers (self : MappingClient.t) (w : world)
    (r : Poll.registry) :
  polls w !! MappingClient._command_buffer_poll self = Some r ->
  Forall (registered_open w) r ->
  NoDup (snd <$> r) ->
  exists w',
    cancel self w = Ret tt w'
    /\ registry_of self w' = []
    /\ (forall kb, kb ∈ r ->
          exists b', buffers w' !! snd kb = Some b' /\ CommandBuffer.connection b' = None)
    /\ heap w' = heap w.
Proof.
  intros Hp Hall Hnd.
  destruct (cancel_loop self r w r Hp Hall Hnd) as (w' & Hloop & Hp' & Hnone & _).
  assert (Hrun : cancel self w = Ret tt w').
  { unfold cancel. rewrite bind_unfold, get_poll_eq, Hp. exact Hloop. }
  exists w'. split; [exact Hrun|]. split.
  - unfold registry_of. rewrite Hp'. cbn [default]. apply unregister_all.
    intros kb Hin. apply list_elem_of_fmap. exists kb. auto.
  - split; [exact Hnone|].
    pose proof (cancel_nothing_drained self w) as Hkeep. rewrite Hrun in Hkeep.
    apply Hkeep.
Qed.

(** ** The fanout client and the factories *)

(** X15.  [target] spends the alias, not the parent: on a client that is not
    an alias it returns an alias, [target] on that alias raises [TypeError]
    and changes nothing, and the parent can be targeted again.  Both aliases
    are on the registry of the parent, with the hosts they were given; no
    buffer, promise or pool is touched. *)
Theorem target_only_the_alias_is_spent (self : FanoutClient.t) (hosts1 hosts2 : hosts_t)
    (w : world) :
  FanoutClient.__is_retargeted self = false ->
  exists rv w1 rv2 w2,
    target self hosts1 w = Ret rv w1
    /\ target rv hosts2 w1 = Raise (TypeError "Cannot use target more than once.") w1
    /\ target self hosts2 w1 = Ret rv2 w2
    /\ FanoutClient._target_hosts rv = hosts1
    /\ FanoutClient._target_hosts rv2 = hosts2
    /\ MappingClient._command_buffer_poll (FanoutClient.base rv)
       = MappingClient._command_buffer_poll (FanoutClient.base self)
    /\ MappingClient._command_buffer_poll (FanoutClient.base rv2)
       = MappingClient._command_buffer_poll (FanoutClient.base self)
    /\ buffers w2 = buffers w /\ heap w2 = heap w /\ cluster w2 = cluster w.
Proof.
  intros Hnot. unfold target. rewrite Hnot.
  unfold FanoutClient_init, MappingClient_init. rewrite !bind_unfold.
  unfold poll_new, ret. cbn [FanoutClient.__is_retargeted FanoutClient.base
    FanoutClient._target_hosts MappingClient._command_buffer_poll
    MappingClient._max_concurrency MappingClient.auto_batch].
  eexists _, _, _, _. split; [reflexivity|]. split; [reflexivity|].
  split; [reflexivity|]. repeat split.
Qed.

Lemma enqueue_command_run self name args w b :
  buffers w !! self = Some b ->
  CommandBuffer.closed b = false ->
  enqueue_command self name args w
  = Ret (next_promise (heap w))
        (set_buffers
           (<[self := CommandBuffer.set_commands
                        (CommandBuffer.commands b ++ [(name, args, next_promise (heap w))])
                        b]> (buffers w))
           (set_heap
              (mkHeap (<[next_promise (heap w) := fresh_promise]> (promises (heap w)))
                      (S (next_promise (heap w))) (lists (heap w)) (next_list (heap w)))
              w)).
Proof.
  intros Hb Hopen. unfold enqueue_command.
  rewrite bind_unfold, (assert_open_run _ _ _ Hb), Hopen.
  unfold in_heap, zoom. rewrite bind_unfold. cbn [Promise_new].
  erewrite bind_Ret; [|apply update_buffer_run; exact Hb]. reflexivity.
Qed.

Lemma keeps_cap_refl self m : reflexive_on (keeps_cap self m).
Proof. intros w H. exact H. Qed.

Lemma keeps_cap_trans self m : transitive_on (keeps_cap self m).
Proof. intros w1 w2 w3 H12 H23 H. auto. Qed.

Lemma get_command_buffer_keeps_cap fuel self m host name :
  MappingClient._max_concurrency self = Some m ->
  preserves (keeps_cap self m) (_get_command_buffer fuel self host name).
Proof.
  intros Hmax w.
  pose proof (get_command_buffer_registry fuel self host name w) as Hg.
  destruct (_get_command_buffer fuel self host name w) as [buf w1|e w1|]; [| |exact I].
  - intros Hcap.
    destruct Hg as [(r & Hr & _ & ->)|(r & w0 & r1 & Hr & _ & _ & Hr1 & Hlt & Hreg)];
      [exact Hcap|].
    rewrite Hmax in Hlt. apply not_at_capacity in Hlt.
    exists (Poll.register host buf r1). split; [exact Hreg|].
    pose proof (Poll_register_length host buf r1). lia.
  - intros Hcap. eapply capped_shrinks; eassumption.
Qed.

Lemma enqueue_command_keeps_cap self m buf name args :
  preserves (keeps_cap self m) (enqueue_command buf name args).
Proof.
  apply (preserves_weaken same_polls); [|apply enqueue_command_polls].
  intros w w' Hsame Hcap. eapply capped_shrinks; [exact Hcap|].
  now apply same_polls_shrinks.
Qed.

Lemma fanout_loop_keeps_cap fuel self m args hosts :
  MappingClient._max_concurrency (FanoutClient.base self) = Some m ->
  forall promises,
  preserves (keeps_cap (FanoutClient.base self) m) (fanout_loop fuel self args hosts promises).
Proof.
  intros Hmax. induction hosts as [|host rest IH]; intros promises; cbn [fanout_loop].
  - apply preserves_ret. apply keeps_cap_refl.
  - destruct args as [|name cargs].
    + apply preserves_raise. apply keeps_cap_refl.
    + apply preserves_bind; [apply keeps_cap_trans| |intros buf].
      { now apply get_command_buffer_keeps_cap. }
      apply preserves_bind; [apply keeps_cap_trans| |intros promise].
      { apply enqueue_command_keeps_cap. }
      apply IH.
Qed.

(** X17.  Without a target the command of a fanout client raises
    [RuntimeError] and the world is unchanged.  The command of a fanout
    client with a cap [m], started with at most [m] buffers registered, ends
    with at most [m] registered, whether it returns or raises and whatever
    its target is. *)
Theorem FanoutClient_execute_command_keeps_cap (fuel : nat) (self : FanoutClient.t)
    (args : list string) (w : world) :
  (FanoutClient._target_hosts self = HostsNone ->
   FanoutClient_execute_command fuel self args w
   = Raise (RuntimeError "Fanout client was not targeted to hosts.") w)
  /\ (forall m : Z,
      MappingClient._max_concurrency (FanoutClient.base self) = Some m ->
      capped (FanoutClient.base self) m w ->
      match FanoutClient_execute_command fuel self args w with
      | Ret _ w' => capped (FanoutClient.base self) m w'
      | Raise _ w' => capped (FanoutClient.base self) m w'
      | Undef => True
      end).
Proof.
  split.
  { intros Hnone. unfold FanoutClient_execute_command. rewrite Hnone.
    rewrite bind_unfold. reflexivity. }
  intros m Hmax Hcap.
  assert (Hpres : preserves (keeps_cap (FanoutClient.base self) m)
                    (FanoutClient_execute_command fuel self args)).
  { unfold FanoutClient_execute_command, Promise_all.
    repeat preserves_step (keeps_cap_refl (FanoutClient.base self) m)
                          (keeps_cap_trans (FanoutClient.base self) m).
    all: now apply fanout_loop_keeps_cap. }
  specialize (Hpres w).
  destruct (FanoutClient_execute_command fuel self args w) as [ps w'|e w'|];
    [now apply Hpres|now apply Hpres|exact I].
Qed.

Lemma Poll_get_In key (r : Poll.registry) b : Poll.get key r = Some b -> (key, b) ∈ r.
Proof.
  induction r as [|[k x] r IH]; cbn; [discriminate|].
  destruct (Z.eqb k key) eqn:E.
  - intros [= ->]. apply Z.eqb_eq in E as ->. left.
  - intros H. right. now apply IH.
Qed.

Lemma registry_buffers_distinct (r : Poll.registry) k1 k2 b :
  NoDup (snd <$> r) -> (k1, b) ∈ r -> (k2, b) ∈ r -> k1 = k2.
Proof.
  intros Hnd H1 H2.
  apply list_elem_of_lookup in H1 as [i Hi]. apply list_elem_of_lookup in H2 as [j Hj].
  assert (Hij : i = j).
  { eapply NoDup_lookup; [exact Hnd| |].
    - rewrite list_lookup_fmap, Hi. reflexivity.
    - rewrite list_lookup_fmap, Hj. reflexivity. }
  subst j. congruence.
Qed.

Lemma dict_set_new key v (d : list (Z * promise_ref)) :
  key ∉ fst <$> d -> dict_set key v d = d ++ [(key, v)].
Proof.
  induction d as [|[k x] d IH]; intros Hnotin; [reflexivity|].
  cbn [fmap list_fmap fst] in Hnotin. apply not_elem_of_cons in Hnotin as [Hne Hnotin].
  cbn. destruct (Z.eqb k key) eqn:E.
  - apply Z.eqb_eq in E. congruence.
  - now rewrite IH.
Qed.

Lemma get_command_buffer_registered fuel self host name w r buf :
  polls w !! MappingClient._command_buffer_poll self = Some r ->
  Poll.get host r = Some buf ->
  _get_command_buffer fuel self host name w = Ret buf w.
Proof.
  intros Hp Hget. unfold _get_command_buffer.
  rewrite bind_unfold, get_poll_eq, Hp, Hget. reflexivity.
Qed.

Lemma fanout_loop_registered fuel self name cargs (r : Poll.registry) (ids : list Z) :
  forall w (acc : list (Z * promise_ref)),
  polls w !! MappingClient._command_buffer_poll (FanoutClient.base self) = Some r ->
  NoDup (snd <$> r) ->
  NoDup ids ->
  (forall k, k ∈ fst <$> acc -> k ∉ ids) ->
  Forall (has_open_buffer r w) ids ->
  exists w',
    fanout_loop fuel self (name :: cargs) ids acc w
    = Ret (acc ++ zip ids (seq (next_promise (heap w)) (length ids))) w'
    /\ polls w' = polls w
    /\ (forall i host, ids !! i = Some host ->
          exists buf b,
            Poll.get host r = Some buf
            /\ buffers w !! buf = Some b
            /\ buffers w' !! buf
               = Some (CommandBuffer.set_commands
                         (CommandBuffer.commands b
                          ++ [(name, cargs, next_promise (heap w) + i)]) b)
            /\ promise_state (heap w') (next_promise (heap w) + i) = Some Pending)
    /\ (forall x, (forall host, host ∈ ids -> Poll.get host r <> Some x) ->
          buffers w' !! x = buffers w !! x)
    /\ (forall q, q < next_promise (heap w) ->
          promises (heap w') !! q = promises (heap w) !! q).
Proof.
  induction ids as [|host rest IH]; intros w acc Hp Hndr Hnd Hacc Hall.
  - exists w. cbn [fanout_loop length seq zip zip_with]. rewrite app_nil_r.
    split; [reflexivity|]. split; [reflexivity|]. split; [|auto].
    intros i host Hi. rewrite lookup_nil in Hi. discriminate.
  - apply Forall_cons in Hall as [(buf & b & Hget & Hb & Hopen) Hall].
    apply NoDup_cons in Hnd as [Hnotin Hnd].
    cbn [fanout_loop].
    rewrite (bind_Ret _ _ _ _ _ (get_command_buffer_registered fuel _ host name w r buf Hp Hget)).
    rewrite (bind_Ret _ _ _ _ _ (enqueue_command_run buf name cargs w b Hb Hopen)).
    set (np := next_promise (heap w)).
    set (w1 := set_buffers _ _).
    assert (Hdistinct : forall host' buf', host' ∈ rest -> Poll.get host' r = Some buf' ->
                                           buf' <> buf).
    { intros host' buf' Hin Hget' ->.
      assert (host' = host)
        by (eapply registry_buffers_distinct; eauto using Poll_get_In).
      subst host'. contradiction. }
    rewrite dict_set_new by (intros Hin; apply (Hacc host Hin); left).
    destruct (IH w1 (acc ++ [(host, np)])) as (w' & Hrun & Hpolls & Hat & Hframe & Hprom).
    { exact Hp. }
    { exact Hndr. }
    { exact Hnd. }
    { intros k Hk. rewrite fmap_app in Hk. apply elem_of_app in Hk as [Hk|Hk].
      - intros Hin. apply (Hacc k Hk). now right.
      - cbn in Hk. apply list_elem_of_singleton in Hk as ->. exact Hnotin. }
    { apply Forall_forall. intros host' Hin.
      rewrite Forall_forall in Hall. destruct (Hall host' Hin) as (buf' & b' & Hg' & Hb' & Ho').
      exists buf', b'. split; [exact Hg'|]. split; [|exact Ho'].
      subst w1. cbn [buffers set_buffers set_heap].
      rewrite lookup_insert_ne; [exact Hb'|]. intros Heq.
      apply (Hdistinct host' buf' Hin Hg'). now symmetry. }
    exists w'. split.
    { rewrite Hrun. subst w1. cbn [heap set_buffers set_heap next_promise length seq zip zip_with].
      rewrite <- app_assoc. reflexivity. }
    split; [exact Hpolls|]. split; [|split].
    + intros [|i] host' Hi.
      * cbn in Hi. injection Hi as <-. exists buf, b.
        split; [exact Hget|]. split; [exact Hb|]. rewrite Nat.add_0_r. split.
        -- rewrite Hframe.
           ++ subst w1. cbn [buffers set_buffers set_heap]. apply lookup_insert_eq.
           ++ intros host' Hin Hg. apply (Hdistinct host' buf Hin Hg). reflexivity.
        -- unfold promise_state. rewrite Hprom.
           ++ subst w1. cbn [heap set_buffers set_heap promises].
              now rewrite lookup_insert_eq.
           ++ subst w1. cbn [heap set_buffers set_heap next_promise]. lia.
      * cbn in Hi. destruct (Hat i host' Hi) as (buf' & b' & Hg' & Hb' & Hb'' & Hst).
        subst w1. cbn [heap set_buffers set_heap next_promise buffers] in *.
        assert (Hne : buf' <> buf).
        { apply (Hdistinct host'); [|exact Hg']. eapply list_elem_of_lookup_2; exact Hi. }
        rewrite lookup_insert_ne in Hb' by congruence.
        exists buf', b'. replace (np + S i) with (S np + i) by lia. auto.
    + intros x Hx. rewrite Hframe.
      * subst w1. cbn [buffers set_buffers set_heap].
        apply lookup_insert_ne. intros ->. apply (Hx host); [left|exact Hget].
      * intros host' Hin. apply Hx. now right.
    + intros q Hq. rewrite Hprom.
      * subst w1. cbn [heap set_buffers set_heap promises].
        apply lookup_insert_ne. fold np in Hq. lia.
      * subst w1. cbn [heap set_buffers set_heap next_promise]. fold np in Hq. lia.
Qed.

(** X18.  A fanout client targeted to distinct hosts that all have an open
    buffer registered (the registered buffers being distinct) returns one new
    pending promise per host, in the order of the hosts, the i-th host with
    the i-th new reference; the command is at the end of the queue of the
    buffer of each targeted host, and the registries are unchanged.  The
    combined promise is represented by the mapping from host to promise. *)
Theorem FanoutClient_execute_command_enqueues_on_every_host (fuel : nat)
    (self : FanoutClient.t) (command_name : string) (command_args : list string)
    (ids : list Z) (r : Poll.registry) (w : world) :
  FanoutClient._target_hosts self = Hosts ids ->
  polls w !! MappingClient._command_buffer_poll (FanoutClient.base self) = Some r ->
  NoDup (snd <$> r) ->
  NoDup ids ->
  Forall (has_open_buffer r w) ids ->
  exists w',
    FanoutClient_execute_command fuel self (command_name :: command_args) w
    = Ret (zip ids (seq (next_promise (heap w)) (length ids))) w'
    /\ polls w' = polls w
    /\ (forall i host, ids !! i = Some host ->
          exists buf b,
            Poll.get host r = Some buf
            /\ buffers w !! buf = Some b
            /\ buffers w' !! buf
               = Some (CommandBuffer.set_commands
                         (CommandBuffer.commands b
                          ++ [(command_name, command_args, next_promise (heap w) + i)]) b)
            /\ promise_state (heap w') (next_promise (heap w) + i) = Some Pending).
Proof.
  intros Hhosts Hp Hndr Hnd Hall.
  destruct (fanout_loop_registered fuel self command_name command_args r ids w [] Hp Hndr Hnd)
    as (w' & Hrun & Hpolls & Hat & _ & _).
  { intros k Hk. cbn in Hk. apply elem_of_nil in Hk. destruct Hk. }
  { exact Hall. }
  exists w'. split; [|split; [exact Hpolls|exact Hat]].
  unfold FanoutClient_execute_command. rewrite Hhosts.
  rewrite (bind_Ret _ _ w ids w) by reflexivity.
  rewrite (bind_Ret _ _ _ _ _ Hrun). reflexivity.
Qed.

(** X16.  The factories of the routing client.  [get_mapping_client] and
    [get_fanout_client] return clients on new, empty and distinct registries,
    with the cap they were given and with [auto_batch] as given, or as the
    routing client has it when [None] is given; the fanout client has the
    hosts given and is not an alias.  [map] returns the manager of the client
    [get_mapping_client] returns.  No other registry, no buffer, promise or
    pool is touched. *)
Theorem factories_make_separate_clients (self : RoutingClient.t) (hosts : hosts_t)
    (timeout : option Q) (mc1 mc2 : option Z) (ab1 ab2 : option bool) (w : world) :
  exists c w1 f w2,
    get_mapping_client self mc1 ab1 w = Ret c w1
    /\ RoutingClient_map self timeout mc1 ab1 w = Ret (MapManager_init c timeout) w1
    /\ get_fanout_client self hosts mc2 ab2 w1 = Ret f w2
    /\ MappingClient.auto_batch c
       = match ab1 with Some b => b | None => RoutingClient.auto_batch self end
    /\ MappingClient.auto_batch (FanoutClient.base f)
       = match ab2 with Some b => b | None => RoutingClient.auto_batch self end
    /\ MappingClient._max_concurrency c = mc1
    /\ MappingClient._max_concurrency (FanoutClient.base f) = mc2
    /\ FanoutClient._target_hosts f = hosts
    /\ FanoutClient.__is_retargeted f = false
    /\ MappingClient._command_buffer_poll c
       <> MappingClient._command_buffer_poll (FanoutClient.base f)
    /\ polls w2 !! MappingClient._command_buffer_poll c = Some []
    /\ polls w2 !! MappingClient._command_buffer_poll (FanoutClient.base f) = Some []
    /\ (forall p, p <> MappingClient._command_buffer_poll c ->
                  p <> MappingClient._command_buffer_poll (FanoutClient.base f) ->
                  polls w2 !! p = polls w !! p)
    /\ buffers w2 = buffers w /\ heap w2 = heap w /\ cluster w2 = cluster w.
Proof.
  unfold RoutingClient_map, get_mapping_client, get_fanout_client, FanoutClient_init,
    MappingClient_init.
  rewrite !bind_unfold. unfold poll_new, ret.
  eexists _, _, _, _. split; [reflexivity|]. split; [reflexivity|].
  split; [reflexivity|].
  cbn [MappingClient.auto_batch MappingClient._max_concurrency
       MappingClient._command_buffer_poll FanoutClient.base FanoutClient._target_hosts
       FanoutClient.__is_retargeted polls next_poll heap buffers cluster].
  split; [destruct ab1; reflexivity|]. split; [destruct ab2; reflexivity|].
  split; [reflexivity|]. split; [reflexivity|]. split; [reflexivity|].
  split; [reflexivity|]. split; [lia|].
  split; [rewrite lookup_insert_ne by lia; apply lookup_insert_eq|].
  split; [apply lookup_insert_eq|].
  split; [|repeat split].
  intros p Hc Hf. rewrite !lookup_insert_ne by congruence. reflexivity.
Qed.

(** ** The theorems at sample inputs *)


Lemma execute_command_concurrency_cap_witness :
  (1 <= 1)%Z
  /\ MappingClient_init (Some 1%Z) true session_start = Ret sample_client session_made
  /\ run_ops 3 sample_router sample_client [Op_execute ["GET"; "a"]] session_made
     = Some session_before
  /\ execute_command 3 sample_router sample_client ["GET"; "b"] session_before
     = Ret 1 session_after
  /\ (Z.of_nat (length (registry_of sample_client session_after)) <= 1)%Z.
Proof.
  assert (H1 : MappingClient_init (Some 1%Z) true session_start
               = Ret sample_client session_made) by (vm_compute; reflexivity).
  assert (H2 : run_ops 3 sample_router sample_client [Op_execute ["GET"; "a"]] session_made
               = Some session_before) by (vm_compute; reflexivity).
  assert (H3 : execute_command 3 sample_router sample_client ["GET"; "b"] session_before
               = Ret 1 session_after) by (vm_compute; reflexivity).
  split; [lia|]. split; [exact H1|]. split; [exact H2|]. split; [exact H3|].
  apply (execute_command_concurrency_cap 1 true session_start session_made session_before
           session_after sample_client 3 sample_router [Op_execute ["GET"; "a"]]
           ["GET"; "b"] 1 ltac:(lia) H1 H2 H3).
Defined.

Lemma RoutingClient_execute_command_retries_once_witness :
  sample_router "GET" ["a"] = inr 0%Z
  /\ cluster flaky_world !! 0%Z = Some [flaky_connection]
  /\ RoutingClient_execute_command sample_router ["GET"; "a"] flaky_world
     = match execute_on_connection ["GET"; "a"] "GET"
               (Connection.set_creating_pool (Some 0%Z)
                  (fst (pool_get_connection 0 [flaky_connection]))) with
       | Ret v c1 =>
         Ret v (set_cluster
                  (<[0%Z := snd (pool_get_connection 0 [flaky_connection]) ++ [c1]]>
                     (cluster flaky_world)) flaky_world)
       | Raise e c1 =>
         Raise e (set_cluster
                    (<[0%Z := snd (pool_get_connection 0 [flaky_connection]) ++ [c1]]>
                       (cluster flaky_world)) flaky_world)
       | Undef => Undef
       end.
Proof.
  assert (H1 : sample_router "GET" ["a"] = inr 0%Z) by reflexivity.
  assert (H2 : cluster flaky_world !! 0%Z = Some [flaky_connection]) by reflexivity.
  split; [exact H1|]. split; [exact H2|].
  apply (RoutingClient_execute_command_retries_once sample_router "GET" ["a"] 0
           [flaky_connection] flaky_world H1 H2).
Defined.

Lemma send_pending_requests_guarded_witness :
  buffers closed_queued_world !! 0 = Some closed_queued_buffer
  /\ CommandBuffer.closed closed_queued_buffer = true
  /\ CommandBuffer.commands closed_queued_buffer <> []
  /\ send_pending_requests 0 closed_queued_world
     = Raise (ValueError "I/O operation on closed file") closed_queued_world
  /\ buffers queued_world !! 0 = Some queued_buffer
  /\ CommandBuffer.closed queued_buffer = false
  /\ CommandBuffer.commands queued_buffer <> []
  /\ exists effective h1 c,
       (if CommandBuffer.auto_batch queued_buffer
        then auto_batch_commands (CommandBuffer.commands queued_buffer) (heap queued_world)
        else Ret (CommandBuffer.commands queued_buffer) (heap queued_world))
       = Ret effective h1
       /\ CommandBuffer.connection queued_buffer = Some c
       /\ let payload := Connection.pack_commands (wire <$> effective) in
          let flushed c1 :=
            set_buffers
              (<[0 := CommandBuffer.mk (CommandBuffer.host_id queued_buffer) (Some c1) []
                        (CommandBuffer.pending_responses queued_buffer
                         ++ (awaited <$> effective))
                        (CommandBuffer.auto_batch queued_buffer)]> (buffers queued_world))
              (set_heap h1 queued_world) in
          send_pending_requests 0 queued_world
          = match Connection.send_packed_command payload c with
            | Ret _ c1 => Ret tt (flushed c1)
            | Raise e c1 => Raise e (flushed c1)
            | Undef => Undef
            end
          /\ (forall c1, Connection.send_packed_command payload c = Ret tt c1 ->
                Connection.sent c1 = Connection.sent c ++ [payload]).
Proof.
  assert (Hcb : buffers closed_queued_world !! 0 = Some closed_queued_buffer)
    by reflexivity.
  assert (Hc : CommandBuffer.closed closed_queued_buffer = true) by reflexivity.
  assert (Hcne : CommandBuffer.commands closed_queued_buffer <> []) by discriminate.
  assert (Hb : buffers queued_world !! 0 = Some queued_buffer) by reflexivity.
  assert (Ho : CommandBuffer.closed queued_buffer = false) by reflexivity.
  assert (Hne : CommandBuffer.commands queued_buffer <> []) by discriminate.
  split; [exact Hcb|]. split; [exact Hc|]. split; [exact Hcne|].
  split.
  { destruct (send_pending_requests_guarded 0 closed_queued_world closed_queued_buffer Hcb)
      as [Hraise _].
    exact (Hraise Hc). }
  split; [exact Hb|]. split; [exact Ho|]. split; [exact Hne|].
  destruct (send_pending_requests_guarded 0 queued_world queued_buffer Hb) as [_ Hopen].
  destruct (Hopen Ho) as [_ Hflush].
  exact (Hflush Hne).
Defined.

Lemma merge_batch_scatters_by_position_witness :
  AUTO_BATCH_COMMANDS !! "GET" = Some ("MGET", true)
  /\ lists group_heap !! 0 = Some [(["a"], 0); (["b"], 1)]
  /\ 2 <= length [(["a"], 0); (["b"], 1)]
  /\ promises group_heap !! next_promise group_heap = None
  /\ exists promise h1 h2,
       merge_batch "GET" 0 group_heap = Ret ("MGET", ["a"; "b"], promise) h1
       /\ promise_state h1 promise = Some Pending
       /\ resolve promise (VList [VBulk "1"]) h1 = Ret tt h2
       /\ promise_state h2 promise = Some (Resolved (VList [VBulk "1"]))
       /\ (forall i a p, [(["a"], 0); (["b"], 1)] !! i = Some (a, p) ->
             promise_state h2 p
             = Some (match [VBulk "1"] !! i with
                     | Some v => Resolved v
                     | None => Pending
                     end))
       /\ length (List.filter (is_resolved h2) [0; 1]) = 1.
Proof.
  assert (Hn : AUTO_BATCH_COMMANDS !! "GET" = Some ("MGET", true)) by reflexivity.
  assert (Hl : lists group_heap !! 0 = Some [(["a"], 0); (["b"], 1)]) by reflexivity.
  assert (Hlen : 2 <= length [(["a"], 0); (["b"], 1)]) by (cbn; lia).
  assert (Hnew : promises group_heap !! next_promise group_heap = None) by reflexivity.
  split; [exact Hn|]. split; [exact Hl|]. split; [exact Hlen|]. split; [exact Hnew|].
  apply (merge_batch_scatters_by_position "GET" "MGET" group_heap 0
           [(["a"], 0); (["b"], 1)] [VBulk "1"] Hn Hl Hlen).
  - cbn [fmap list_fmap snd]. compute_done.
  - intros a p Hin.
    apply elem_of_cons in Hin as [Heq|Hin]; [injection Heq as -> ->; reflexivity|].
    apply elem_of_cons in Hin as [Heq|Hin]; [injection Heq as -> ->; reflexivity|].
    apply elem_of_nil in Hin. destruct Hin.
  - exact Hnew.
Defined.

Lemma wait_for_responses_read_error_witness :
  buffers faulting_world !! 0 = Some faulting_buffer
  /\ CommandBuffer.closed faulting_buffer = false
  /\ CommandBuffer.pending_responses faulting_buffer = [("GET", 0)] ++ [("GET", 1)]
  /\ drain 0 [("GET", 0)]
       (set_buffers (<[0 := CommandBuffer.set_pending_responses [] faulting_buffer]>
                       (buffers faulting_world)) faulting_world)
     = Ret tt faulting_half_world
  /\ parse_response "GET" faulting_read_connection
     = Raise (TimeoutError "Timeout reading from socket") faulting_dropped_connection
  /\ exists w',
       wait_for_responses 0 faulting_world
       = Raise (TimeoutError "Timeout reading from socket") w'
       /\ promise_state (heap w') 0 = Some (Resolved (VBulk "1"))
       /\ promise_state (heap w') 1 = Some Pending
       /\ no_new_rejection (heap faulting_world) (heap w')
       /\ (exists b', buffers w' !! 0 = Some b'
                      /\ CommandBuffer.pending_responses b' = []
                      /\ CommandBuffer.connection b' = Some faulting_dropped_connection
                      /\ CommandBuffer.closed b' = true).
Proof.
  assert (Hb : buffers faulting_world !! 0 = Some faulting_buffer) by reflexivity.
  assert (Ho : CommandBuffer.closed faulting_buffer = false) by reflexivity.
  assert (Hp : CommandBuffer.pending_responses faulting_buffer
               = [("GET", 0)] ++ [("GET", 1)]) by reflexivity.
  assert (Hd : drain 0 [("GET", 0)]
                 (set_buffers (<[0 := CommandBuffer.set_pending_responses [] faulting_buffer]>
                                 (buffers faulting_world)) faulting_world)
               = Ret tt faulting_half_world) by (vm_compute; reflexivity).
  assert (Hb1 : buffers faulting_half_world !! 0 = Some faulting_half_buffer) by reflexivity.
  assert (Hc : CommandBuffer.connection faulting_half_buffer = Some faulting_read_connection)
    by reflexivity.
  assert (Hr : parse_response "GET" faulting_read_connection
               = Raise (TimeoutError "Timeout reading from socket")
                       faulting_dropped_connection) by reflexivity.
  split; [exact Hb|]. split; [exact Ho|]. split; [exact Hp|]. split; [exact Hd|].
  split; [exact Hr|].
  destruct (wait_for_responses_read_error 0 faulting_world faulting_half_world
              faulting_buffer faulting_half_buffer [("GET", 0)] [] "GET" 1
              faulting_read_connection faulting_dropped_connection
              (TimeoutError "Timeout reading from socket") Hb Ho Hp Hd Hb1 Hc Hr)
    as (Hrun & Hheap & Hrej & Hbuf & Hpend & Hconn & Hclosed).
  eexists. split; [exact Hrun|].
  split; [rewrite Hheap; reflexivity|]. split; [rewrite Hheap; reflexivity|].
  split; [exact Hrej|].
  eexists. split; [exact Hbuf|]. split; [exact Hpend|]. split; [exact Hconn|exact Hclosed].
Defined.

Lemma enqueue_command_queues_witness :
  buffers open_world !! 0 = Some open_buffer
  /\ exists w',
       enqueue_command 0 "GET" ["a"] open_world = Ret 0 w'
       /\ promise_state (heap w') 0 = Some Pending
       /\ buffers w'
          = <[0 := CommandBuffer.set_commands [("GET", ["a"], 0)] open_buffer]>
              (buffers open_world).
Proof.
  assert (Hb : buffers open_world !! 0 = Some open_buffer) by reflexivity.
  split; [exact Hb|].
  destruct (enqueue_command_queues 0 "GET" ["a"] open_world open_buffer Hb)
    as (w' & Hrun & Hp & _ & Hbuf & _).
  exists w'. split; [exact Hrun|]. split; [exact Hp|exact Hbuf].
Defined.

Lemma wait_for_responses_resolves_in_order_witness :
  buffers replying_world !! 0 = Some replying_buffer
  /\ CommandBuffer.closed replying_buffer = false
  /\ Connection.reads replying_connection
     = (Reply <$> [VBulk "1"; VBulk "2"]) ++ [Reply (VBulk "3")]
  /\ exists w' b' c',
       wait_for_responses 0 replying_world = Ret tt w'
       /\ promise_state (heap w') 0 = Some (Resolved (VBulk "1"))
       /\ promise_state (heap w') 1 = Some (Resolved (VBulk "2"))
       /\ buffers w' !! 0 = Some b'
       /\ CommandBuffer.pending_responses b' = []
       /\ CommandBuffer.connection b' = Some c'
       /\ Connection.reads c' = [Reply (VBulk "3")].
Proof.
  assert (Hb : buffers replying_world !! 0 = Some replying_buffer) by reflexivity.
  assert (Hc : CommandBuffer.connection replying_buffer = Some replying_connection)
    by reflexivity.
  assert (Ho : CommandBuffer.closed replying_buffer = false) by reflexivity.
  assert (Hr : Connection.reads replying_connection
               = (Reply <$> [VBulk "1"; VBulk "2"]) ++ [Reply (VBulk "3")]) by reflexivity.
  assert (Hlen : length [VBulk "1"; VBulk "2"]
                 = length (CommandBuffer.pending_responses replying_buffer)) by reflexivity.
  assert (Hnd : NoDup (snd <$> CommandBuffer.pending_responses replying_buffer)).
  { cbn [fmap list_fmap snd replying_buffer CommandBuffer.pending_responses]. compute_done. }
  assert (Hfresh : forall n p, (n, p) ∈ CommandBuffer.pending_responses replying_buffer ->
                     promises (heap replying_world) !! p = Some fresh_promise).
  { intros n p Hin. cbn [replying_buffer CommandBuffer.pending_responses] in Hin.
    apply elem_of_cons in Hin as [Heq|Hin]; [injection Heq as -> ->; reflexivity|].
    apply elem_of_cons in Hin as [Heq|Hin]; [injection Heq as -> ->; reflexivity|].
    apply elem_of_nil in Hin. destruct Hin. }
  split; [exact Hb|]. split; [exact Ho|]. split; [exact Hr|].
  destruct (wait_for_responses_resolves_in_order 0 replying_world replying_buffer
              replying_connection [VBulk "1"; VBulk "2"] [Reply (VBulk "3")]
              Hb Hc Ho Hr Hlen Hnd Hfresh)
    as (w' & b' & c' & Hrun & Hat & _ & Hb' & Hpend & _ & Hc' & Hreads & _).
  exists w', b', c'. split; [exact Hrun|].
  split; [exact (Hat 0 "GET" 0 eq_refl)|]. split; [exact (Hat 1 "GET" 1 eq_refl)|].
  split; [exact Hb'|]. split; [exact Hpend|]. split; [exact Hc'|exact Hreads].
Defined.

Lemma merge_batch_broadcasts_scalar_witness :
  AUTO_BATCH_COMMANDS !! "SET" = Some ("MSET", false)
  /\ lists set_group_heap !! 0 = Some [(["a"; "1"], 0); (["b"; "2"], 1)]
  /\ exists promise h1 h2,
       merge_batch "SET" 0 set_group_heap = Ret ("MSET", ["a"; "1"; "b"; "2"], promise) h1
       /\ resolve promise (VBulk "OK") h1 = Ret tt h2
       /\ promise_state h2 0 = Some (Resolved (VBulk "OK"))
       /\ promise_state h2 1 = Some (Resolved (VBulk "OK")).
Proof.
  assert (Hn : AUTO_BATCH_COMMANDS !! "SET" = Some ("MSET", false)) by reflexivity.
  assert (Hl : lists set_group_heap !! 0 = Some [(["a"; "1"], 0); (["b"; "2"], 1)])
    by reflexivity.
  assert (Hlen : 2 <= length [(["a"; "1"], 0); (["b"; "2"], 1)]) by (cbn; lia).
  assert (Hnd : NoDup (snd <$> [(["a"; "1"], 0); (["b"; "2"], 1)])).
  { cbn [fmap list_fmap snd]. compute_done. }
  assert (Hfresh : forall a p, (a, p) ∈ [(["a"; "1"], 0); (["b"; "2"], 1)] ->
                     promises set_group_heap !! p = Some fresh_promise).
  { intros a p Hin.
    apply elem_of_cons in Hin as [Heq|Hin]; [injection Heq as -> ->; reflexivity|].
    apply elem_of_cons in Hin as [Heq|Hin]; [injection Heq as -> ->; reflexivity|].
    apply elem_of_nil in Hin. destruct Hin. }
  assert (Hnew : promises set_group_heap !! next_promise set_group_heap = None)
    by reflexivity.
  split; [exact Hn|]. split; [exact Hl|].
  destruct (merge_batch_broadcasts_scalar "SET" "MSET" set_group_heap 0
              [(["a"; "1"], 0); (["b"; "2"], 1)] (VBulk "OK") Hn Hl Hlen Hnd Hfresh Hnew)
    as (promise & h1 & h2 & Hrun & Hres & _ & Hall).
  exists promise, h1, h2. split; [exact Hrun|]. split; [exact Hres|].
  split; [apply (Hall ["a"; "1"]); left|apply (Hall ["b"; "2"]); right; left].
Defined.

Lemma auto_batch_commands_leaves_other_commands_witness :
  Forall (fun c : command => AUTO_BATCH_COMMANDS !! (fst (fst c)) = None)
         [("INCR", ["a"], 0); ("DEL", ["b"], 1)]
  /\ auto_batch_commands [("INCR", ["a"], 0); ("DEL", ["b"], 1)] two_promises
     = Ret [("INCR", ["a"], 0); ("DEL", ["b"], 1)] two_promises.
Proof.
  assert (Hall : Forall (fun c : command => AUTO_BATCH_COMMANDS !! (fst (fst c)) = None)
                        [("INCR", ["a"], 0); ("DEL", ["b"], 1)]).
  { repeat constructor. }
  split; [exact Hall|].
  exact (auto_batch_commands_leaves_other_commands _ two_promises Hall).
Defined.

Lemma auto_batch_commands_merges_a_run_witness :
  AUTO_BATCH_COMMANDS !! "GET" = Some ("MGET", true)
  /\ exists h',
       auto_batch_commands [("GET", ["a"], 0); ("GET", ["b"], 1)] two_promises
       = Ret [("MGET", ["a"; "b"], 2)] h'
       /\ lists h' !! 0 = Some [(["a"], 0); (["b"], 1)]
       /\ promises h' !! 2 = Some (mkPromise Pending [on_success true 0]).
Proof.
  assert (Hn : AUTO_BATCH_COMMANDS !! "GET" = Some ("MGET", true)) by reflexivity.
  split; [exact Hn|].
  exact (auto_batch_commands_merges_a_run "GET" "MGET" true ["a"] 0 [(["b"], 1)]
           two_promises Hn).
Defined.

Lemma RoutingPool_get_then_release_witness :
  cluster flaky_world !! 0%Z = Some [flaky_connection]
  /\ exists con w1 w2,
       RoutingPool.get_connection "GET" (Some 0%Z) flaky_world = Ret con w1
       /\ Connection.creating_pool con = Some 0%Z
       /\ RoutingPool.release con w1 = Ret tt w2
       /\ cluster w2 !! 0%Z = Some [con].
Proof.
  assert (Hc : cluster flaky_world !! 0%Z = Some [flaky_connection]) by reflexivity.
  split; [exact Hc|].
  destruct (RoutingPool_get_then_release "GET" 0 [flaky_connection] flaky_world Hc)
    as (con & w1 & w2 & Hget & Htag & _ & Hrel & Hcl & _).
  exists con, w1, w2. split; [exact Hget|]. split; [exact Htag|]. split; [exact Hrel|].
  rewrite Hcl. apply lookup_insert_eq.
Defined.

Lemma empty_registry_is_idle_witness :
  polls session_made !! MappingClient._command_buffer_poll sample_client = Some []
  /\ join 0 sample_client None session_made = Ret tt session_made
  /\ cancel sample_client session_made = Ret tt session_made
  /\ _try_to_clear_outstanding_requests sample_client 1 session_made = Ret tt session_made.
Proof.
  assert (Hp : polls session_made !! MappingClient._command_buffer_poll sample_client
               = Some []) by reflexivity.
  split; [exact Hp|].
  exact (empty_registry_is_idle 0 sample_client None 1 session_made Hp).
Defined.

Lemma execute_command_without_cap_never_returns_witness :
  MappingClient._max_concurrency uncapped_client = None
  /\ polls session_made !! MappingClient._command_buffer_poll uncapped_client = Some []
  /\ sample_router "GET" ["a"] = inr 0%Z
  /\ execute_command 1000 sample_router uncapped_client ["GET"; "a"] session_made = Undef.
Proof.
  assert (Hmax : MappingClient._max_concurrency uncapped_client = None) by reflexivity.
  assert (Hp : polls session_made !! MappingClient._command_buffer_poll uncapped_client
               = Some []) by reflexivity.
  assert (Hr : sample_router "GET" ["a"] = inr 0%Z) by reflexivity.
  split; [exact Hmax|]. split; [exact Hp|]. split; [exact Hr|].
  exact (execute_command_without_cap_never_returns 1000 sample_router uncapped_client
           "GET" ["a"] 0 session_made Hmax Hp Hr).
Defined.

Lemma execute_command_on_closed_buffer_witness :
  sample_router "GET" ["a"] = inr 0%Z
  /\ polls stale_world !! MappingClient._command_buffer_poll sample_client = Some [(0%Z, 0)]
  /\ buffers stale_world !! 0 = Some closed_buffer
  /\ CommandBuffer.closed closed_buffer = true
  /\ execute_command 1 sample_router sample_client ["GET"; "a"] stale_world
     = Raise (ValueError "I/O operation on closed file") stale_world
  /\ _release_command_buffer sample_client 0 stale_world = Ret tt stale_world.
Proof.
  assert (Hr : sample_router "GET" ["a"] = inr 0%Z) by reflexivity.
  assert (Hp : polls stale_world !! MappingClient._command_buffer_poll sample_client
               = Some [(0%Z, 0)]) by reflexivity.
  assert (Hg : Poll.get 0 [(0%Z, 0)] = Some 0) by reflexivity.
  assert (Hb : buffers stale_world !! 0 = Some closed_buffer) by reflexivity.
  assert (Hc : CommandBuffer.closed closed_buffer = true) by reflexivity.
  split; [exact Hr|]. split; [exact Hp|]. split; [exact Hb|]. split; [exact Hc|].
  exact (execute_command_on_closed_buffer 1 sample_router sample_client "GET" ["a"] 0
           stale_world [(0%Z, 0)] 0 closed_buffer Hr Hp Hg Hb Hc).
Defined.


Lemma join_unbounded_empties_registry_witness :
  join 2 sample_client None session_timed = Ret tt session_joined
  /\ registry_of sample_client session_timed = [(0%Z, 0)]
  /\ polls session_joined !! MappingClient._command_buffer_poll sample_client = Some []
  /\ registry_of sample_client session_joined = [].
Proof.
  assert (Hrun : join 2 sample_client None session_timed = Ret tt session_joined)
    by (vm_compute; reflexivity).
  split; [exact Hrun|]. split; [vm_compute; reflexivity|].
  exact (join_unbounded_empties_registry 2 sample_client session_timed session_joined Hrun).
Defined.

Lemma cancel_releases_open_buffers_witness :
  polls open_world !! MappingClient._command_buffer_poll sample_client = Some [(0%Z, 0)]
  /\ Forall (registered_open open_world) [(0%Z, 0)]
  /\ exists w',
       cancel sample_client open_world = Ret tt w'
       /\ registry_of sample_client w' = []
       /\ (exists b', buffers w' !! 0 = Some b' /\ CommandBuffer.connection b' = None)
       /\ heap w' = heap open_world.
Proof.
  assert (Hp : polls open_world !! MappingClient._command_buffer_poll sample_client
               = Some [(0%Z, 0)]) by reflexivity.
  assert (Hall : Forall (registered_open open_world) [(0%Z, 0)]).
  { constructor; [|constructor]. exists open_buffer. repeat split. }
  assert (Hnd : NoDup (snd <$> [(0%Z, 0)])).
  { cbn [fmap list_fmap snd]. compute_done. }
  split; [exact Hp|]. split; [exact Hall|].
  destruct (cancel_releases_open_buffers sample_client open_world [(0%Z, 0)] Hp Hall Hnd)
    as (w' & Hrun & Hreg & Hnone & Hheap).
  exists w'. split; [exact Hrun|]. split; [exact Hreg|].
  split; [apply (Hnone (0%Z, 0)); left|exact Hheap].
Defined.

Lemma target_only_the_alias_is_spent_witness :
  FanoutClient.__is_retargeted sample_fanout = false
  /\ exists rv w1 rv2 w2,
       target sample_fanout (Hosts [0%Z]) fanout_world = Ret rv w1
       /\ target rv (Hosts [1%Z]) w1
          = Raise (TypeError "Cannot use target more than once.") w1
       /\ target sample_fanout (Hosts [1%Z]) w1 = Ret rv2 w2
       /\ FanoutClient._target_hosts rv = Hosts [0%Z]
       /\ FanoutClient._target_hosts rv2 = Hosts [1%Z].
Proof.
  assert (Hnot : FanoutClient.__is_retargeted sample_fanout = false) by reflexivity.
  split; [exact Hnot|].
  destruct (target_only_the_alias_is_spent sample_fanout (Hosts [0%Z]) (Hosts [1%Z])
              fanout_world Hnot)
    as (rv & w1 & rv2 & w2 & H1 & H2 & H3 & H4 & H5 & _).
  exists rv, w1, rv2, w2. repeat split; assumption.
Defined.

Lemma FanoutClient_execute_command_keeps_cap_witness :
  FanoutClient._target_hosts untargeted_fanout = HostsNone
  /\ FanoutClient_execute_command 1 untargeted_fanout ["FLUSHDB"] fanout_world
     = Raise (RuntimeError "Fanout client was not targeted to hosts.") fanout_world
  /\ MappingClient._max_concurrency (FanoutClient.base broadcast_fanout) = Some 2%Z
  /\ capped (FanoutClient.base broadcast_fanout) 2 fanout_world
  /\ cluster_hosts_keys fanout_world = [0%Z; 1%Z]
  /\ match FanoutClient_execute_command 1 broadcast_fanout ["FLUSHDB"] fanout_world with
     | Ret _ w' => capped (FanoutClient.base broadcast_fanout) 2 w'
     | Raise _ w' => capped (FanoutClient.base broadcast_fanout) 2 w'
     | Undef => True
     end.
Proof.
  assert (Hnone : FanoutClient._target_hosts untargeted_fanout = HostsNone) by reflexivity.
  assert (Hmax : MappingClient._max_concurrency (FanoutClient.base broadcast_fanout)
                 = Some 2%Z) by reflexivity.
  assert (Hcap : capped (FanoutClient.base broadcast_fanout) 2 fanout_world).
  { exists [(0%Z, 0); (1%Z, 1)]. split; [reflexivity|cbn; lia]. }
  split; [exact Hnone|].
  split.
  { destruct (FanoutClient_execute_command_keeps_cap 1 untargeted_fanout ["FLUSHDB"]
                fanout_world) as [Hraise _].
    exact (Hraise Hnone). }
  split; [exact Hmax|]. split; [exact Hcap|]. split; [vm_compute; reflexivity|].
  destruct (FanoutClient_execute_command_keeps_cap 1 broadcast_fanout ["FLUSHDB"]
              fanout_world) as [_ Hkeep].
  exact (Hkeep 2%Z Hmax Hcap).
Defined.

Lemma FanoutClient_execute_command_enqueues_on_every_host_witness :
  FanoutClient._target_hosts sample_fanout = Hosts [0%Z; 1%Z]
  /\ polls fanout_world !! MappingClient._command_buffer_poll (FanoutClient.base sample_fanout)
     = Some [(0%Z, 0); (1%Z, 1)]
  /\ Forall (has_open_buffer [(0%Z, 0); (1%Z, 1)] fanout_world) [0%Z; 1%Z]
  /\ exists w',
       FanoutClient_execute_command 1 sample_fanout ["FLUSHDB"] fanout_world
       = Ret [(0%Z, 0); (1%Z, 1)] w'
       /\ polls w' = polls fanout_world.
Proof.
  assert (Hh : FanoutClient._target_hosts sample_fanout = Hosts [0%Z; 1%Z]) by reflexivity.
  assert (Hp : polls fanout_world
               !! MappingClient._command_buffer_poll (FanoutClient.base sample_fanout)
               = Some [(0%Z, 0); (1%Z, 1)]) by reflexivity.
  assert (Hndr : NoDup (snd <$> [(0%Z, 0); (1%Z, 1)])).
  { cbn [fmap list_fmap snd]. compute_done. }
  assert (Hnd : NoDup [0%Z; 1%Z]) by compute_done.
  assert (Hall : Forall (has_open_buffer [(0%Z, 0); (1%Z, 1)] fanout_world) [0%Z; 1%Z]).
  { constructor; [|constructor; [|constructor]].
    - exists 0, open_buffer. repeat split.
    - exists 1, second_buffer. repeat split. }
  split; [exact Hh|]. split; [exact Hp|]. split; [exact Hall|].
  destruct (FanoutClient_execute_command_enqueues_on_every_host 1 sample_fanout "FLUSHDB" []
              [0%Z; 1%Z] [(0%Z, 0); (1%Z, 1)] fanout_world Hh Hp Hndr Hnd Hall)
    as (w' & Hrun & Hpolls & _).
  exists w'. split; [exact Hrun|exact Hpolls].
Defined.
